(** * Observable: decorators, bindings and tracking over a reactive engine

    A shallow embedding of the module [@webstd-ui/observable]: the property
    decorator [ObservationIgnored], the class decorator [Observable] with the
    wrapping pass of its [Observed] constructor, the [Binding] class and the
    [bindable] helper, and the tracking functions [ignoringObservation] and
    [withObservationTracking].

    JavaScript objects live in a heap of property tables; the functions of
    the module are computations in a state-and-exception monad [M] over that
    heap and over the state of the reactive engine the module imports. *)

From Stdlib Require Import List String Ascii ZArith Bool Arith Lia.
From Stdlib Require Import DecimalString Decimal Permutation.
From Stdlib Require DecimalNat DecimalFacts.
Import ListNotations.
Local Open Scope string_scope.
Local Open Scope list_scope.

Set Implicit Arguments.

(* ================================================================== *)
(** ** Values and objects *)
(* ================================================================== *)

(** Property keys are strings or symbols; symbol [n] is the [n]-th symbol
    created by [Symbol(...)]. *)
Inductive key : Type :=
| KStr (s : string)
| KSym (n : nat).

(** The function objects this module creates: the accessor pair the
    [Observed] constructor installs (closed over [backingRef]) and the two
    methods of the object literal handed to [new Binding] by [bindable]
    (closed over [observable] and [key]). *)
Inductive func : Type :=
| ObservedGet (backingRef : nat)
| ObservedSet (backingRef : nat)
| BindingGet (observable : nat) (key : string)
| BindingSet (observable : nat) (key : string).

(** JavaScript values.  Numbers are integers here (no NaN, no fractions).
    [VObject l] refers to the ordinary object at heap address [l];
    [VRef c] is a ref cell of the engine and [VReactive l] what the
    engine's [reactive] answers for the object at [l]: its reactive wrapper,
    another value than the object when the object is an ordinary extensible
    one. *)
Inductive value : Type :=
| VUndefined
| VNull
| VBool (b : bool)
| VNumber (z : Z)
| VString (s : string)
| VSymbol (n : nat)
| VObject (l : nat)
| VRef (c : nat)
| VReactive (l : nat)
| VFunction (f : func).

(** An own property: a data property or an accessor property, with its
    attributes. *)
Inductive property : Type :=
| Data (v : value) (writable enumerable configurable : bool)
| Accessor (get set : option func) (enumerable configurable : bool).

(** An ordinary object: its own properties in creation order, and the
    [[Extensible]] flag.  The prototype chain of these objects is not
    modelled: only own properties are looked up. *)
Record object : Type := mkObject {
  props : list (key * property);
  extensible : bool
}.

(** What a [throw] carries. *)
Inductive thrown : Type :=
| Error (message : string)
| TypeError (message : string)
| Thrown (v : value).

(** Ghost events, recorded in call order. *)
Inductive event : Type :=
| EvPause
| EvReset
| EvRun (e : nat)
| EvEnter (f : string)
| EvLeave (f : string).

(** The whole store.  [heap], [symbols], [metadata] and [protos] belong to
    the JavaScript side; [cells] to [trigger_queue] are the state of the
    reactive engine; [trace] is ghost state. *)
Record state : Type := mkState {
  heap : list object;
  symbols : list string;
  metadata : list (option (list string));
  cells : list value;
  shouldTrack : bool;
  trackStack : list bool;
  activeEffect : option nat;
  effects : nat;
  deps : list (nat * nat);
  trigger_queue : list nat;
  trace : list event;
  protos : list (option nat)
}.

Definition initial_state : state :=
  mkState [] [] [] [] true [] None 0 [] [] [] [].

Definition set_heap (h : list object) (st : state) : state :=
  mkState h (symbols st) (metadata st) (cells st) (shouldTrack st)
    (trackStack st) (activeEffect st) (effects st) (deps st)
    (trigger_queue st) (trace st) (protos st).

Definition set_symbols (s : list string) (st : state) : state :=
  mkState (heap st) s (metadata st) (cells st) (shouldTrack st)
    (trackStack st) (activeEffect st) (effects st) (deps st)
    (trigger_queue st) (trace st) (protos st).

Definition set_metadata (m : list (option (list string))) (st : state) : state :=
  mkState (heap st) (symbols st) m (cells st) (shouldTrack st)
    (trackStack st) (activeEffect st) (effects st) (deps st)
    (trigger_queue st) (trace st) (protos st).

Definition set_cells (c : list value) (st : state) : state :=
  mkState (heap st) (symbols st) (metadata st) c (shouldTrack st)
    (trackStack st) (activeEffect st) (effects st) (deps st)
    (trigger_queue st) (trace st) (protos st).

Definition set_tracking (b : bool) (stack : list bool) (st : state) : state :=
  mkState (heap st) (symbols st) (metadata st) (cells st) b
    stack (activeEffect st) (effects st) (deps st)
    (trigger_queue st) (trace st) (protos st).

Definition set_activeEffect (a : option nat) (st : state) : state :=
  mkState (heap st) (symbols st) (metadata st) (cells st) (shouldTrack st)
    (trackStack st) a (effects st) (deps st)
    (trigger_queue st) (trace st) (protos st).

Definition set_effects (n : nat) (st : state) : state :=
  mkState (heap st) (symbols st) (metadata st) (cells st) (shouldTrack st)
    (trackStack st) (activeEffect st) n (deps st)
    (trigger_queue st) (trace st) (protos st).

Definition set_deps (d : list (nat * nat)) (st : state) : state :=
  mkState (heap st) (symbols st) (metadata st) (cells st) (shouldTrack st)
    (trackStack st) (activeEffect st) (effects st) d
    (trigger_queue st) (trace st) (protos st).

Definition set_trigger_queue (q : list nat) (st : state) : state :=
  mkState (heap st) (symbols st) (metadata st) (cells st) (shouldTrack st)
    (trackStack st) (activeEffect st) (effects st) (deps st)
    q (trace st) (protos st).

Definition set_protos (p : list (option nat)) (st : state) : state :=
  mkState (heap st) (symbols st) (metadata st) (cells st) (shouldTrack st)
    (trackStack st) (activeEffect st) (effects st) (deps st)
    (trigger_queue st) (trace st) p.

Definition log (ev : event) (st : state) : state :=
  mkState (heap st) (symbols st) (metadata st) (cells st) (shouldTrack st)
    (trackStack st) (activeEffect st) (effects st) (deps st)
    (trigger_queue st) (trace st ++ [ev]) (protos st).

(* ================================================================== *)
(** ** The monad of computations *)
(* ================================================================== *)

(** How a call ends: with a value, with a thrown exception, or, for the
    interpreter of property access, with its recursion budget spent. *)
Inductive outcome (A : Type) : Type :=
| Normal (a : A)
| Throw (t : thrown)
| OutOfFuel.

Arguments Normal {A} a.
Arguments Throw {A} t.
Arguments OutOfFuel {A}.

Definition M (A : Type) : Type := state -> outcome A * state.

Definition ret {A} (a : A) : M A := fun st => (Normal a, st).

Definition throw {A} (t : thrown) : M A := fun st => (Throw t, st).

Definition out_of_fuel {A} : M A := fun st => (OutOfFuel, st).

Definition bind {A B} (c : M A) (k : A -> M B) : M B :=
  fun st =>
    match c st with
    | (Normal a, st1) => k a st1
    | (Throw t, st1) => (Throw t, st1)
    | (OutOfFuel, st1) => (OutOfFuel, st1)
    end.

Notation "'let*' x ':=' c 'in' k" := (bind c (fun x => k))
  (at level 10, x name, c at level 100, k at level 200).
Notation "c '>>' k" := (bind c (fun _ => k))
  (at level 62, right associativity).

(** A state transformer that cannot fail. *)
Definition modify (f : state -> state) : M unit := fun st => (Normal tt, f st).

(** [for (const x of xs) body(x)] over an immutable snapshot [xs]. *)
Fixpoint for_each {A} (xs : list A) (body : A -> M unit) : M unit :=
  match xs with
  | [] => ret tt
  | x :: rest => body x >> for_each rest body
  end.

(** [try { c } catch (e) { handler e }]: an exception of [c] is handed to
    the handler, in the state in which it was thrown. *)
Definition try_catch {A} (c : M A) (handler : thrown -> M A) : M A :=
  fun st =>
    match c st with
    | (Throw t, st1) => handler t st1
    | end_ => end_
    end.

(* ================================================================== *)
(** ** Equality and [typeof] *)
(* ================================================================== *)

Definition key_eqb (a b : key) : bool :=
  match a, b with
  | KStr s, KStr t => String.eqb s t
  | KSym n, KSym m => Nat.eqb n m
  | _, _ => false
  end.

Definition func_eqb (f g : func) : bool :=
  match f, g with
  | ObservedGet a, ObservedGet b => Nat.eqb a b
  | ObservedSet a, ObservedSet b => Nat.eqb a b
  | BindingGet o k, BindingGet o' k' => Nat.eqb o o' && String.eqb k k'
  | BindingSet o k, BindingSet o' k' => Nat.eqb o o' && String.eqb k k'
  | _, _ => false
  end.

(** [a === b] on the values of the model (also SameValue, there being no
    NaN and no signed zero). *)
Definition strict_equal (a b : value) : bool :=
  match a, b with
  | VUndefined, VUndefined => true
  | VNull, VNull => true
  | VBool x, VBool y => Bool.eqb x y
  | VNumber x, VNumber y => Z.eqb x y
  | VString x, VString y => String.eqb x y
  | VSymbol x, VSymbol y => Nat.eqb x y
  | VObject x, VObject y => Nat.eqb x y
  | VRef x, VRef y => Nat.eqb x y
  | VReactive x, VReactive y => Nat.eqb x y
  | VFunction f, VFunction g => func_eqb f g
  | _, _ => false
  end.

Definition typeof (v : value) : string :=
  match v with
  | VUndefined => "undefined"
  | VNull => "object"
  | VBool _ => "boolean"
  | VNumber _ => "number"
  | VString _ => "string"
  | VSymbol _ => "symbol"
  | VObject _ | VRef _ | VReactive _ => "object"
  | VFunction _ => "function"
  end.

(** The primitive (scalar) values. *)
Definition is_scalar (v : value) : bool :=
  match v with
  | VUndefined | VNull | VBool _ | VNumber _ | VString _ | VSymbol _ => true
  | VObject _ | VRef _ | VReactive _ | VFunction _ => false
  end.

(* ================================================================== *)
(** ** Ordinary objects: the built-ins the module calls *)
(* ================================================================== *)

Fixpoint lookup_prop (ps : list (key * property)) (k : key) : option property :=
  match ps with
  | [] => None
  | (k', p) :: rest => if key_eqb k' k then Some p else lookup_prop rest k
  end.

(** Overwrites the property at [k] in place, or appends it: a new property
    comes last in creation order. *)
Fixpoint store_prop (ps : list (key * property)) (k : key) (p : property)
  : list (key * property) :=
  match ps with
  | [] => [(k, p)]
  | (k', q) :: rest =>
      if key_eqb k' k then (k, p) :: rest else (k', q) :: store_prop rest k p
  end.

(** [[GetOwnProperty]]. *)
Definition get_own (st : state) (o : nat) (k : key) : option property :=
  match nth_error (heap st) o with
  | Some ob => lookup_prop (props ob) k
  | None => None
  end.

Fixpoint update_nth {A} (n : nat) (x : A) (l : list A) : list A :=
  match l, n with
  | [], _ => []
  | _ :: rest, 0 => x :: rest
  | y :: rest, S m => y :: update_nth m x rest
  end.

Definition alloc (ob : object) : M nat :=
  fun st => (Normal (List.length (heap st)), set_heap (heap st ++ [ob]) st).

(** ToString of an array index. *)
Definition index_key (i : nat) : string :=
  NilZero.string_of_uint (Nat.to_uint i).

(** A string is an array index when it is the canonical decimal form of an
    integer below 2^32 - 1. *)
Definition array_index (s : string) : option N :=
  match NilZero.uint_of_string s with
  | Some u =>
      let n := N.of_uint u in
      if String.eqb (NilZero.string_of_uint (N.to_uint n)) s
         && (n <? 4294967295)%N
      then Some n else None
  | None => None
  end.

Fixpoint insert_index (x : N * string) (l : list (N * string)) : list (N * string) :=
  match l with
  | [] => [x]
  | y :: rest =>
      if (fst x <=? fst y)%N then x :: l else y :: insert_index x rest
  end.

Fixpoint index_names (ps : list (key * property)) : list (N * string) :=
  match ps with
  | [] => []
  | (KStr s, _) :: rest =>
      match array_index s with
      | Some n => insert_index (n, s) (index_names rest)
      | None => index_names rest
      end
  | (KSym _, _) :: rest => index_names rest
  end.

Fixpoint plain_names (ps : list (key * property)) : list string :=
  match ps with
  | [] => []
  | (KStr s, _) :: rest =>
      match array_index s with
      | Some _ => plain_names rest
      | None => s :: plain_names rest
      end
  | (KSym _, _) :: rest => plain_names rest
  end.

Fixpoint symbol_keys (ps : list (key * property)) : list key :=
  match ps with
  | [] => []
  | (KStr _, _) :: rest => symbol_keys rest
  | (KSym n, _) :: rest => KSym n :: symbol_keys rest
  end.

(** The own string keys in the order of [[OwnPropertyKeys]]: array indices
    ascending, then the other strings in creation order. *)
Definition own_names (ob : object) : list string :=
  map snd (index_names (props ob)) ++ plain_names (props ob).

(** [[OwnPropertyKeys]]: the string keys, then the symbols in creation
    order. *)
Definition own_keys (ob : object) : list key :=
  map KStr (own_names ob) ++ symbol_keys (props ob).

(** [Object.getOwnPropertyNames(o)], as an immutable snapshot. *)
Definition getOwnPropertyNames (o : nat) : M (list string) :=
  fun st =>
    match nth_error (heap st) o with
    | Some ob => (Normal (own_names ob), st)
    | None => (Throw (TypeError "not an object"), st)
    end.

(** The [value] field of the descriptor object that
    [Object.getOwnPropertyDescriptor] builds: absent, hence [undefined], for
    an accessor property. *)
Definition descriptor_value (p : property) : value :=
  match p with
  | Data v _ _ _ => v
  | Accessor _ _ _ _ => VUndefined
  end.

(** [Object.getOwnPropertyDescriptor(o, prop)!.value]: reading [.value] of
    the [undefined] answer for a missing property is a TypeError. *)
Definition getOwnPropertyDescriptor_value (o : nat) (k : key) : M value :=
  fun st =>
    match get_own st o k with
    | Some p => (Normal (descriptor_value p), st)
    | None => (Throw (TypeError "Cannot read properties of undefined"), st)
    end.

(** A property descriptor as passed to [Object.defineProperty]: every field
    may be absent. *)
Record descriptor : Type := mkDescriptor {
  d_value : option value;
  d_writable : option bool;
  d_get : option (option func);
  d_set : option (option func);
  d_enumerable : option bool;
  d_configurable : option bool
}.

Definition is_accessor_descriptor (d : descriptor) : bool :=
  match d_get d, d_set d with
  | None, None => false
  | _, _ => true
  end.

Definition is_data_descriptor (d : descriptor) : bool :=
  match d_value d, d_writable d with
  | None, None => false
  | _, _ => true
  end.

Definition is_accessor (p : property) : bool :=
  match p with
  | Accessor _ _ _ _ => true
  | Data _ _ _ _ => false
  end.

Definition prop_enumerable (p : property) : bool :=
  match p with
  | Data _ _ e _ => e
  | Accessor _ _ e _ => e
  end.

Definition prop_configurable (p : property) : bool :=
  match p with
  | Data _ _ _ c => c
  | Accessor _ _ _ c => c
  end.

Definition or_default {A} (o : option A) (d : A) : A :=
  match o with
  | Some a => a
  | None => d
  end.

Definition same_func (a b : option func) : bool :=
  match a, b with
  | Some f, Some g => func_eqb f g
  | None, None => true
  | _, _ => false
  end.

(** An absent field is compatible with anything; a present one must pass
    the test. *)
Definition differs {A} (o : option A) (same : A -> bool) : bool :=
  match o with
  | Some a => negb (same a)
  | None => false
  end.

(** The checks of ValidateAndApplyPropertyDescriptor against a
    non-configurable current property. *)
Definition rejected (d : descriptor) (cur : property) : bool :=
  differs (d_configurable d) negb
  || differs (d_enumerable d) (Bool.eqb (prop_enumerable cur))
  || ((is_accessor_descriptor d || is_data_descriptor d)
      && negb (Bool.eqb (is_accessor_descriptor d) (is_accessor cur)))
  || match cur with
     | Accessor g s _ _ =>
         differs (d_get d) (same_func g) || differs (d_set d) (same_func s)
     | Data v w _ _ =>
         negb w && (differs (d_writable d) negb
                    || differs (d_value d) (strict_equal v))
     end.

(** The property that results from applying [d] over [cur]. *)
Definition applied (d : descriptor) (cur : property) : property :=
  let e := or_default (d_enumerable d) (prop_enumerable cur) in
  let c := or_default (d_configurable d) (prop_configurable cur) in
  match cur with
  | Data v w _ _ =>
      if is_accessor_descriptor d
      then Accessor (or_default (d_get d) None) (or_default (d_set d) None) e c
      else Data (or_default (d_value d) v) (or_default (d_writable d) w) e c
  | Accessor g s _ _ =>
      if is_data_descriptor d
      then Data (or_default (d_value d) VUndefined) (or_default (d_writable d) false) e c
      else Accessor (or_default (d_get d) g) (or_default (d_set d) s) e c
  end.

(** The property created by [d] where there was none. *)
Definition created (d : descriptor) : property :=
  let e := or_default (d_enumerable d) false in
  let c := or_default (d_configurable d) false in
  if is_accessor_descriptor d
  then Accessor (or_default (d_get d) None) (or_default (d_set d) None) e c
  else Data (or_default (d_value d) VUndefined) (or_default (d_writable d) false) e c.

(** ValidateAndApplyPropertyDescriptor: [None] when the definition is
    rejected. *)
Definition validate_and_apply (ext : bool) (d : descriptor)
    (current : option property) : option property :=
  match current with
  | None => if ext then Some (created d) else None
  | Some cur =>
      if negb (prop_configurable cur) && rejected d cur then None
      else Some (applied d cur)
  end.

(** [[DefineOwnProperty]] of an ordinary object; [false] when rejected. *)
Definition define_own (o : nat) (k : key) (d : descriptor) : M bool :=
  fun st =>
    match nth_error (heap st) o with
    | Some ob =>
        match validate_and_apply (extensible ob) d (lookup_prop (props ob) k) with
        | Some p =>
            (Normal true,
             set_heap (update_nth o (mkObject (store_prop (props ob) k p)
                                              (extensible ob)) (heap st)) st)
        | None => (Normal false, st)
        end
    | None => (Throw (TypeError "not an object"), st)
    end.

(** [Object.defineProperty(o, k, d)]: a rejected definition throws. *)
Definition defineProperty (o : nat) (k : key) (d : descriptor) : M unit :=
  let* ok := define_own o k d in
  if ok then ret tt else throw (TypeError "Cannot define property").

(** The descriptor [{ value: v, writable: true }]. *)
Definition value_writable (v : value) : descriptor :=
  mkDescriptor (Some v) (Some true) None None None None.

(** The descriptor [{ get: g, set: s }]. *)
Definition get_set (g s : func) : descriptor :=
  mkDescriptor None None (Some (Some g)) (Some (Some s)) None None.

(** The descriptor [{ value: v }] that [[Set]] applies to an existing data
    property. *)
Definition value_only (v : value) : descriptor :=
  mkDescriptor (Some v) None None None None None.

(** The descriptor of CreateDataProperty. *)
Definition data_property (v : value) : descriptor :=
  mkDescriptor (Some v) (Some true) None None (Some true) (Some true).

(** [Symbol(description)]: a symbol never seen before. *)
Definition Symbol (description : string) : M nat :=
  fun st => (Normal (List.length (symbols st)),
             set_symbols (symbols st ++ [description]) st).

(* ================================================================== *)
(** ** The reactive engine *)
(* ================================================================== *)

(** The module imports [reactive], [ref], [isRef], [pauseTracking],
    [resetTracking] and [effect] from the engine [@vue/reactivity], which is
    not part of the repository.  The definitions of this section stand for
    them.  Effects that a write triggers are queued in [trigger_queue]; when
    the engine re-runs them is the engine's business. *)

(** Modelled from the spec: [isRef] (the spec's [isRefCell]), missing from
    the sources, tells whether a value is a ref cell. *)
Definition isRef (r : value) : bool :=
  match r with
  | VRef _ => true
  | _ => false
  end.

(** Modelled from the spec: [reactive] (the spec's [makeReactive]), missing
    from the sources, answers for an object its reactive wrapper, the same
    one each time, so that wrapping allocates nothing.  Whether the wrapper
    is another value than the object is the engine's business (the spec
    leaves it implementation-defined; an engine may hand back as they are
    the objects it does not observe): [VReactive l] stands for the answer,
    whatever it is.  A value that is not an object is handed back as it
    is. *)
Definition reactive (target : value) : value :=
  match target with
  | VObject l => VReactive l
  | _ => target
  end.

(** Modelled from the spec: the object a reactive wrapper wraps. *)
Definition toRaw (observed : value) : value :=
  match observed with
  | VReactive l => VObject l
  | _ => observed
  end.

(** Modelled from the spec: the deep wrapping a ref cell applies to the
    value it holds (the spec's [makeShallowRef] is the variant that does not
    deep-wrap). *)
Definition toReactive (v : value) : value := reactive v.

Definition same_dep (e c : nat) (d : nat * nat) : bool :=
  Nat.eqb (fst d) e && Nat.eqb (snd d) c.

(** Modelled from the spec: dependency recording, missing from the sources.
    A read of cell [c] becomes a dependency of the running effect when
    tracking is on. *)
Definition track (c : nat) : M unit :=
  modify (fun st =>
    match activeEffect st with
    | Some e =>
        if shouldTrack st
        then if existsb (same_dep e c) (deps st) then st
             else set_deps (deps st ++ [(e, c)]) st
        else st
    | None => st
    end).

(** The effects that depend on cell [c]. *)
Definition subscribers (c : nat) (st : state) : list nat :=
  map fst (filter (fun d => Nat.eqb (snd d) c) (deps st)).

Definition is_active (st : state) (e : nat) : bool :=
  match activeEffect st with
  | Some a => Nat.eqb a e
  | None => false
  end.

(** Modelled from the spec: change notification, missing from the sources.
    A write to cell [c] schedules the effects that depend on [c], the running
    one excepted. *)
Definition trigger (c : nat) : M unit :=
  modify (fun st =>
    set_trigger_queue
      (trigger_queue st ++ filter (fun e => negb (is_active st e)) (subscribers c st))
      st).

(** Modelled from the spec: [ref] (the spec's [makeRef]), missing from the
    sources, returns a fresh cell holding the value; a cell is returned as it
    is. *)
Definition ref (v : value) : M value :=
  if isRef v then ret v
  else fun st => (Normal (VRef (List.length (cells st))),
                  set_cells (cells st ++ [toRaw v]) st).

(** Modelled from the spec: reading [r.value] of a cell records the
    dependency and answers the held value, deep-wrapped. *)
Definition ref_get (r : value) : M value :=
  match r with
  | VRef c => track c >> fun st => (Normal (toReactive (nth c (cells st) VUndefined)), st)
  | _ => ret VUndefined
  end.

(** Modelled from the spec: the assignment [r.value = v] stores the value
    in the same cell and, when it differs from the held one, notifies the
    dependents. *)
Definition ref_set (r : value) (v : value) : M unit :=
  match r with
  | VRef c =>
      fun st =>
        if strict_equal (toRaw v) (nth c (cells st) VUndefined)
        then (Normal tt, st)
        else trigger c (set_cells (update_nth c (toRaw v) (cells st)) st)
  | _ => ret tt
  end.

(** Modelled from the spec: [pauseTracking], missing from the sources,
    suspends dependency recording, remembering the current setting. *)
Definition paused (st : state) : state :=
  log EvPause (set_tracking false (shouldTrack st :: trackStack st) st).

Definition pauseTracking : M unit := modify paused.

(** Modelled from the spec: [resetTracking] (the spec's [resumeTracking]),
    missing from the sources, goes back to the setting remembered by the
    latest pause, or to recording when there is none. *)
Definition resumed (st : state) : state :=
  log EvReset
    match trackStack st with
    | last :: rest => set_tracking last rest st
    | [] => set_tracking true [] st
    end.

Definition resetTracking : M unit := modify resumed.

(** The dependencies of effect [e] are dropped before each run. *)
Definition cleanup (e : nat) (d : list (nat * nat)) : list (nat * nat) :=
  filter (fun x => negb (Nat.eqb (fst x) e)) d.

(** Modelled from the spec: the state in which a run of effect [e] starts
    its body: [e] is the running effect, recording is on and the
    dependencies of the previous run are dropped. *)
Definition started (e : nat) (st : state) : state :=
  log (EvRun e)
    (set_deps (cleanup e (deps st))
       (set_tracking true (trackStack st)
          (set_activeEffect (Some e) st))).

(** Modelled from the spec: the state after the body of a run that started
    in [st]. *)
Definition finished (st st2 : state) : state :=
  set_tracking (shouldTrack st) (trackStack st2) (set_activeEffect (activeEffect st) st2).

(** Modelled from the spec: one run of effect [e] with body [fn]: whatever
    way the body ends, the previous running effect and setting are put
    back. *)
Definition run_effect (e : nat) (fn : M value) : M value :=
  fun st =>
    let (r, st2) := fn (started e st) in
    (r, finished st st2).

(** Modelled from the spec: [effect] (the spec's [runTrackedEffect]),
    missing from the sources, creates an effect and runs it now; it
    answers the new effect. *)
Definition effect (fn : M value) : M nat :=
  fun st =>
    let e := effects st in
    (run_effect e fn >> ret e) (set_effects (S e) st).

(** Modelled from the spec: the state in which a later run of effect [e] starts: [e] has left the
    queue. *)
Definition dequeued (e : nat) (st : state) : state :=
  set_trigger_queue (filter (fun x => negb (Nat.eqb x e)) (trigger_queue st)) st.

(** A later run of effect [e], as the engine performs it once a dependency
    has changed. *)
Definition rerun (e : nat) (fn : M value) : M value :=
  modify (dequeued e) >> run_effect e fn.

(* ================================================================== *)
(** ** Property access *)
(* ================================================================== *)

(** [[Get]] on an own property; [call] invokes a getter. *)
Definition Get_with (call : func -> nat -> list value -> M value)
    (o : nat) (k : key) : M value :=
  fun st =>
    match nth_error (heap st) o with
    | None => (Throw (TypeError "not an object"), st)
    | Some ob =>
        match lookup_prop (props ob) k with
        | None => (Normal VUndefined, st)
        | Some (Data v _ _ _) => (Normal v, st)
        | Some (Accessor None _ _ _) => (Normal VUndefined, st)
        | Some (Accessor (Some g) _ _ _) => call g o [] st
        end
    end.

(** [[Set]] on an own property, in strict mode: an assignment that cannot
    be carried out throws.  [call] invokes a setter. *)
Definition Set_with (call : func -> nat -> list value -> M value)
    (o : nat) (k : key) (v : value) : M unit :=
  fun st =>
    match nth_error (heap st) o with
    | None => (Throw (TypeError "not an object"), st)
    | Some ob =>
        match lookup_prop (props ob) k with
        | None =>
            (let* ok := define_own o k (data_property v) in
             if ok then ret tt
             else throw (TypeError "Cannot add property, object is not extensible")) st
        | Some (Data _ w _ _) =>
            if w
            then (let* ok := define_own o k (value_only v) in
                  if ok then ret tt
                  else throw (TypeError "Cannot assign to property")) st
            else (Throw (TypeError "Cannot assign to read only property"), st)
        | Some (Accessor _ None _ _) =>
            (Throw (TypeError "Cannot set property which has only a getter"), st)
        | Some (Accessor _ (Some s) _ _) => (call s o [v] >> ret tt) st
        end
    end.

(* ================================================================== *)
(** ** The module: closures *)
(* ================================================================== *)

(** The getter the [Observed] constructor installs:
    [let instance = this[backingRef];
     return isRef(instance) ? instance.value : instance]. *)
Definition Observed_get (get : nat -> key -> M value)
    (backingRef this : nat) : M value :=
  let* instance := get this (KSym backingRef) in
  if isRef instance then ref_get instance else ret instance.

(** The setter the [Observed] constructor installs:
    [let instance = this[backingRef];
     if (isRef(instance)) instance.value = v
     else this[backingRef] = reactive(v)]. *)
Definition Observed_set (get : nat -> key -> M value)
    (set : nat -> key -> value -> M unit)
    (backingRef this : nat) (v : value) : M value :=
  let* instance := get this (KSym backingRef) in
  (if isRef instance then ref_set instance v
   else set this (KSym backingRef) (reactive v))
  >> ret VUndefined.

(** The method [get() { return observable[key] }] of [bindable]. *)
Definition Binding_get (get : nat -> key -> M value)
    (observable : nat) (key : string) : M value :=
  get observable (KStr key).

(** The method [set(v) { observable[key] = v }] of [bindable]. *)
Definition Binding_set (set : nat -> key -> value -> M unit)
    (observable : nat) (key : string) (v : value) : M value :=
  set observable (KStr key) v >> ret VUndefined.

Definition func_body (get : nat -> key -> M value)
    (set : nat -> key -> value -> M unit)
    (f : func) (this : nat) (args : list value) : M value :=
  match f with
  | ObservedGet backingRef => Observed_get get backingRef this
  | ObservedSet backingRef => Observed_set get set backingRef this (nth 0 args VUndefined)
  | BindingGet observable key => Binding_get get observable key
  | BindingSet observable key => Binding_set set observable key (nth 0 args VUndefined)
  end.

(** A call [f.call(this, ...args)].  Getters and setters call one another
    through property access, so the depth of nested calls is bounded by
    [fuel]. *)
Fixpoint Call (fuel : nat) (f : func) (this : nat) (args : list value) : M value :=
  match fuel with
  | 0 => out_of_fuel
  | S n => func_body (Get_with (Call n)) (Set_with (Call n)) f this args
  end.

(** [o[k]]. *)
Definition Get (fuel : nat) : nat -> key -> M value := Get_with (Call fuel).

(** [o[k] = v]. *)
Definition Set_ (fuel : nat) : nat -> key -> value -> M unit := Set_with (Call fuel).

(* ================================================================== *)
(** ** The module: the ignore list *)
(* ================================================================== *)

(** The metadata object of a class is the address of its entry in
    [metadata]; the entry is the object's own property
    [ObservationIgnoredSymbol]: [None] while the object has none, then the
    contents of the array.  The prototype of the metadata object of a class
    is the metadata object of the class it extends: [protos] gives it, and
    none for a class that extends nothing.  [None] as a metadata object
    stands for a missing one ([undefined]). *)

(** The object that holds what [metadata[ObservationIgnoredSymbol]] reads:
    the metadata object itself, or else the nearest object of its prototype
    chain that has the property.  Prototype chains have no cycle: [fuel]
    bounds the walk. *)
Fixpoint holder (fuel : nat) (st : state) (m : nat) : option nat :=
  match nth_error (metadata st) m with
  | Some (Some _) => Some m
  | Some None =>
      match fuel with
      | S n =>
          match nth_error (protos st) m with
          | Some (Some proto) => holder n st proto
          | _ => None
          end
      | 0 => None
      end
  | None => None
  end.

Definition list_holder (st : state) (m : nat) : option nat :=
  holder (List.length (metadata st)) st m.

(** [metadata[ObservationIgnoredSymbol] ??= []]: the array that the read
    finds, on the object or up its prototype chain; when it finds none, a
    new array becomes the object's own property.  The array is answered as
    the address of the object that holds it. *)
Definition ignoredProps_of (metadata_object : option nat) : M nat :=
  fun st =>
    match metadata_object with
    | None => (Throw (TypeError "Cannot read properties of undefined"), st)
    | Some m =>
        match nth_error (metadata st) m with
        | None => (Throw (TypeError "Cannot read properties of undefined"), st)
        | Some _ =>
            match list_holder st m with
            | Some h => (Normal h, st)
            | None =>
                (Normal m, set_metadata (update_nth m (Some []) (metadata st)) st)
            end
        end
    end.

(** [ignoredProps.push(name)]. *)
Definition push (ignoredProps : nat) (name : string) : M unit :=
  modify (fun st =>
    match nth_error (metadata st) ignoredProps with
    | Some (Some l) =>
        set_metadata (update_nth ignoredProps (Some (l ++ [name])) (metadata st)) st
    | _ => st
    end).

(** [ignoredProps.includes(prop)]. *)
Definition includes (ignoredProps : nat) (prop : string) : M bool :=
  fun st =>
    match nth_error (metadata st) ignoredProps with
    | Some (Some l) => (Normal (existsb (String.eqb prop) l), st)
    | _ => (Normal false, st)
    end.

(** The context object a decorator receives. *)
Record DecoratorContext : Type := mkContext {
  kind : string;
  name : key;
  context_metadata : option nat
}.

(** [ObservationIgnored(_target, context)]. *)
Definition ObservationIgnored (context : DecoratorContext) : M unit :=
  match name context with
  | KSym _ =>
      throw (Error "@ObservationIgnored cannot be applied to symbol-named properties.")
  | KStr context_name =>
      let metadata := context_metadata context in
      let* ignoredProps := ignoredProps_of metadata in
      push ignoredProps context_name
  end.

(* ================================================================== *)
(** ** The module: the [Observable] transform *)
(* ================================================================== *)

(** A class is its constructor: given the metadata object of the class
    being instantiated ([Object.getPrototypeOf(this).constructor[Symbol.metadata]])
    and the arguments, it answers the new instance. *)
Definition class : Type := option nat -> list value -> M nat.

(** The backing cell of a property:
    [typeof initialValue.value === "object" || initialValue.value === "undefined"
       ? reactive(initialValue.value) : ref(initialValue.value)]. *)
Definition backing_cell (initialValue : value) : M value :=
  if String.eqb (typeof initialValue) "object"
     || strict_equal initialValue (VString "undefined")
  then ret (reactive initialValue)
  else ref initialValue.

(** The body of the loop over the own property names. *)
Definition wrap_property (this ignoredProps : nat) (prop : string) : M unit :=
  let* ignored := includes ignoredProps prop in
  if ignored then ret tt
  else
    let* initialValue := getOwnPropertyDescriptor_value this (KStr prop) in
    let* backingRef := Symbol ("__$$" ++ prop) in
    let* cell := backing_cell initialValue in
    defineProperty this (KSym backingRef) (value_writable cell) >>
    defineProperty this (KStr prop)
      (get_set (ObservedGet backingRef) (ObservedSet backingRef)).

(** The constructor of [class Observed extends _target]. *)
Definition Observed (_target : class) : class :=
  fun metadata args =>
    let* this := _target metadata args in
    let* ignoredProps := ignoredProps_of metadata in
    let* properties := getOwnPropertyNames this in
    for_each properties (wrap_property this ignoredProps) >>
    ret this.

(** [Observable(_target, context)]. *)
Definition Observable (_target : class) (context : DecoratorContext) : M class :=
  if negb (String.eqb (kind context) "class")
  then throw (Error "@Observable must be applied to a class.")
  else ret (Observed _target).

(* ================================================================== *)
(** ** The module: bindings *)
(* ================================================================== *)

Definition plain (ps : list (key * property)) : object := mkObject ps true.

(** A property as an object literal or a class field creates it. *)
Definition field (v : value) : property := Data v true true true.

(** [new Binding(init)]: the fields [get] and [set], then
    [this.get = init.get; this.set = init.set]. *)
Definition Binding (fuel : nat) (init : nat) : M nat :=
  let* this := alloc (plain [(KStr "get", field VUndefined); (KStr "set", field VUndefined)]) in
  let* g := Get fuel init (KStr "get") in
  Set_ fuel this (KStr "get") g >>
  let* s := Get fuel init (KStr "set") in
  Set_ fuel this (KStr "set") s >>
  ret this.

(** CreateDataPropertyOrThrow. *)
Definition CreateDataProperty (o : nat) (k : key) (v : value) : M unit :=
  let* ok := define_own o k (data_property v) in
  if ok then ret tt else throw (TypeError "Cannot define property").

(** The steps of [Array.prototype.map] that fill the new array. *)
Fixpoint map_from (A : nat) (i : nat) (xs : list string)
    (callbackfn : string -> M value) : M unit :=
  match xs with
  | [] => ret tt
  | x :: rest =>
      let* mapped := callbackfn x in
      CreateDataProperty A (KStr (index_key i)) mapped >>
      map_from A (S i) rest callbackfn
  end.

(** [xs.map(callbackfn)]: a new array object. *)
Definition Array_map (xs : list string) (callbackfn : string -> M value) : M nat :=
  let* A := alloc (plain [(KStr "length",
                            Data (VNumber (Z.of_nat (List.length xs))) true false false)]) in
  map_from A 0 xs callbackfn >>
  ret A.

(** The copy of one own key by [Object.assign]. *)
Definition assign_key (fuel : nat) (to from : nat) (nextKey : key) : M unit :=
  fun st =>
    match get_own st from nextKey with
    | Some desc =>
        if prop_enumerable desc
        then (let* propValue := Get fuel from nextKey in
              Set_ fuel to nextKey propValue) st
        else (Normal tt, st)
    | None => (Normal tt, st)
    end.

Definition own_keys_of (o : nat) : M (list key) :=
  fun st =>
    match nth_error (heap st) o with
    | Some ob => (Normal (own_keys ob), st)
    | None => (Throw (TypeError "not an object"), st)
    end.

(** [Object.assign(target, ...sources)] for object sources. *)
Definition Object_assign (fuel : nat) (target : nat) (sources : list nat) : M nat :=
  for_each sources (fun from =>
    let* keys := own_keys_of from in
    for_each keys (assign_key fuel target from)) >>
  ret target.

(** The arrow function mapped over the property names:
    [key => ({ [`$${key}`]: new Binding({ get() {...}, set(v) {...} }) })]. *)
Definition binding_entry (fuel : nat) (observable : nat) (key : string) : M value :=
  let* entry := alloc (plain []) in
  let* init := alloc (plain [(KStr "get", field (VFunction (BindingGet observable key)));
                             (KStr "set", field (VFunction (BindingSet observable key)))]) in
  let* binding := Binding fuel init in
  CreateDataProperty entry (KStr ("$" ++ key)) (VObject binding) >>
  ret (VObject entry).

(** [bindable(observable)]: the array that [map] returns is passed to
    [Object.assign] as its one source. *)
Definition bindable (fuel : nat) (observable : nat) : M nat :=
  let* names := getOwnPropertyNames observable in
  let* entries := Array_map names (binding_entry fuel observable) in
  Object_assign fuel observable [entries].

(* ================================================================== *)
(** ** The module: tracking *)
(* ================================================================== *)

(** [ignoringObservation(nonReactiveReadsFunc)]. *)
Definition ignoringObservation (nonReactiveReadsFunc : M value) : M value :=
  pauseTracking >>
  let* value := nonReactiveReadsFunc in
  resetTracking >>
  ret value.

(** The arrow function handed to [effect]:
    [() => { if (onChange) ignoringObservation(onChange); return apply() }]. *)
Definition tracked (apply : M value) (onChange : option (M value)) : M value :=
  match onChange with
  | Some f => ignoringObservation f >> ret tt
  | None => ret tt
  end >>
  apply.

(** [withObservationTracking(apply, onChange)]. *)
Definition withObservationTracking (apply : M value) (onChange : option (M value)) : M unit :=
  effect (tracked apply onChange) >> ret tt.

(* ================================================================== *)
(** ** Closures of the caller *)
(* ================================================================== *)

(** The bodies of the functions a caller passes in: they return or throw,
    read and write ref cells and properties of objects, call
    [ignoringObservation] and [withObservationTracking] on functions of the
    same kind, and catch exceptions ([try { body } catch (e) { handler }]).
    The functions called are named, for the trace. *)
Inductive code : Type :=
| Return (v : value)
| Raise (t : thrown)
| ReadRef (c : nat) (k : value -> code)
| WriteRef (c : nat) (v : value) (k : code)
| ReadProp (o : nat) (p : string) (k : value -> code)
| WriteProp (o : nat) (p : string) (v : value) (k : code)
| Ignoring (f : string) (fn : code) (k : value -> code)
| Tracking (fa : string) (apply : code) (k : code)
| TrackingOnChange (fa : string) (apply : code) (fo : string) (onChange : code) (k : code)
| TryCatch (body : code) (handler : thrown -> code) (k : value -> code).

(** A call of the function named [f]: the trace records entry and normal
    exit. *)
Definition called (f : string) (body : M value) : M value :=
  modify (log (EvEnter f)) >>
  let* v := body in
  modify (log (EvLeave f)) >>
  ret v.

Fixpoint exec (fuel : nat) (c : code) : M value :=
  match c with
  | Return v => ret v
  | Raise t => throw t
  | ReadRef c k => let* v := ref_get (VRef c) in exec fuel (k v)
  | WriteRef c v k => ref_set (VRef c) v >> exec fuel k
  | ReadProp o p k => let* v := Get fuel o (KStr p) in exec fuel (k v)
  | WriteProp o p v k => Set_ fuel o (KStr p) v >> exec fuel k
  | Ignoring f fn k =>
      let* v := ignoringObservation (called f (exec fuel fn)) in exec fuel (k v)
  | Tracking fa apply k =>
      withObservationTracking (called fa (exec fuel apply)) None >> exec fuel k
  | TrackingOnChange fa apply fo onChange k =>
      withObservationTracking (called fa (exec fuel apply))
        (Some (called fo (exec fuel onChange))) >>
      exec fuel k
  | TryCatch body handler k =>
      let* v := try_catch (exec fuel body) (fun t => exec fuel (handler t)) in
      exec fuel (k v)
  end.

(** A named function of the caller. *)
Record closure : Type := mkClosure {
  closure_name : string;
  closure_body : code
}.

Definition invoke (fuel : nat) (f : closure) : M value :=
  called (closure_name f) (exec fuel (closure_body f)).

(* ================================================================== *)
(** ** Vocabulary of the statements *)
(* ================================================================== *)

(** A computation preserves a relation between the state it starts in and
    the state it ends in, whatever its outcome. *)
Definition preserves (R : state -> state -> Prop) {A} (c : M A) : Prop :=
  forall st r st', c st = (r, st') -> R st st'.

(** The cells effect [e] depends on. *)
Definition deps_of (e : nat) (st : state) : list nat :=
  map snd (filter (fun d => Nat.eqb (fst d) e) (deps st)).

(** No read can become a dependency of effect [e]: recording is paused, or
    another effect (or none) is running. *)
Definition untracked (e : nat) (st : state) : Prop :=
  shouldTrack st = false \/ activeEffect st <> Some e.

(** What property access leaves alone in the engine. *)
Definition control (st st' : state) : Prop :=
  shouldTrack st' = shouldTrack st
  /\ trackStack st' = trackStack st
  /\ activeEffect st' = activeEffect st
  /\ effects st' = effects st
  /\ trace st' = trace st
  /\ (forall e, untracked e st -> deps_of e st' = deps_of e st).



(** The state in which the body of [onChange] starts, in a run of effect
    [e] that starts in [st]: the run has begun, tracking has been paused and
    the function named [fo] entered. *)
Definition onChange_entry (e : nat) (fo : string) (st : state) : state :=
  log (EvEnter fo) (paused (started e st)).

(** The state in which the body of [apply] starts, when the body of
    [onChange] has returned in [st_out]. *)
Definition apply_entry (fa fo : string) (st_out : state) : state :=
  log (EvEnter fa) (resumed (log (EvLeave fo) st_out)).

(** The effect body built by [withObservationTracking]. *)
Definition tracked_body (fuel : nat) (apply onChange : closure) : M value :=
  tracked (invoke fuel apply) (Some (invoke fuel onChange)).


(** The state in which property [k] of object [o] is [p]. *)
Definition with_prop (o : nat) (k : key) (p : property) (st : state) : state :=
  match nth_error (heap st) o with
  | Some ob =>
      set_heap (update_nth o (mkObject (store_prop (props ob) k p) (extensible ob))
                  (heap st)) st
  | None => st
  end.

(** The [[Extensible]] flag of the object at [o]. *)
Definition extensible_at (st : state) (o : nat) : bool :=
  match nth_error (heap st) o with
  | Some ob => extensible ob
  | None => false
  end.

(** Whether the ignore list [ignoredProps] includes [prop]. *)
Definition listed (st : state) (ignoredProps : nat) (prop : string) : bool :=
  match nth_error (metadata st) ignoredProps with
  | Some (Some l) => existsb (String.eqb prop) l
  | _ => false
  end.

(** The ignore list that the metadata object [m] gives: the one it holds
    or inherits, or its own, still to be made. *)
Definition list_of (st : state) (m : nat) : nat :=
  match list_holder st m with
  | Some h => h
  | None => m
  end.

(** Whether [prop] is on the ignore list that the metadata object [m] holds
    or inherits. *)
Definition ignores (st : state) (m : nat) (prop : string) : bool :=
  match list_holder st m with
  | Some h => listed st h prop
  | None => false
  end.

(** Property [prop] of [this] is an accessor pair over the hidden slot
    [backingRef], which holds [cell]. *)
Definition backed (st : state) (this : nat) (prop : string)
    (backingRef : nat) (cell : value) : Prop :=
  (exists e c,
      get_own st this (KStr prop)
      = Some (Accessor (Some (ObservedGet backingRef)) (Some (ObservedSet backingRef)) e c))
  /\ get_own st this (KSym backingRef) = Some (Data cell true false false)
  /\ nth_error (symbols st) backingRef = Some ("__$$" ++ prop)%string.

(** No object has a property keyed by a symbol that does not exist yet. *)
Definition fresh_symbols (st : state) : Prop :=
  forall o n, List.length (symbols st) <= n -> get_own st o (KSym n) = None.

(** No two properties of the object at [o] share a key. *)
Definition distinct_keys (st : state) (o : nat) : Prop :=
  forall ob, nth_error (heap st) o = Some ob -> NoDup (map fst (props ob)).

(** From [st] to [st'], symbols and cells were only added, the ignore
    lists are the same, and the only properties that differ are, on [this],
    those named in [names] and those keyed by an added symbol. *)
Definition changes_only (this : nat) (names : list string) (st st' : state) : Prop :=
  (exists ds, symbols st' = symbols st ++ ds)
  /\ (exists cs, cells st' = cells st ++ cs)
  /\ metadata st' = metadata st
  /\ (forall o k,
        get_own st' o k = get_own st o k
        \/ (o = this
            /\ ((exists q, k = KStr q /\ In q names)
                \/ (exists n, k = KSym n
                              /\ List.length (symbols st) <= n < List.length (symbols st'))))).

(** [cell] is the backing cell the wrapping pass makes for the value [v]:
    the reactive wrapper of [v] on the [reactive] branch, a ref cell that
    holds [v] on the [ref] branch. *)
Definition cell_for (st : state) (v : value) (cell : value) : Prop :=
  if String.eqb (typeof v) "object" || strict_equal v (VString "undefined")
  then cell = reactive v
  else exists c, cell = VRef c /\ nth_error (cells st) c = Some (toRaw v).


(** The state after [metadata[ObservationIgnoredSymbol] ??= []] on the
    metadata object [m]. *)
Definition with_ignore_list (m : nat) (st : state) : state :=
  match nth_error (metadata st) m, list_holder st m with
  | Some _, None => set_metadata (update_nth m (Some []) (metadata st)) st
  | _, _ => st
  end.

(** A getter or setter slot that is empty or holds one of the closures of
    the [Observed] constructor. *)
Definition observed_func (f : option func) : Prop :=
  match f with
  | None | Some (ObservedGet _) | Some (ObservedSet _) => True
  | Some (BindingGet _ _) | Some (BindingSet _ _) => False
  end.

(** The only accessor properties in the heap are those the [Observed]
    constructor installs. *)
Definition only_observed_accessors (st : state) : Prop :=
  forall o k g s e c,
    get_own st o k = Some (Accessor g s e c) -> observed_func g /\ observed_func s.

(** From [st] to [st'], in a heap of at least [n1] objects whose accessors
    are those of the [Observed] constructor: the heap only grows, its
    accessors stay of that kind, and no object among the first [n1] gets,
    loses or changes a property named [k0]. *)
Definition guarded (n1 : nat) (k0 : string) (st st' : state) : Prop :=
  only_observed_accessors st ->
  n1 <= List.length (heap st) ->
  only_observed_accessors st'
  /\ List.length (heap st) <= List.length (heap st')
  /\ (forall o, o < n1 -> get_own st' o (KStr k0) = get_own st o (KStr k0)).

(* ================================================================== *)
(** ** Example programs *)
(* ================================================================== *)

(** [class Car { name = "X"; note; tag = "undefined"; owner = null; skip = 3 }],
    with [skip] on the ignore list. *)
Definition Car : class := fun _ _ =>
  alloc (plain [(KStr "name", field (VString "X"));
                (KStr "note", field VUndefined);
                (KStr "tag", field (VString "undefined"));
                (KStr "owner", field VNull);
                (KStr "skip", field (VNumber 3))]).

Definition car_metadata : state := set_metadata [Some ["skip"]] initial_state.


(** Two cells holding [1] and [2], and functions that read them. *)
Definition two_cells : state := set_cells [VNumber 1; VNumber 2] initial_state.

Definition read_first : closure :=
  mkClosure "apply" (ReadRef 0 (fun v => Return v)).

Definition read_second : closure :=
  mkClosure "onChange" (ReadRef 1 (fun v => Return v)).

Definition fails : closure := mkClosure "fn" (Raise (Error "boom")).

(** The state in which the constructor of [Car] has returned the instance,
    at address [0]. *)
Definition car_built : state := snd (Car (Some 0) [] car_metadata).

(** The state after [new Observed(Car)]. *)
Definition car_observed : state := snd (Observed Car (Some 0) [] car_metadata).


(** The state after [new Observed(Car)] and [{}]: the instance at address
    [0], an empty object at address [1]. *)
Definition car_and_object : state := snd (alloc (plain []) car_observed).

(** The object [{ name: "X" }], at address [0]. *)
Definition named : state :=
  snd (alloc (plain [(KStr "name", field (VString "X"))]) initial_state).

(** The state after [bindable] on it. *)
Definition named_bound : state := snd (bindable 2 0 named).

(** The state after [bindable] on the instance of the observed [Car]. *)
Definition car_bound : state := snd (bindable 2 0 car_observed).

(* ================================================================== *)
(** ** The module: [Atom] *)
(* ================================================================== *)

(** The constructor of [class Atom], before decoration:
    [constructor(initialValue) { this.value = initialValue }].  The field
    declaration [value: Value] has no initialiser: whether or not it defines
    the property first, the assignment leaves the same object. *)
Definition Atom_constructor : class :=
  fun _ args =>
    let initialValue := nth 0 args VUndefined in
    let* this := alloc (plain []) in
    Set_ 0 this (KStr "value") initialValue >>
    ret this.

(** [@Observable class Atom]. *)
Definition Atom : class := Observed Atom_constructor.

(* ================================================================== *)
(** ** More vocabulary and example programs *)
(* ================================================================== *)

(** The own property names of the object at [o], if there is one. *)
Definition names_at (st : state) (o : nat) : option (list string) :=
  option_map own_names (nth_error (heap st) o).

(** The function [() => this.prop] of a caller. *)
Definition reads (this : nat) (prop : string) : closure :=
  mkClosure "apply" (ReadProp this prop (fun v => Return v)).

(** A store with one metadata object, without an ignore list yet. *)
Definition one_class : state := set_metadata [None] initial_state.

(** The metadata objects of [class Base { @ObservationIgnored secret }] and
    of [class Child extends Base], before a member of [Child] is marked: the
    second inherits from the first and has no list of its own. *)
Definition parent_and_child : state :=
  set_protos [None; Some 0] (set_metadata [Some ["secret"]; None] initial_state).


(** [class Pinned] whose constructor defines [name] with
    [Object.defineProperty(this, "name", { value: "X", writable: true })]. *)
Definition Pinned : class := fun _ _ =>
  alloc (plain [(KStr "name", Data (VString "X") true false false)]).

(** Nothing of the engine's bookkeeping differs between two states: the
    recorded dependencies, the scheduled effects, the effects created, the
    running effect, the tracking setting and its stack, and the trace. *)
Definition silent (st st' : state) : Prop :=
  deps st' = deps st
  /\ trigger_queue st' = trigger_queue st
  /\ effects st' = effects st
  /\ activeEffect st' = activeEffect st
  /\ shouldTrack st' = shouldTrack st
  /\ trackStack st' = trackStack st
  /\ trace st' = trace st.

(** The state after [withObservationTracking(read_first, read_second)] on
    the two cells. *)
Definition cells_tracked : state :=
  snd (withObservationTracking (invoke 0 read_first) (Some (invoke 0 read_second))
         two_cells).

(** The object at [entry] is the one-entry object that [bindable] builds
    for [key]: its property [$key] holds the [Binding] at [entry + 2], whose
    [get] and [set] are the closures over [observable] and [key]. *)
Definition binding_at (st : state) (entry observable : nat) (key : string) : Prop :=
  get_own st entry (KStr ("$" ++ key)) = Some (field (VObject (S (S entry))))
  /\ get_own st (S (S entry)) (KStr "get")
     = Some (field (VFunction (BindingGet observable key)))
  /\ get_own st (S (S entry)) (KStr "set")
     = Some (field (VFunction (BindingSet observable key))).

(** The address of the entry that [bindable] builds for the name of index
    [j], when the array of the entries is at [A]. *)
Definition entry_of (A j : nat) : nat := S A + 3 * j.


(** The functions that only read: ref cells, properties, under nested
    calls of [ignoringObservation] or not, catching exceptions or not; they
    write nothing and start no tracking. *)
Fixpoint reads_only (c : code) : Prop :=
  match c with
  | Return _ | Raise _ => True
  | ReadRef _ k => forall v, reads_only (k v)
  | ReadProp _ _ k => forall v, reads_only (k v)
  | Ignoring _ fn k => reads_only fn /\ forall v, reads_only (k v)
  | TryCatch body handler k =>
      reads_only body /\ (forall t, reads_only (handler t))
      /\ forall v, reads_only (k v)
  | WriteRef _ _ _ | WriteProp _ _ _ _ | Tracking _ _ _
  | TrackingOnChange _ _ _ _ _ => False
  end.

(** The trace only grows. *)
Definition grows (st st' : state) : Prop := exists t, trace st' = trace st ++ t.

(** What a function that only reads does to a state in which tracking is
    paused: tracking stays paused, the pauses it has left behind, all made
    while paused, are on top of the stack, and no effect has another
    dependency, or one less. *)
Definition stays_paused (st st' : state) : Prop :=
  shouldTrack st' = false
  /\ (exists n, trackStack st' = repeat false n ++ trackStack st)
  /\ activeEffect st' = activeEffect st
  /\ effects st' = effects st
  /\ forall e, deps_of e st' = deps_of e st.


(** A function that catches the exception of a nested
    [ignoringObservation]. *)
Definition catches_a_pause : closure :=
  mkClosure "fn"
    (TryCatch (Ignoring "inner" (Raise (Error "boom")) (fun v => Return v))
       (fun _ => Return VUndefined)
       (fun v => Return v)).
(* ================================================================== *)
(** * Properties *)
(* ================================================================== *)

(** ** Sanity checks on concrete programs *)

(** Closed goals about the example programs are settled by evaluation. *)
Ltac run := vm_compute; reflexivity.
Ltac runs := repeat match goal with |- _ /\ _ => split end; try run.

Example Observed_Car_heap :
  option_map props (nth_error (heap (snd (Observed Car (Some 0) [] car_metadata))) 0)
  = Some [(KStr "name", Accessor (Some (ObservedGet 0)) (Some (ObservedSet 0)) true true);
          (KStr "note", Accessor (Some (ObservedGet 1)) (Some (ObservedSet 1)) true true);
          (KStr "tag", Accessor (Some (ObservedGet 2)) (Some (ObservedSet 2)) true true);
          (KStr "owner", Accessor (Some (ObservedGet 3)) (Some (ObservedSet 3)) true true);
          (KStr "skip", Data (VNumber 3) true true true);
          (KSym 0, Data (VRef 0) true false false);
          (KSym 1, Data (VRef 1) true false false);
          (KSym 2, Data (VString "undefined") true false false);
          (KSym 3, Data VNull true false false)].
Proof. reflexivity. Qed.

Example own_names_order :
  own_names (plain [(KStr "b", field VNull); (KStr "10", field VNull);
                    (KStr "2", field VNull); (KStr "01", field VNull)])
  = ["2"; "10"; "b"; "01"].
Proof. reflexivity. Qed.

(** ** The decorators *)

(** C7: the ignore marker on a symbol-named member throws the module's
    error for it at once and registers nothing; the class marker on anything
    but a class throws the module's error for it at once and produces no
    class; the store is untouched in both cases. *)
Theorem decorators_reject_misuse :
  (forall k n m st,
      ObservationIgnored (mkContext k (KSym n) m) st
      = (Throw (Error "@ObservationIgnored cannot be applied to symbol-named properties."), st))
  /\ (forall _target context st,
      kind context <> "class" ->
      Observable _target context st
      = (Throw (Error "@Observable must be applied to a class."), st)).
Proof.
  split.
  - reflexivity.
  - intros _target context st Hkind. unfold Observable.
    destruct (String.eqb (kind context) "class") eqn:E.
    + apply String.eqb_eq in E. contradiction.
    + reflexivity.
Qed.

Lemma decorators_reject_misuse_witness :
  kind (mkContext "field" (KStr "x") (Some 0)) <> "class"
  /\ Observable Car (mkContext "field" (KStr "x") (Some 0)) car_metadata
     = (Throw (Error "@Observable must be applied to a class."), car_metadata).
Proof.
  split.
  - discriminate.
  - apply (proj2 decorators_reject_misuse). discriminate.
Defined.

(** ** Reasoning about computations *)

Lemma bind_Normal {A B} (c : M A) (k : A -> M B) st a st1 :
  c st = (Normal a, st1) -> bind c k st = k a st1.
Proof. intros H. unfold bind. rewrite H. reflexivity. Qed.


Lemma bind_modify {B} f (k : unit -> M B) st :
  bind (modify f) k st = k tt (f st).
Proof. reflexivity. Qed.

Lemma bind_inv {A B} (c : M A) (k : A -> M B) st r st' :
  bind c k st = (r, st') ->
  (exists a st1, c st = (Normal a, st1) /\ k a st1 = (r, st'))
  \/ (exists t, c st = (Throw t, st') /\ r = Throw t)
  \/ (c st = (OutOfFuel, st') /\ r = OutOfFuel).
Proof.
  unfold bind. destruct (c st) as [[a | t |] st1]; intros H.
  - left. eauto.
  - inversion H; subst. right; left. eauto.
  - inversion H; subst. right; right. auto.
Qed.

Section Preservation.
Variable R : state -> state -> Prop.
Hypothesis R_refl : forall st, R st st.
Hypothesis R_trans : forall a b c, R a b -> R b c -> R a c.

Lemma preserves_ret {A} (a : A) : preserves R (ret a).
Proof. intros st r st' H. inversion H; subst. apply R_refl. Qed.

Lemma preserves_throw {A} t : preserves R (@throw A t).
Proof. intros st r st' H. inversion H; subst. apply R_refl. Qed.

Lemma preserves_out_of_fuel {A} : preserves R (@out_of_fuel A).
Proof. intros st r st' H. inversion H; subst. apply R_refl. Qed.

Lemma preserves_bind {A B} (c : M A) (k : A -> M B) :
  preserves R c -> (forall a, preserves R (k a)) -> preserves R (bind c k).
Proof.
  intros Hc Hk st r st' H.
  destruct (bind_inv _ _ _ H) as [(a & st1 & H1 & H2) | [(t & H1 & _) | (H1 & _)]].
  - eapply R_trans; [eapply Hc | eapply Hk]; eauto.
  - eapply Hc; eauto.
  - eapply Hc; eauto.
Qed.



Lemma preserves_if {A} (b : bool) (c1 c2 : M A) :
  preserves R c1 -> preserves R c2 -> preserves R (if b then c1 else c2).
Proof. destruct b; auto. Qed.

(** Property access preserves what the engine's cell operations and the
    heap update preserve. *)
Hypothesis R_heap : forall st h, R st (set_heap h st).
Hypothesis R_track : forall c, preserves R (track c).
Hypothesis R_cells : forall st cs, R st (set_cells cs st).
Hypothesis R_trigger : forall c, preserves R (trigger c).

Lemma preserves_define_own o k d : preserves R (define_own o k d).
Proof.
  intros st r st' H. unfold define_own in H.
  destruct (nth_error (heap st) o) as [ob |].
  - destruct (validate_and_apply _ _ _); inversion H; subst; auto.
  - inversion H; subst; auto.
Qed.

Lemma preserves_ref_get r : preserves R (ref_get r).
Proof.
  destruct r; try apply preserves_ret.
  simpl. apply preserves_bind; [apply R_track |].
  intros _ st r st' H. inversion H; subst. apply R_refl.
Qed.

Lemma preserves_ref_set r v : preserves R (ref_set r v).
Proof.
  destruct r; try apply preserves_ret.
  intros st r st' H. simpl in H.
  destruct (strict_equal _ _).
  - inversion H; subst. apply R_refl.
  - eapply R_trans; [apply R_cells | eapply R_trigger; eauto].
Qed.

Lemma preserves_Get_with call o k :
  (forall f this args, preserves R (call f this args)) ->
  preserves R (Get_with call o k).
Proof.
  intros Hcall st r st' H. unfold Get_with in H.
  destruct (nth_error (heap st) o) as [ob |]; [| inversion H; subst; auto].
  destruct (lookup_prop (props ob) k) as [[v w e c | [g |] s e c] |];
    try (inversion H; subst; auto; fail).
  eapply Hcall; eauto.
Qed.

Lemma preserves_Set_with call o k v :
  (forall f this args, preserves R (call f this args)) ->
  preserves R (Set_with call o k v).
Proof.
  intros Hcall st r st' H. unfold Set_with in H.
  destruct (nth_error (heap st) o) as [ob |]; [| inversion H; subst; auto].
  destruct (lookup_prop (props ob) k) as [[v0 w e c | g [s |] e c] |].
  - destruct w; [| inversion H; subst; auto].
    revert H. apply preserves_bind; [apply preserves_define_own |].
    intros ok. apply preserves_if; [apply preserves_ret | apply preserves_throw].
  - revert H. apply preserves_bind; [apply Hcall |]. intros _. apply preserves_ret.
  - inversion H; subst; auto.
  - revert H. apply preserves_bind; [apply preserves_define_own |].
    intros ok. apply preserves_if; [apply preserves_ret | apply preserves_throw].
Qed.

Lemma preserves_Call fuel : forall f this args, preserves R (Call fuel f this args).
Proof.
  induction fuel as [| n IH]; intros f this args; simpl.
  - apply preserves_out_of_fuel.
  - destruct f; simpl.
    + unfold Observed_get. apply preserves_bind.
      * apply preserves_Get_with. exact IH.
      * intros inst. apply preserves_if; [apply preserves_ref_get | apply preserves_ret].
    + unfold Observed_set. apply preserves_bind.
      * apply preserves_Get_with. exact IH.
      * intros inst. apply preserves_bind; [| intros _; apply preserves_ret].
        apply preserves_if; [apply preserves_ref_set |].
        apply preserves_Set_with. exact IH.
    + unfold Binding_get. apply preserves_Get_with. exact IH.
    + unfold Binding_set. apply preserves_bind; [| intros _; apply preserves_ret].
      apply preserves_Set_with. exact IH.
Qed.

Lemma preserves_Get fuel o k : preserves R (Get fuel o k).
Proof. apply preserves_Get_with. apply preserves_Call. Qed.

Lemma preserves_Set fuel o k v : preserves R (Set_ fuel o k v).
Proof. apply preserves_Set_with. apply preserves_Call. Qed.
End Preservation.

(** ** What property access leaves alone in the engine *)

Lemma untracked_control e st st' :
  control st st' -> untracked e st -> untracked e st'.
Proof.
  intros (Hs & _ & Ha & _) [H | H]; [left | right]; congruence.
Qed.

Lemma control_refl st : control st st.
Proof. unfold control. repeat split; auto. Qed.

Lemma control_trans a b c : control a b -> control b c -> control a c.
Proof.
  intros Hab Hbc.
  pose proof (fun e => @untracked_control e a b Hab) as Hu.
  destruct Hab as (H1 & H2 & H3 & H4 & H5 & H6).
  destruct Hbc as (K1 & K2 & K3 & K4 & K5 & K6).
  unfold control. repeat split; try congruence.
  intros e He. rewrite K6, H6; auto.
Qed.

Lemma control_heap st h : control st (set_heap h st).
Proof. unfold control. repeat split; auto. Qed.

Lemma control_cells st cs : control st (set_cells cs st).
Proof. unfold control. repeat split; auto. Qed.

Lemma deps_of_app e st d :
  deps_of e (set_deps (deps st ++ d) st)
  = deps_of e st ++ map snd (filter (fun x => Nat.eqb (fst x) e) d).
Proof. unfold deps_of. simpl. rewrite filter_app, map_app. reflexivity. Qed.

Lemma control_track c : preserves control (track c).
Proof.
  intros st r st' H. unfold track, modify in H. inversion H; subst; clear H.
  destruct (activeEffect st) as [a |] eqn:Ha; [| apply control_refl].
  destruct (shouldTrack st) eqn:Hs; [| apply control_refl].
  destruct (existsb _ _); [apply control_refl |].
  unfold control. repeat split; auto.
  intros e [Hu | Hu]; [congruence |].
  rewrite deps_of_app. simpl.
  destruct (Nat.eqb a e) eqn:E.
  - apply Nat.eqb_eq in E. subst. congruence.
  - simpl. apply app_nil_r.
Qed.

Lemma control_trigger c : preserves control (trigger c).
Proof.
  intros st r st' H. unfold trigger, modify in H. inversion H; subst.
  unfold control. repeat split; auto.
Qed.

Lemma control_Get fuel o k : preserves control (Get fuel o k).
Proof.
  apply preserves_Get; auto using control_refl, control_heap, control_cells,
    control_track, control_trigger.
  exact control_trans.
Qed.

Lemma control_Set fuel o k v : preserves control (Set_ fuel o k v).
Proof.
  apply preserves_Set; auto using control_refl, control_heap, control_cells,
    control_track, control_trigger.
  exact control_trans.
Qed.

Lemma control_ref_get r : preserves control (ref_get r).
Proof.
  apply preserves_ref_get; auto using control_refl, control_track.
  exact control_trans.
Qed.

Lemma control_ref_set r v : preserves control (ref_set r v).
Proof.
  apply preserves_ref_set; auto using control_refl, control_cells, control_trigger.
  exact control_trans.
Qed.

(** ** The discipline of the caller's functions *)










(** How a call of [ignoringObservation] ends, from how the function ends
    in the paused state. *)
Lemma ignoringObservation_run (fn : M value) st :
  ignoringObservation fn st
  = match fn (paused st) with
    | (Normal v, st1) => (Normal v, resumed st1)
    | (Throw t, st1) => (Throw t, st1)
    | (OutOfFuel, st1) => (OutOfFuel, st1)
    end.
Proof.
  unfold ignoringObservation, pauseTracking. rewrite bind_modify.
  unfold bind. destruct (fn (paused st)) as [[v | t |] st1]; reflexivity.
Qed.

Lemma deps_of_resumed e st : deps_of e (resumed st) = deps_of e st.
Proof. unfold resumed. destruct (trackStack st); reflexivity. Qed.




Lemma deps_of_started e st : deps_of e (started e st) = [].
Proof.
  unfold deps_of, started, cleanup. simpl.
  induction (deps st) as [| [a c] l IH]; simpl; auto.
  destruct (Nat.eqb a e) eqn:E; simpl; [exact IH |].
  rewrite E. exact IH.
Qed.







(** ** [ignoringObservation] *)

(** C10: when the function returns a value, [ignoringObservation] returns
    that value (and the state the function left, after [resetTracking]). *)
Theorem ignoringObservation_returns_the_value (fn : M value) st v st1 :
  fn (paused st) = (Normal v, st1) ->
  ignoringObservation fn st = (Normal v, resumed st1).
Proof. intros H. rewrite ignoringObservation_run, H. reflexivity. Qed.

Lemma ignoringObservation_returns_the_value_witness :
  ignoringObservation (invoke 0 read_second) two_cells
  = (Normal (VNumber 2),
     resumed (log (EvLeave "onChange") (log (EvEnter "onChange") (paused two_cells)))).
Proof.
  apply (@ignoringObservation_returns_the_value (invoke 0 read_second) two_cells).
  reflexivity.
Defined.


(** The restriction of the amended C6 to functions that leave the stack of
    pauses as they found it is needed: a function that catches the exception
    of a nested [ignoringObservation] returns, and tracking is still paused
    after [ignoringObservation] has returned. *)
Example caught_throw_returns_paused :
  fst (ignoringObservation (invoke 0 catches_a_pause) initial_state)
  = Normal VUndefined
  /\ shouldTrack initial_state = true
  /\ shouldTrack (snd (ignoringObservation (invoke 0 catches_a_pause) initial_state))
     = false
  /\ trackStack (snd (ignoringObservation (invoke 0 catches_a_pause) initial_state))
     = [true].
Proof. repeat split. Qed.



(** ** [withObservationTracking] *)

(** One run of the effect body, step by step. *)
Lemma tracked_run fa fo (A O : M value) s :
  tracked (called fa A) (Some (called fo O)) s
  = match O (log (EvEnter fo) (paused s)) with
    | (Normal v, s1) =>
        match A (apply_entry fa fo s1) with
        | (Normal w, s2) => (Normal w, log (EvLeave fa) s2)
        | (Throw t, s2) => (Throw t, s2)
        | (OutOfFuel, s2) => (OutOfFuel, s2)
        end
    | (Throw t, s1) => (Throw t, s1)
    | (OutOfFuel, s1) => (OutOfFuel, s1)
    end.
Proof.
  unfold tracked, ignoringObservation, pauseTracking, resetTracking, called,
    apply_entry, bind, modify, ret.
  destruct (O (log (EvEnter fo) (paused s))) as [[v | t |] s1]; reflexivity.
Qed.

Lemma withObservationTracking_run (apply : M value) onChange st :
  withObservationTracking apply onChange st
  = let e := effects st in
    match run_effect e (tracked apply onChange) (set_effects (S e) st) with
    | (Normal _, st') => (Normal tt, st')
    | (Throw t, st') => (Throw t, st')
    | (OutOfFuel, st') => (OutOfFuel, st')
    end.
Proof.
  unfold withObservationTracking, effect, bind, ret. simpl.
  destruct (run_effect _ _ _) as [[v | t |] st']; reflexivity.
Qed.






Example only_apply_reads_are_dependencies :
  deps (snd (withObservationTracking (invoke 0 read_first)
               (Some (invoke 0 read_second)) two_cells))
  = [(0, 0)].
Proof. reflexivity. Qed.

Lemma trace_log ev st : trace (log ev st) = trace st ++ [ev].
Proof. reflexivity. Qed.

Lemma trace_finished st st2 : trace (finished st st2) = trace st2.
Proof. reflexivity. Qed.

Lemma trace_resumed st : trace (resumed st) = trace st ++ [EvReset].
Proof. unfold resumed. destruct (trackStack st); reflexivity. Qed.

(** ** The trace *)

Lemma grows_refl st : grows st st.
Proof. exists []. symmetry. apply app_nil_r. Qed.

Lemma grows_trans a b c : grows a b -> grows b c -> grows a c.
Proof.
  intros [t1 H1] [t2 H2]. exists (t1 ++ t2). rewrite H2, H1.
  symmetry. apply app_assoc.
Qed.

Lemma grows_of_control {A} (c : M A) : preserves control c -> preserves grows c.
Proof.
  intros Hc st r st' H. destruct (Hc st r st' H) as (_ & _ & _ & _ & Ht & _).
  exists []. rewrite Ht. symmetry. apply app_nil_r.
Qed.

Lemma grows_modify_log ev : preserves grows (modify (log ev)).
Proof. intros st r st' H. inversion H; subst. exists [ev]. reflexivity. Qed.

Lemma grows_called f (body : M value) :
  preserves grows body -> preserves grows (called f body).
Proof.
  intros Hb. unfold called.
  apply (preserves_bind grows_trans); [apply grows_modify_log |]. intros _.
  apply (preserves_bind grows_trans); [exact Hb |]. intros v.
  apply (preserves_bind grows_trans); [apply grows_modify_log |]. intros _.
  apply (@preserves_ret grows grows_refl).
Qed.

Lemma grows_ignoringObservation (fn : M value) :
  preserves grows fn -> preserves grows (ignoringObservation fn).
Proof.
  intros Hfn st r st' H. rewrite ignoringObservation_run in H.
  destruct (fn (paused st)) as [[v | t |] st1] eqn:Hrun;
    inversion H; subst; clear H;
    (apply (@grows_trans st (paused st)); [exists [EvPause]; reflexivity |]).
  - apply (@grows_trans _ st1); [exact (Hfn _ _ _ Hrun) |].
    exists [EvReset]. apply trace_resumed.
  - exact (Hfn _ _ _ Hrun).
  - exact (Hfn _ _ _ Hrun).
Qed.

Lemma grows_withObservationTracking (apply : M value) onChange :
  preserves grows apply ->
  (forall f, onChange = Some f -> preserves grows f) ->
  preserves grows (withObservationTracking apply onChange).
Proof.
  intros Ha Ho st r st' H. rewrite withObservationTracking_run in H. cbv zeta in H.
  unfold run_effect in H.
  destruct (tracked apply onChange (started (effects st) (set_effects (S (effects st)) st)))
    as [r1 st1] eqn:Hrun.
  assert (G : grows (started (effects st) (set_effects (S (effects st)) st)) st1).
  { assert (P : preserves grows (tracked apply onChange));
      [| exact (P _ _ _ Hrun)].
    unfold tracked.
    apply (preserves_bind grows_trans); [| intros _; exact Ha].
    destruct onChange as [f |]; [| apply (@preserves_ret grows grows_refl)].
    apply (preserves_bind grows_trans); [| intros _; apply (@preserves_ret grows grows_refl)].
    apply grows_ignoringObservation, Ho. reflexivity. }
  assert (G' : grows st st').
  { apply (@grows_trans st (started (effects st) (set_effects (S (effects st)) st)));
      [exists [EvRun (effects st)]; reflexivity |].
    destruct G as [t Ht]. exists t.
    destruct r1; inversion H; subst; rewrite trace_finished; exact Ht. }
  exact G'.
Qed.

Lemma grows_try_catch {A} (c : M A) handler :
  preserves grows c -> (forall t, preserves grows (handler t)) ->
  preserves grows (try_catch c handler).
Proof.
  intros Hc Hh st r st' H. unfold try_catch in H.
  destruct (c st) as [[a | t |] st1] eqn:Hrun.
  - inversion H; subst. exact (Hc _ _ _ Hrun).
  - apply (@grows_trans st st1); [exact (Hc _ _ _ Hrun) | exact (Hh _ _ _ _ H)].
  - inversion H; subst. exact (Hc _ _ _ Hrun).
Qed.

(** Whatever a function of the caller does, the trace only grows. *)
Lemma exec_grows fuel c : preserves grows (exec fuel c).
Proof.
  induction c as [v | t | c k IH | c v k IH | o p k IH | o p v k IH
                  | f fn IHfn k IH | fa ap IHap k IH | fa ap IHap fo oc IHoc k IH
                  | body IHb handler IHh k IH];
    cbn [exec].
  - apply (@preserves_ret grows grows_refl).
  - apply (@preserves_throw grows grows_refl).
  - apply (preserves_bind grows_trans); [| exact IH].
    apply grows_of_control, control_ref_get.
  - apply (preserves_bind grows_trans); [| intros _; exact IH].
    apply grows_of_control, control_ref_set.
  - apply (preserves_bind grows_trans); [| exact IH].
    apply grows_of_control, control_Get.
  - apply (preserves_bind grows_trans); [| intros _; exact IH].
    apply grows_of_control, control_Set.
  - apply (preserves_bind grows_trans); [| exact IH].
    apply grows_ignoringObservation, grows_called, IHfn.
  - apply (preserves_bind grows_trans); [| intros _; exact IH].
    apply grows_withObservationTracking.
    + apply grows_called, IHap.
    + discriminate.
  - apply (preserves_bind grows_trans); [| intros _; exact IH].
    apply grows_withObservationTracking.
    + apply grows_called, IHap.
    + intros f Hf. inversion Hf; subst. apply grows_called, IHoc.
  - apply (preserves_bind grows_trans); [| exact IH].
    apply grows_try_catch; [exact IHb | exact IHh].
Qed.


(** C9: the first run of the effect happens inside the call of
    [withObservationTracking]; in it [onChange] is the first function
    entered, once, while the new effect has no dependency yet; [apply] is
    entered only after [onChange] has returned. *)
Theorem onChange_runs_before_apply fuel apply onChange st r st' :
  withObservationTracking (invoke fuel apply) (Some (invoke fuel onChange)) st
  = (r, st') ->
  let e := effects st in
  let fa := closure_name apply in
  let fo := closure_name onChange in
  let st_in := onChange_entry e fo (set_effects (S e) st) in
  trace st_in = trace st ++ [EvRun e; EvPause; EvEnter fo]
  /\ deps_of e st_in = []
  /\ (exists t, trace st' = trace st_in ++ t)
  /\ (forall u, r = Normal u ->
      exists v st_out w st2 t_on t_ap,
        exec fuel (closure_body onChange) st_in = (Normal v, st_out)
        /\ trace st_out = trace st_in ++ t_on
        /\ exec fuel (closure_body apply) (apply_entry fa fo st_out) = (Normal w, st2)
        /\ trace st2 = trace (apply_entry fa fo st_out) ++ t_ap
        /\ trace st'
           = trace st ++ [EvRun e; EvPause; EvEnter fo] ++ t_on
             ++ [EvLeave fo; EvReset; EvEnter fa] ++ t_ap ++ [EvLeave fa]).
Proof.
  intros H e fa fo st_in.
  assert (Hin : trace st_in = trace st ++ [EvRun e; EvPause; EvEnter fo]).
  { unfold st_in, onChange_entry, paused, started. simpl.
    rewrite <- !app_assoc. reflexivity. }
  split; [exact Hin |].
  split; [apply deps_of_started |].
  rewrite withObservationTracking_run in H. cbv zeta in H. fold e in H.
  unfold run_effect, invoke in H. rewrite tracked_run in H.
  fold fa fo in H.
  change (log (EvEnter fo) (paused (started e (set_effects (S e) st))))
    with st_in in H.
  destruct (exec fuel (closure_body onChange) st_in) as [r_on st_out] eqn:Hon.
  destruct (@exec_grows fuel _ _ _ _ Hon) as (t_on & Ton).
  destruct r_on as [v | t |].
  - destruct (exec fuel (closure_body apply) (apply_entry fa fo st_out))
      as [r_ap st2] eqn:Hap.
    destruct (@exec_grows fuel _ _ _ _ Hap) as (t_ap & Tap).
    assert (Hentry : trace (apply_entry fa fo st_out)
                     = trace st_in ++ t_on ++ [EvLeave fo; EvReset; EvEnter fa]).
    { unfold apply_entry. rewrite trace_log, trace_resumed, trace_log, Ton.
      rewrite <- !app_assoc. reflexivity. }
    destruct r_ap as [w | t |]; inversion H; subst; clear H.
    + split.
      * exists (t_on ++ [EvLeave fo; EvReset; EvEnter fa] ++ t_ap ++ [EvLeave fa]).
        rewrite trace_finished, trace_log, Tap, Hentry.
        rewrite <- !app_assoc. reflexivity.
      * intros u _. exists v, st_out, w, st2, t_on, t_ap.
        repeat split; auto.
        rewrite trace_finished, trace_log, Tap, Hentry, Hin.
        rewrite <- !app_assoc. reflexivity.
    + split; [| discriminate].
      exists (t_on ++ [EvLeave fo; EvReset; EvEnter fa] ++ t_ap).
      rewrite trace_finished, Tap, Hentry. rewrite <- !app_assoc. reflexivity.
    + split; [| discriminate].
      exists (t_on ++ [EvLeave fo; EvReset; EvEnter fa] ++ t_ap).
      rewrite trace_finished, Tap, Hentry. rewrite <- !app_assoc. reflexivity.
  - inversion H; subst. split; [| discriminate]. exists t_on.
    rewrite trace_finished. exact Ton.
  - inversion H; subst. split; [| discriminate]. exists t_on.
    rewrite trace_finished. exact Ton.
Qed.

Lemma onChange_runs_before_apply_witness :
  exists t,
    trace (snd (withObservationTracking (invoke 0 read_first)
                  (Some (invoke 0 read_second)) two_cells))
    = trace (onChange_entry 0 "onChange" (set_effects 1 two_cells)) ++ t.
Proof.
  pose proof (@onChange_runs_before_apply 0 read_first read_second two_cells
                (Normal tt) _ eq_refl) as H.
  cbv zeta in H. destruct H as (_ & _ & H & _). exact H.
Defined.

Example first_run_trace :
  trace (snd (withObservationTracking (invoke 0 read_first)
                (Some (invoke 0 read_second)) two_cells))
  = [EvRun 0; EvPause; EvEnter "onChange"; EvLeave "onChange"; EvReset;
     EvEnter "apply"; EvLeave "apply"].
Proof. reflexivity. Qed.

(** ** Property tables *)

Lemma key_eqb_eq a b : key_eqb a b = true <-> a = b.
Proof.
  destruct a as [s | n], b as [t | m]; simpl; split; intros H;
    try discriminate; try (inversion H; subst).
  - apply String.eqb_eq in H. congruence.
  - apply String.eqb_refl.
  - apply Nat.eqb_eq in H. congruence.
  - apply Nat.eqb_refl.
Qed.

Lemma key_eqb_refl a : key_eqb a a = true.
Proof. apply key_eqb_eq. reflexivity. Qed.

Lemma key_eqb_neq a b : a <> b -> key_eqb a b = false.
Proof.
  intros H. destruct (key_eqb a b) eqn:E; [| reflexivity].
  apply key_eqb_eq in E. contradiction.
Qed.

Lemma func_eqb_eq f g : func_eqb f g = true -> f = g.
Proof.
  destruct f, g; simpl; intros H; try discriminate.
  - apply Nat.eqb_eq in H. congruence.
  - apply Nat.eqb_eq in H. congruence.
  - apply andb_true_iff in H. destruct H as [H1 H2].
    apply Nat.eqb_eq in H1. apply String.eqb_eq in H2. congruence.
  - apply andb_true_iff in H. destruct H as [H1 H2].
    apply Nat.eqb_eq in H1. apply String.eqb_eq in H2. congruence.
Qed.

Lemma strict_equal_eq a b : strict_equal a b = true -> a = b.
Proof.
  destruct a, b; simpl; intros H; try discriminate; try reflexivity.
  - apply Bool.eqb_prop in H. congruence.
  - apply Z.eqb_eq in H. congruence.
  - apply String.eqb_eq in H. congruence.
  - apply Nat.eqb_eq in H. congruence.
  - apply Nat.eqb_eq in H. congruence.
  - apply Nat.eqb_eq in H. congruence.
  - apply Nat.eqb_eq in H. congruence.
  - apply func_eqb_eq in H. congruence.
Qed.

Lemma lookup_store_eq ps k p : lookup_prop (store_prop ps k p) k = Some p.
Proof.
  induction ps as [| [k' q] rest IH]; simpl.
  - rewrite key_eqb_refl. reflexivity.
  - destruct (key_eqb k' k) eqn:E; simpl.
    + rewrite key_eqb_refl. reflexivity.
    + rewrite E. exact IH.
Qed.

Lemma lookup_store_neq ps k p k' :
  k' <> k -> lookup_prop (store_prop ps k p) k' = lookup_prop ps k'.
Proof.
  intros Hne. induction ps as [| [k0 q] rest IH]; simpl.
  - rewrite key_eqb_neq; auto.
  - destruct (key_eqb k0 k) eqn:E; simpl.
    + apply key_eqb_eq in E. subst k0.
      rewrite !(key_eqb_neq (a:=k) (b:=k')); auto.
    + destruct (key_eqb k0 k'); [reflexivity | exact IH].
Qed.

Lemma nth_error_update_nth_eq {A} n (x : A) l :
  n < List.length l -> nth_error (update_nth n x l) n = Some x.
Proof.
  revert n. induction l as [| y rest IH]; intros [| n] H; simpl in *; try lia.
  - reflexivity.
  - apply IH. lia.
Qed.

Lemma nth_error_update_nth_neq {A} n m (x : A) l :
  n <> m -> nth_error (update_nth n x l) m = nth_error l m.
Proof.
  revert n m. induction l as [| y rest IH]; intros [| n] [| m] H; simpl; auto.
  - contradiction.
Qed.

Lemma length_update_nth {A} n (x : A) l :
  List.length (update_nth n x l) = List.length l.
Proof.
  revert n. induction l as [| y rest IH]; intros [| n]; simpl; auto.
Qed.

Lemma nth_update_nth_eq {A} n (x d : A) l :
  n < List.length l -> nth n (update_nth n x l) d = x.
Proof.
  revert n. induction l as [| y rest IH]; intros [| n] H; simpl in *; try lia.
  - reflexivity.
  - apply IH. lia.
Qed.

Lemma get_own_with_prop_eq st o k p :
  o < List.length (heap st) -> get_own (with_prop o k p st) o k = Some p.
Proof.
  intros H. unfold with_prop, get_own.
  destruct (nth_error (heap st) o) as [ob |] eqn:Hob.
  - simpl. rewrite nth_error_update_nth_eq by exact H. simpl. apply lookup_store_eq.
  - apply nth_error_None in Hob. lia.
Qed.

Lemma get_own_with_prop_neq st o k p o' k' :
  (o', k') <> (o, k) -> get_own (with_prop o k p st) o' k' = get_own st o' k'.
Proof.
  intros Hne. unfold with_prop, get_own.
  destruct (nth_error (heap st) o) as [ob |] eqn:Hob; [| reflexivity].
  simpl. destruct (Nat.eq_dec o o') as [-> | Ho].
  - rewrite nth_error_update_nth_eq by (apply nth_error_Some; congruence).
    rewrite Hob. simpl. apply lookup_store_neq. congruence.
  - rewrite nth_error_update_nth_neq by exact Ho. reflexivity.
Qed.

Lemma with_prop_length o k p st :
  List.length (heap (with_prop o k p st)) = List.length (heap st).
Proof.
  unfold with_prop. destruct (nth_error (heap st) o); [| reflexivity].
  simpl. apply length_update_nth.
Qed.

Lemma with_prop_rest o k p st :
  symbols (with_prop o k p st) = symbols st
  /\ cells (with_prop o k p st) = cells st
  /\ metadata (with_prop o k p st) = metadata st
  /\ deps (with_prop o k p st) = deps st
  /\ trigger_queue (with_prop o k p st) = trigger_queue st.
Proof.
  unfold with_prop. destruct (nth_error (heap st) o); repeat split.
Qed.

(** How [define_own] ends. *)
Lemma define_own_inv o k d st r st' :
  define_own o k d st = (r, st') ->
  (exists p,
      r = Normal true
      /\ o < List.length (heap st)
      /\ validate_and_apply (extensible_at st o) d (get_own st o k) = Some p
      /\ st' = with_prop o k p st)
  \/ (st' = st /\ r <> Normal true).
Proof.
  unfold define_own, with_prop, get_own, extensible_at. intros H.
  destruct (nth_error (heap st) o) as [ob |] eqn:Hob.
  - destruct (validate_and_apply _ _ _) as [p |] eqn:Hv; inversion H; subst.
    + left. exists p. repeat split; auto. apply nth_error_Some. congruence.
    + right. split; [reflexivity | discriminate].
  - inversion H; subst. right. split; [reflexivity | discriminate].
Qed.

Lemma defineProperty_inv o k d st r st' :
  defineProperty o k d st = (r, st') ->
  (exists p,
      r = Normal tt
      /\ o < List.length (heap st)
      /\ validate_and_apply (extensible_at st o) d (get_own st o k) = Some p
      /\ st' = with_prop o k p st)
  \/ (st' = st /\ r <> Normal tt).
Proof.
  unfold defineProperty. intros H.
  destruct (bind_inv _ _ _ H) as [(ok & st1 & H1 & H2) | [(t & H1 & ->) | (H1 & ->)]].
  - destruct (define_own_inv _ _ _ _ H1) as [(p & Hr & Hob & Hv & ->) | [-> Hr]].
    + inversion Hr; subst. inversion H2; subst. left. exists p. auto.
    + destruct ok; [contradiction |]. inversion H2; subst.
      right. split; [reflexivity | discriminate].
  - destruct (define_own_inv _ _ _ _ H1) as [(p & Hr & _) | [-> Hr]];
      [discriminate |].
    right. split; [reflexivity | discriminate].
  - destruct (define_own_inv _ _ _ _ H1) as [(p & Hr & _) | [-> Hr]];
      [discriminate |].
    right. split; [reflexivity | discriminate].
Qed.

(** ** One step of the wrapping pass *)

Lemma get_own_same_heap st st' o k :
  heap st' = heap st -> get_own st' o k = get_own st o k.
Proof. intros H. unfold get_own. rewrite H. reflexivity. Qed.

Lemma extensible_at_same_heap st st' o :
  heap st' = heap st -> extensible_at st' o = extensible_at st o.
Proof. intros H. unfold extensible_at. rewrite H. reflexivity. Qed.

Lemma extensible_at_with_prop o k p st o' :
  extensible_at (with_prop o k p st) o' = extensible_at st o'.
Proof.
  unfold with_prop, extensible_at.
  destruct (nth_error (heap st) o) as [ob |] eqn:Hob; [| reflexivity].
  simpl. destruct (Nat.eq_dec o o') as [-> | Ho].
  - rewrite nth_error_update_nth_eq by (apply nth_error_Some; congruence).
    rewrite Hob. reflexivity.
  - rewrite nth_error_update_nth_neq by exact Ho. reflexivity.
Qed.

Lemma includes_run ign q st : includes ign q st = (Normal (listed st ign q), st).
Proof.
  unfold includes, listed.
  destruct (nth_error (metadata st) ign) as [[l |] |]; reflexivity.
Qed.

(** The backing cell is the reactive wrapper of the value when the value
    answers ["object"] to [typeof] or is the string ["undefined"]; otherwise
    it is a new ref cell holding the value. *)
Lemma backing_cell_run v st :
  backing_cell v st
  = if String.eqb (typeof v) "object" || strict_equal v (VString "undefined")
    then (Normal (reactive v), st)
    else (Normal (VRef (List.length (cells st))), set_cells (cells st ++ [toRaw v]) st).
Proof.
  unfold backing_cell, ref.
  destruct (String.eqb (typeof v) "object" || strict_equal v (VString "undefined"))
    eqn:E; [reflexivity |].
  destruct v; try reflexivity; discriminate.
Qed.

Lemma backing_cell_frame v st r st' :
  backing_cell v st = (r, st') ->
  heap st' = heap st /\ symbols st' = symbols st /\ metadata st' = metadata st
  /\ (exists cs, cells st' = cells st ++ cs)
  /\ exists cell, r = Normal cell.
Proof.
  rewrite backing_cell_run.
  destruct (_ || _); intros H; inversion H; subst; simpl; repeat split; eauto.
  exists []. symmetry. apply app_nil_r.
Qed.

Lemma wrap_property_cases this ign q st r st' :
  wrap_property this ign q st = (r, st') ->
  let s := List.length (symbols st) in
  (listed st ign q = true /\ r = Normal tt /\ st' = st)
  \/ (listed st ign q = false /\ get_own st this (KStr q) = None
      /\ st' = st /\ r <> Normal tt)
  \/ (exists p cell st_c,
        listed st ign q = false
        /\ get_own st this (KStr q) = Some p
        /\ backing_cell (descriptor_value p)
             (set_symbols (symbols st ++ [("__$$" ++ q)%string]) st)
           = (Normal cell, st_c)
        /\ ((st' = st_c /\ r <> Normal tt)
            \/ exists p1,
                this < List.length (heap st)
                /\ validate_and_apply (extensible_at st this) (value_writable cell)
                     (get_own st this (KSym s)) = Some p1
                /\ ((st' = with_prop this (KSym s) p1 st_c /\ r <> Normal tt)
                    \/ exists p2,
                        validate_and_apply (extensible_at st this)
                          (get_set (ObservedGet s) (ObservedSet s)) (Some p) = Some p2
                        /\ r = Normal tt
                        /\ st' = with_prop this (KStr q) p2
                                   (with_prop this (KSym s) p1 st_c)))).
Proof.
  intros H s. unfold wrap_property in H.
  rewrite (bind_Normal _ _ _ (includes_run ign q st)) in H.
  destruct (listed st ign q) eqn:Hign.
  { inversion H; subst. left. auto. }
  right.
  destruct (get_own st this (KStr q)) as [p |] eqn:Hp.
  2:{ left. unfold bind, getOwnPropertyDescriptor_value in H. rewrite Hp in H.
      inversion H; subst. repeat split; auto. discriminate. }
  right.
  assert (Hd : getOwnPropertyDescriptor_value this (KStr q) st
               = (Normal (descriptor_value p), st)).
  { unfold getOwnPropertyDescriptor_value. rewrite Hp. reflexivity. }
  rewrite (bind_Normal _ _ _ Hd) in H. clear Hd.
  assert (Hs : Symbol ("__$$" ++ q) st
               = (Normal s, set_symbols (symbols st ++ [("__$$" ++ q)%string]) st))
    by reflexivity.
  rewrite (bind_Normal _ _ _ Hs) in H. clear Hs.
  set (st_s := set_symbols (symbols st ++ [("__$$" ++ q)%string]) st) in *.
  destruct (backing_cell (descriptor_value p) st_s) as [rc st_c] eqn:Hc.
  destruct (backing_cell_frame _ _ Hc) as (Hheap & _ & _ & _ & cell & ->).
  rewrite (bind_Normal _ _ _ Hc) in H.
  exists p, cell, st_c. split; [reflexivity |]. split; [reflexivity |].
  split; [exact Hc |].
  assert (Hheap' : heap st_c = heap st) by (rewrite Hheap; reflexivity).
  destruct (bind_inv _ _ _ H) as [([] & st1 & H1 & H2) | [(t & H1 & ->) | (H1 & ->)]].
  - right.
    destruct (defineProperty_inv _ _ _ _ H1) as [(p1 & _ & Hlt & Hv & ->) | [_ Hr]];
      [| contradiction].
    rewrite (@get_own_same_heap st st_c _ _ Hheap'),
      (@extensible_at_same_heap st st_c _ Hheap'), Hheap' in *.
    exists p1. split; [exact Hlt |]. split; [exact Hv |].
    destruct (defineProperty_inv _ _ _ _ H2) as [(p2 & -> & _ & Hv2 & ->) | [-> Hr]].
    + right. exists p2.
      rewrite get_own_with_prop_neq in Hv2 by discriminate.
      rewrite extensible_at_with_prop in Hv2.
      rewrite (@get_own_same_heap st st_c _ _ Hheap'),
        (@extensible_at_same_heap st st_c _ Hheap'), Hp in Hv2.
      auto.
    + left. auto.
  - destruct (defineProperty_inv _ _ _ _ H1) as [(p1 & Hr & _) | [-> Hr]];
      [discriminate |].
    left. split; [reflexivity | discriminate].
  - destruct (defineProperty_inv _ _ _ _ H1) as [(p1 & Hr & _) | [-> Hr]];
      [discriminate |].
    left. split; [reflexivity | discriminate].
Qed.

(** ** The frame of the wrapping pass *)

Lemma changes_only_refl this names st : changes_only this names st st.
Proof.
  unfold changes_only. repeat split; auto.
  - exists []. symmetry. apply app_nil_r.
  - exists []. symmetry. apply app_nil_r.
Qed.

Lemma changes_only_trans this names a b c :
  changes_only this names a b -> changes_only this names b c ->
  changes_only this names a c.
Proof.
  intros ([ds1 S1] & [cs1 C1] & M1 & F1) ([ds2 S2] & [cs2 C2] & M2 & F2).
  unfold changes_only. repeat split.
  - exists (ds1 ++ ds2). rewrite S2, S1. symmetry. apply app_assoc.
  - exists (cs1 ++ cs2). rewrite C2, C1. symmetry. apply app_assoc.
  - congruence.
  - intros o k.
    assert (L1 : List.length (symbols a) <= List.length (symbols b))
      by (rewrite S1, length_app; lia).
    assert (L2 : List.length (symbols b) <= List.length (symbols c))
      by (rewrite S2, length_app; lia).
    destruct (F2 o k) as [E2 | (-> & [Hq | (n & -> & Hn)])].
    + destruct (F1 o k) as [E1 | (-> & [Hq | (n & -> & Hn)])].
      * left. congruence.
      * right. auto.
      * right. split; [reflexivity |]. right. exists n. split; [reflexivity | lia].
    + right. auto.
    + right. split; [reflexivity |]. right. exists n. split; [reflexivity | lia].
Qed.

Lemma changes_only_same_heap this names st st' ds cs :
  heap st' = heap st ->
  symbols st' = symbols st ++ ds ->
  cells st' = cells st ++ cs ->
  metadata st' = metadata st ->
  changes_only this names st st'.
Proof.
  intros Hh Hs Hc Hm. unfold changes_only. repeat split; eauto.
  intros o k. left. apply get_own_same_heap. exact Hh.
Qed.

Lemma changes_only_with_prop this names st st1 k p :
  changes_only this names st st1 ->
  ((exists q, k = KStr q /\ In q names)
   \/ (exists n, k = KSym n
                 /\ List.length (symbols st) <= n < List.length (symbols st1))) ->
  changes_only this names st (with_prop this k p st1).
Proof.
  intros (S1 & C1 & M1 & F1) Hk.
  destruct (with_prop_rest this k p st1) as (Ws & Wc & Wm & _).
  unfold changes_only. rewrite Ws, Wc, Wm. repeat split; auto.
  intros o k'.
  destruct (Nat.eq_dec o this) as [-> | Ho].
  - destruct (key_eqb k' k) eqn:E.
    + apply key_eqb_eq in E. subst k'. right. auto.
    + rewrite get_own_with_prop_neq.
      * apply F1.
      * intros Heq. inversion Heq; subst. rewrite key_eqb_refl in E. discriminate.
  - rewrite get_own_with_prop_neq by congruence. apply F1.
Qed.

Lemma ignores_same_metadata st st' ign q :
  metadata st' = metadata st -> listed st' ign q = listed st ign q.
Proof. intros H. unfold listed. rewrite H. reflexivity. Qed.

(** A step of the pass changes the property it wraps and the slot it
    creates, and nothing when the property is ignored. *)
Lemma wrap_property_changes this ign q names st r st' :
  wrap_property this ign q st = (r, st') ->
  (listed st ign q = false -> In q names) ->
  changes_only this names st st'.
Proof.
  intros H Hin.
  destruct (wrap_property_cases _ _ _ _ H)
    as [(_ & _ & ->) | [(_ & _ & -> & _) | (p & cell & st_c & Hi & Hp & Hc & Hrest)]];
    try apply changes_only_refl.
  destruct (backing_cell_frame _ _ Hc) as (Hh & Hs & Hm & [cs Hcs] & _).
  simpl in Hh, Hs, Hm, Hcs.
  assert (Hbase : changes_only this names st st_c).
  { eapply changes_only_same_heap; eauto. }
  assert (Hlen : List.length (symbols st) <= List.length (symbols st)
                 < List.length (symbols st_c)).
  { rewrite Hs, length_app. simpl. lia. }
  assert (Hslot : forall p1,
             changes_only this names st
               (with_prop this (KSym (List.length (symbols st))) p1 st_c)).
  { intros p1. apply changes_only_with_prop; [exact Hbase |]. right. eauto. }
  destruct Hrest as [(-> & _) | (p1 & _ & _ & [(-> & _) | (p2 & _ & _ & ->)])].
  - exact Hbase.
  - apply Hslot.
  - eapply changes_only_trans; [apply Hslot |].
    apply changes_only_with_prop; [apply changes_only_refl |].
    left. exists q. split; [reflexivity | auto].
Qed.

(** The whole loop changes the properties it wraps and the slots it
    creates. *)
Lemma wrapping_pass_changes this ign all names : forall st r st',
  for_each names (wrap_property this ign) st = (r, st') ->
  (forall q, In q names -> listed st ign q = false -> In q all) ->
  changes_only this all st st'.
Proof.
  induction names as [| x rest IH]; intros st r st' H Hall; simpl in H.
  - inversion H; subst. apply changes_only_refl.
  - assert (Hstep : forall r1 st1,
               wrap_property this ign x st = (r1, st1) ->
               changes_only this all st st1).
    { intros r1 st1 H1. eapply wrap_property_changes; [exact H1 |].
      intros Hi. apply Hall; [left; reflexivity | exact Hi]. }
    destruct (bind_inv _ _ _ H) as [(a & st1 & H1 & H2) | [(t & H1 & ->) | (H1 & ->)]].
    + eapply changes_only_trans; [eapply Hstep; exact H1 |].
      eapply IH; [exact H2 |].
      intros q Hq Hi. apply Hall; [right; exact Hq |].
      destruct (Hstep _ _ H1) as (_ & _ & Hm & _).
      rewrite <- (@ignores_same_metadata st st1 ign q Hm). exact Hi.
    + eapply Hstep; exact H1.
    + eapply Hstep; exact H1.
Qed.

Lemma changes_only_symbols this names st st' :
  changes_only this names st st' ->
  List.length (symbols st) <= List.length (symbols st').
Proof. intros ([ds S1] & _). rewrite S1, length_app. lia. Qed.

Lemma fresh_symbols_changes this names st st' :
  changes_only this names st st' -> fresh_symbols st -> fresh_symbols st'.
Proof.
  intros ([ds S1] & _ & _ & F) Hf o n Hn.
  assert (L : List.length (symbols st) <= List.length (symbols st'))
    by (rewrite S1, length_app; lia).
  destruct (F o (KSym n)) as [E | (_ & [(q & Hq & _) | (m & Hm & Hr)])].
  - rewrite E. apply Hf. lia.
  - discriminate.
  - inversion Hm; subst. lia.
Qed.

Lemma nth_error_prefix {A} (l ds : list A) n x :
  nth_error l n = Some x -> nth_error (l ++ ds) n = Some x.
Proof.
  intros H. rewrite nth_error_app1; [exact H |].
  apply nth_error_Some. congruence.
Qed.

Lemma cell_for_changes this names st st' v cell :
  changes_only this names st st' -> cell_for st v cell -> cell_for st' v cell.
Proof.
  intros (_ & [cs C] & _) H. unfold cell_for in *.
  destruct (_ || _); [exact H |].
  destruct H as (c & -> & Hc). exists c. split; [reflexivity |].
  rewrite C. apply nth_error_prefix. exact Hc.
Qed.

(** A backed property stays backed, by the same slot and the same cell,
    while the pass wraps other properties. *)
Lemma backed_changes this names st st' q s cell :
  changes_only this names st st' ->
  ~ In q names ->
  s < List.length (symbols st) ->
  backed st this q s cell ->
  backed st' this q s cell.
Proof.
  intros ([ds S1] & _ & _ & F) Hq Hs ((e & c & Ha) & Hslot & Hsym).
  unfold backed. repeat split.
  - exists e, c. destruct (F this (KStr q)) as [E | (_ & [(q' & Hq' & Hin) | (m & Hm & _)])].
    + congruence.
    + inversion Hq'; subst. contradiction.
    + discriminate.
  - destruct (F this (KSym s)) as [E | (_ & [(q' & Hq' & _) | (m & Hm & Hr)])].
    + congruence.
    + discriminate.
    + inversion Hm; subst. lia.
  - rewrite S1. apply nth_error_prefix. exact Hsym.
Qed.

(** ** What the wrapping pass installs *)

Lemma applied_get_set g s p :
  applied (get_set g s) p
  = Accessor (Some g) (Some s) (prop_enumerable p) (prop_configurable p).
Proof. destruct p; reflexivity. Qed.

Lemma nth_error_snoc {A} (l : list A) x : nth_error (l ++ [x]) (List.length l) = Some x.
Proof.
  rewrite nth_error_app2 by lia. rewrite Nat.sub_diag. reflexivity.
Qed.

Lemma backing_cell_cell_for v st cell st' :
  backing_cell v st = (Normal cell, st') -> cell_for st' v cell.
Proof.
  rewrite backing_cell_run. unfold cell_for.
  destruct (_ || _); intros H; inversion H; subst; [reflexivity |].
  exists (List.length (cells st)). split; [reflexivity |].
  simpl. apply nth_error_snoc.
Qed.

(** A step that wraps a property and returns leaves it backed by a slot
    under the newest symbol, which holds the cell that [backing_cell]
    answered; one symbol was added, and the cells are those [backing_cell]
    left. *)
Lemma wrap_property_installs this ign q st st' :
  wrap_property this ign q st = (Normal tt, st') ->
  listed st ign q = false ->
  fresh_symbols st ->
  exists p cell st_c,
    get_own st this (KStr q) = Some p
    /\ backing_cell (descriptor_value p)
         (set_symbols (symbols st ++ [("__$$" ++ q)%string]) st)
       = (Normal cell, st_c)
    /\ backed st' this q (List.length (symbols st)) cell
    /\ cell_for st' (descriptor_value p) cell
    /\ symbols st' = symbols st ++ [("__$$" ++ q)%string]
    /\ cells st' = cells st_c.
Proof.
  intros H Hi Hf.
  destruct (wrap_property_cases _ _ _ _ H)
    as [(Hi' & _) | [(_ & _ & _ & Hr) | (p & cell & st_c & _ & Hp & Hc & Hrest)]];
    [congruence | contradiction |].
  destruct Hrest as [(_ & Hr) | (p1 & Hlt & Hv1 & [(_ & Hr) | (p2 & Hv2 & _ & ->)])];
    try contradiction.
  destruct (backing_cell_frame _ _ Hc) as (Hh & Hs & Hm & _ & _).
  simpl in Hh, Hs, Hm.
  rewrite Hf in Hv1 by lia. simpl in Hv1.
  destruct (extensible_at st this); [| discriminate].
  inversion Hv1; subst p1; clear Hv1.
  simpl in Hv2.
  destruct (negb (prop_configurable p) && rejected _ p); [discriminate |].
  inversion Hv2; subst p2; clear Hv2. rewrite applied_get_set.
  set (s := List.length (symbols st)) in *.
  set (st1 := with_prop this (KSym s) (created (value_writable cell)) st_c).
  destruct (with_prop_rest this (KSym s) (created (value_writable cell)) st_c)
    as (S1 & C1 & _).
  fold st1 in S1, C1.
  set (acc := Accessor (Some (ObservedGet s)) (Some (ObservedSet s))
                (prop_enumerable p) (prop_configurable p)).
  destruct (with_prop_rest this (KStr q) acc st1) as (S2 & C2 & _).
  exists p, cell, st_c. split; [exact Hp |]. split; [exact Hc |].
  split; [| split; [| split]].
  - unfold backed. repeat split.
    + exists (prop_enumerable p), (prop_configurable p).
      apply get_own_with_prop_eq. unfold st1. rewrite with_prop_length, Hh. exact Hlt.
    + rewrite get_own_with_prop_neq by discriminate.
      unfold st1. apply get_own_with_prop_eq. rewrite Hh. exact Hlt.
    + rewrite S2, S1, Hs. apply nth_error_snoc.
  - pose proof (backing_cell_cell_for _ _ Hc) as Hcf.
    unfold cell_for in *. destruct (_ || _); [exact Hcf |].
    rewrite C2, C1. exact Hcf.
  - rewrite S2, S1, Hs. reflexivity.
  - rewrite C2, C1. reflexivity.
Qed.

Lemma wrap_property_backs this ign q st st' :
  wrap_property this ign q st = (Normal tt, st') ->
  listed st ign q = false ->
  fresh_symbols st ->
  exists p cell,
    get_own st this (KStr q) = Some p
    /\ backed st' this q (List.length (symbols st)) cell
    /\ cell_for st' (descriptor_value p) cell
    /\ List.length (symbols st') = S (List.length (symbols st)).
Proof.
  intros H Hi Hf.
  destruct (wrap_property_installs _ _ _ H Hi Hf)
    as (p & cell & st_c & Hp & _ & Hb & Hcf & Hs & _).
  exists p, cell. repeat split; try assumption.
  - destruct Hb as ((e & c & Ha) & _). eauto.
  - apply Hb.
  - apply Hb.
  - rewrite Hs, length_app. simpl. lia.
Qed.

Lemma for_each_Normal_inv {A} (x : A) rest body st st' :
  for_each (x :: rest) body st = (Normal tt, st') ->
  exists st1, body x st = (Normal tt, st1) /\ for_each rest body st1 = (Normal tt, st').
Proof.
  simpl. intros H.
  destruct (bind_inv _ _ _ H) as [([] & st1 & H1 & H2) | [(t & _ & Ht) | (_ & Ht)]];
    try discriminate.
  exists st1. auto.
Qed.

(** After a pass that returns, every property that was not ignored is
    backed by a slot of its own, created by the pass. *)
Lemma wrapping_pass_backs this ign names : forall st st',
  for_each names (wrap_property this ign) st = (Normal tt, st') ->
  NoDup names ->
  fresh_symbols st ->
  forall q p,
    In q names ->
    listed st ign q = false ->
    get_own st this (KStr q) = Some p ->
    exists s cell,
      List.length (symbols st) <= s < List.length (symbols st')
      /\ backed st' this q s cell
      /\ cell_for st' (descriptor_value p) cell.
Proof.
  induction names as [| x rest IH]; intros st st' H Hnd Hf q p Hq Hi Hp.
  - contradiction.
  - destruct (for_each_Normal_inv _ _ _ _ H) as (st1 & H1 & H2).
    inversion Hnd as [| ? ? Hx Hnd']; subst.
    assert (Hrest : changes_only this rest st1 st').
    { eapply wrapping_pass_changes; [exact H2 | auto]. }
    assert (Hstep : changes_only this [x] st st1).
    { eapply wrap_property_changes; [exact H1 |]. intros _. left. reflexivity. }
    pose proof (changes_only_symbols Hrest) as L2.
    pose proof (changes_only_symbols Hstep) as L1.
    destruct (string_dec q x) as [-> | Hne].
    + destruct (wrap_property_backs _ _ _ H1 Hi Hf) as (p' & cell & Hp' & Hb & Hcf & Hl).
      assert (p' = p) by congruence. subst p'.
      exists (List.length (symbols st)), cell. split; [| split].
      * lia.
      * eapply backed_changes; [exact Hrest | exact Hx | lia | exact Hb].
      * eapply cell_for_changes; [exact Hrest | exact Hcf].
    + destruct Hq as [Hq | Hq]; [congruence |].
      destruct Hstep as (Hs1 & Hc1 & Hm & F).
      assert (Hstep : changes_only this [x] st st1) by (repeat split; assumption).
      assert (Hp1 : get_own st1 this (KStr q) = Some p).
      { destruct (F this (KStr q)) as [E | (_ & [(q' & Hq' & [Hin | []]) | (m & Hm' & _)])].
        - congruence.
        - inversion Hq'; subst. congruence.
        - discriminate. }
      destruct (IH st1 st' H2 Hnd' (fresh_symbols_changes Hstep Hf) q p Hq)
        as (s & cell & Hs & Hb & Hcf); auto.
      { rewrite (@ignores_same_metadata st st1 ign q Hm). exact Hi. }
      exists s, cell. split; [lia | auto].
Qed.

(** ** Reading and writing properties *)

Lemma get_own_heap st o k p :
  get_own st o k = Some p ->
  exists ob, nth_error (heap st) o = Some ob /\ lookup_prop (props ob) k = Some p.
Proof.
  unfold get_own. destruct (nth_error (heap st) o) as [ob |]; [| discriminate].
  eauto.
Qed.

(** Reading a data property answers its value and changes nothing. *)
Lemma Get_data fuel st o k v w e c :
  get_own st o k = Some (Data v w e c) -> Get fuel o k st = (Normal v, st).
Proof.
  intros H. destruct (get_own_heap _ _ _ H) as (ob & Hob & Hl).
  unfold Get, Get_with. rewrite Hob, Hl. reflexivity.
Qed.


Lemma validate_value_only ext x v e c :
  validate_and_apply ext (value_only x) (Some (Data v true e c))
  = Some (Data x true e c).
Proof.
  unfold validate_and_apply, rejected. simpl.
  rewrite andb_false_r. reflexivity.
Qed.

(** Writing a writable data property stores the value in it and changes
    nothing else. *)
Lemma Set_data fuel st o k v e c x :
  get_own st o k = Some (Data v true e c) ->
  Set_ fuel o k x st = (Normal tt, with_prop o k (Data x true e c) st).
Proof.
  intros H. destruct (get_own_heap _ _ _ H) as (ob & Hob & Hl).
  unfold Set_, Set_with. rewrite Hob, Hl.
  unfold bind, define_own, with_prop. rewrite Hob, Hl, validate_value_only.
  reflexivity.
Qed.

(** Reading a property backed by a ref cell reads the cell. *)
Lemma Get_backed_ref fuel st this q s c :
  backed st this q s (VRef c) ->
  Get (S fuel) this (KStr q) st = ref_get (VRef c) st.
Proof.
  intros ((e & cf & Ha) & Hslot & _).
  destruct (get_own_heap _ _ _ Ha) as (ob & Hob & Hl).
  unfold Get, Get_with. rewrite Hob, Hl.
  cbn [Call func_body]. unfold Observed_get.
  fold (Get fuel). rewrite (bind_Normal _ _ _ (Get_data fuel _ _ _ Hslot)).
  reflexivity.
Qed.

(** Reading a property backed by anything else answers what the slot
    holds. *)
Lemma Get_backed_plain fuel st this q s cell :
  backed st this q s cell -> isRef cell = false ->
  Get (S fuel) this (KStr q) st = (Normal cell, st).
Proof.
  intros ((e & cf & Ha) & Hslot & _) Hr.
  destruct (get_own_heap _ _ _ Ha) as (ob & Hob & Hl).
  unfold Get, Get_with. rewrite Hob, Hl.
  cbn [Call func_body]. unfold Observed_get.
  fold (Get fuel). rewrite (bind_Normal _ _ _ (Get_data fuel _ _ _ Hslot)).
  rewrite Hr. reflexivity.
Qed.

(** Writing a property backed by a ref cell writes the cell. *)
Lemma Set_backed_ref fuel st this q s c v :
  backed st this q s (VRef c) ->
  Set_ (S fuel) this (KStr q) v st = (Normal tt, snd (ref_set (VRef c) v st)).
Proof.
  intros ((e & cf & Ha) & Hslot & _).
  destruct (get_own_heap _ _ _ Ha) as (ob & Hob & Hl).
  unfold Set_, Set_with. rewrite Hob, Hl.
  cbn [Call func_body nth]. unfold Observed_set.
  fold (Get fuel). unfold bind at 1.
  rewrite (bind_Normal _ _ _ (Get_data fuel _ _ _ Hslot)).
  cbn [isRef]. unfold bind.
  destruct (ref_set (VRef c) v st) as [r st1] eqn:Hs.
  assert (r = Normal tt).
  { simpl in Hs. destruct (strict_equal _ _); inversion Hs; reflexivity. }
  subst r. reflexivity.
Qed.

(** Writing a property backed by anything else replaces what the slot
    holds by the reactive wrapper of the value. *)
Lemma Set_backed_plain fuel st this q s cell v :
  backed st this q s cell -> isRef cell = false ->
  Set_ (S fuel) this (KStr q) v st
  = (Normal tt, with_prop this (KSym s) (Data (reactive v) true false false) st).
Proof.
  intros ((e & cf & Ha) & Hslot & _) Hr.
  destruct (get_own_heap _ _ _ Ha) as (ob & Hob & Hl).
  unfold Set_, Set_with. rewrite Hob, Hl.
  cbn [Call func_body nth]. unfold Observed_set.
  fold (Get fuel) (Set_ fuel). unfold bind at 1.
  rewrite (bind_Normal _ _ _ (Get_data fuel _ _ _ Hslot)).
  rewrite Hr. unfold bind.
  rewrite (Set_data fuel _ _ _ (reactive v) Hslot). reflexivity.
Qed.

Lemma backed_same_heap st st' this q s cell :
  heap st' = heap st -> symbols st' = symbols st ->
  backed st this q s cell -> backed st' this q s cell.
Proof.
  intros Hh Hs ((e & c & Ha) & Hslot & Hsym). unfold backed.
  rewrite !(@get_own_same_heap st st' _ _ Hh), Hs. eauto.
Qed.

Lemma ref_set_frame c v st :
  heap (snd (ref_set (VRef c) v st)) = heap st
  /\ symbols (snd (ref_set (VRef c) v st)) = symbols st
  /\ List.length (cells (snd (ref_set (VRef c) v st))) = List.length (cells st).
Proof.
  simpl. destruct (strict_equal _ _); simpl; repeat split; auto.
  apply length_update_nth.
Qed.

(** After [r.value = v] the cell holds [v], unwrapped. *)
Lemma ref_set_holds c v st :
  c < List.length (cells st) ->
  nth c (cells (snd (ref_set (VRef c) v st))) VUndefined = toRaw v.
Proof.
  intros Hc. simpl. destruct (strict_equal _ _) eqn:E; simpl.
  - symmetry. apply strict_equal_eq. exact E.
  - apply nth_update_nth_eq. exact Hc.
Qed.

Lemma backed_with_slot st this q s cell cell' :
  backed st this q s cell ->
  backed (with_prop this (KSym s) (Data cell' true false false) st) this q s cell'.
Proof.
  intros ((e & c & Ha) & Hslot & Hsym).
  destruct (get_own_heap _ _ _ Hslot) as (ob & Hob & _).
  destruct (with_prop_rest this (KSym s) (Data cell' true false false) st)
    as (Ws & _).
  unfold backed. repeat split.
  - exists e, c. rewrite get_own_with_prop_neq by discriminate. exact Ha.
  - apply get_own_with_prop_eq. apply nth_error_Some. congruence.
  - rewrite Ws. exact Hsym.
Qed.

(** ** The own property names *)

Lemma insert_index_perm x l : Permutation (insert_index x l) (x :: l).
Proof.
  induction l as [| y rest IH]; simpl.
  - apply Permutation_refl.
  - destruct (fst x <=? fst y)%N.
    + apply Permutation_refl.
    + eapply Permutation_trans; [apply perm_skip; exact IH | apply perm_swap].
Qed.

Lemma own_names_cons_str s p ps e :
  Permutation (own_names (mkObject ((KStr s, p) :: ps) e))
              (s :: own_names (mkObject ps e)).
Proof.
  unfold own_names. simpl. destruct (array_index s) as [n |].
  - change (s :: map snd (index_names ps) ++ plain_names ps)
      with (map snd ((n, s) :: index_names ps) ++ plain_names ps).
    apply Permutation_app_tail. apply Permutation_map. apply insert_index_perm.
  - apply Permutation_sym. apply Permutation_middle.
Qed.

Lemma own_names_cons_sym n p ps e :
  own_names (mkObject ((KSym n, p) :: ps) e) = own_names (mkObject ps e).
Proof. reflexivity. Qed.

Lemma In_own_names ps e q :
  In q (own_names (mkObject ps e)) <-> In (KStr q) (map fst ps).
Proof.
  induction ps as [| [[s | n] p] rest IH].
  - simpl. tauto.
  - split; intros H.
    + apply (Permutation_in _ (own_names_cons_str s p rest e)) in H.
      destruct H as [-> | H]; [left; reflexivity | right; apply IH; exact H].
    + apply (Permutation_in _ (Permutation_sym (own_names_cons_str s p rest e))).
      destruct H as [H | H]; [left; simpl in H; congruence | right; apply IH; exact H].
  - rewrite own_names_cons_sym. simpl. rewrite IH. split; [auto |].
    intros [H | H]; [discriminate | exact H].
Qed.

(** An object without duplicate keys has no duplicate own names. *)
Lemma NoDup_own_names ps e : NoDup (map fst ps) -> NoDup (own_names (mkObject ps e)).
Proof.
  induction ps as [| [[s | n] p] rest IH]; intros H.
  - constructor.
  - inversion H as [| ? ? Hs Hrest]; subst.
    apply (Permutation_NoDup (Permutation_sym (own_names_cons_str s p rest e))).
    constructor; [| apply IH; exact Hrest].
    intros Hin. apply Hs. apply (In_own_names rest e). exact Hin.
  - inversion H; subst. rewrite own_names_cons_sym. apply IH. assumption.
Qed.


(** ** The constructor of [Observed] *)

(** The ignore list that a metadata object gives. *)

Lemma holder_own fuel st m l :
  nth_error (metadata st) m = Some (Some l) -> holder fuel st m = Some m.
Proof. intros H. destruct fuel; simpl; rewrite H; reflexivity. Qed.

Lemma holder_has_list fuel : forall st m h,
  holder fuel st m = Some h ->
  exists l, nth_error (metadata st) h = Some (Some l).
Proof.
  induction fuel as [| n IH]; intros st m h; simpl;
    destruct (nth_error (metadata st) m) as [[l |] |] eqn:E; intros H;
    try discriminate; try (inversion H; subst; eauto).
  destruct (nth_error (protos st) m) as [[proto |] |]; try discriminate.
  eapply IH. exact H.
Qed.

Lemma holder_mono fuel : forall st m h k,
  holder fuel st m = Some h -> holder (fuel + k) st m = Some h.
Proof.
  induction fuel as [| n IH]; intros st m h k H.
  - simpl in H. destruct (nth_error (metadata st) m) as [[l |] |] eqn:E;
      try discriminate.
    inversion H; subst. apply (holder_own _ _ _ E).
  - simpl in *. destruct (nth_error (metadata st) m) as [[l |] |]; auto.
    destruct (nth_error (protos st) m) as [[proto |] |]; auto.
Qed.

Lemma holder_same st st' :
  metadata st' = metadata st -> protos st' = protos st ->
  forall fuel m, holder fuel st' m = holder fuel st m.
Proof.
  intros Hm Hp fuel. induction fuel as [| n IH]; intros m; simpl; rewrite Hm.
  - reflexivity.
  - rewrite Hp. destruct (nth_error (metadata st) m) as [[l |] |]; auto.
    destruct (nth_error (protos st) m) as [[proto |] |]; auto.
Qed.

Lemma ignores_same_store st st' m q :
  metadata st' = metadata st -> protos st' = protos st ->
  ignores st' m q = ignores st m q.
Proof.
  intros Hm Hp. unfold ignores, list_holder, listed.
  rewrite (@holder_same _ _ Hm Hp), Hm. reflexivity.
Qed.

Lemma list_of_same_store st st' m :
  metadata st' = metadata st -> protos st' = protos st ->
  list_of st' m = list_of st m.
Proof.
  intros Hm Hp. unfold list_of, list_holder.
  rewrite (@holder_same _ _ Hm Hp), Hm. reflexivity.
Qed.

(** The holder of a list keeps it. *)
Lemma list_holder_of_holder st m h :
  list_holder st m = Some h -> list_holder st h = Some h.
Proof.
  unfold list_holder. intros H. destruct (holder_has_list _ _ _ H) as (l & Hl).
  apply (holder_own _ _ _ Hl).
Qed.

Lemma ignores_listed st m q : ignores st m q = listed st (list_of st m) q.
Proof.
  unfold ignores, list_of. destruct (list_holder st m) as [h |] eqn:E; [reflexivity |].
  unfold listed. destruct (nth_error (metadata st) m) as [[l |] |] eqn:Em; try reflexivity.
  unfold list_holder in E. rewrite (holder_own _ _ _ Em) in E. discriminate.
Qed.

(** A list made where none was seen changes nothing for any metadata
    object: the list is empty. *)
Lemma holder_with_new_list st m q :
  nth_error (metadata st) m = Some None ->
  list_holder st m = None ->
  let st' := set_metadata (update_nth m (Some []) (metadata st)) st in
  forall fuel m',
    fuel <= List.length (metadata st) ->
    match holder fuel st' m' with
    | Some h => listed st' h q
    | None => false
    end
    = match holder fuel st m' with
      | Some h => listed st h q
      | None => false
      end.
Proof.
  intros Hm Hnone st' fuel.
  assert (Hlt : m < List.length (metadata st)) by (apply nth_error_Some; congruence).
  assert (Hm' : nth_error (metadata st') m = Some (Some []))
    by (apply nth_error_update_nth_eq; exact Hlt).
  assert (Hother : forall a, a <> m -> nth_error (metadata st') a = nth_error (metadata st) a)
    by (intros a Ha; apply nth_error_update_nth_neq; congruence).
  assert (Hlisted : listed st' m q = false) by (unfold listed; rewrite Hm'; reflexivity).
  assert (Hp : protos st' = protos st) by reflexivity.
  clearbody st'.
  induction fuel as [| n IH]; intros m' Hf.
  - destruct (Nat.eq_dec m' m) as [-> | Hne].
    + rewrite (holder_own 0 _ _ Hm'), Hlisted. simpl. rewrite Hm. reflexivity.
    + simpl. rewrite (Hother _ Hne).
      destruct (nth_error (metadata st) m') as [[l |] |] eqn:E; try reflexivity.
      unfold listed. rewrite (Hother _ Hne). reflexivity.
  - destruct (Nat.eq_dec m' m) as [-> | Hne].
    + rewrite (holder_own (S n) _ _ Hm'), Hlisted.
      destruct (holder (S n) st m) as [h |] eqn:E; [| reflexivity].
      unfold list_holder in Hnone.
      replace (List.length (metadata st)) with (S n + (List.length (metadata st) - S n))
        in Hnone by lia.
      rewrite (@holder_mono (S n) st m h _ E) in Hnone. discriminate.
    + simpl. rewrite (Hother _ Hne).
      destruct (nth_error (metadata st) m') as [[l |] |] eqn:E; try reflexivity.
      * unfold listed. rewrite (Hother _ Hne). reflexivity.
      * rewrite Hp.
        destruct (nth_error (protos st) m') as [[proto |] |]; try reflexivity.
        apply IH. lia.
Qed.

Lemma with_ignore_list_cases m st :
  with_ignore_list m st = st
  \/ (nth_error (metadata st) m = Some None
      /\ list_holder st m = None
      /\ with_ignore_list m st
         = set_metadata (update_nth m (Some []) (metadata st)) st).
Proof.
  unfold with_ignore_list.
  destruct (nth_error (metadata st) m) as [[l |] |] eqn:E; auto.
  - unfold list_holder. rewrite (holder_own _ _ _ E). auto.
  - destruct (list_holder st m); auto.
Qed.

Lemma ignores_with_ignore_list_any m st m' q :
  ignores (with_ignore_list m st) m' q = ignores st m' q.
Proof.
  destruct (with_ignore_list_cases m st) as [-> | (Hm & Hn & ->)]; [reflexivity |].
  unfold ignores, list_holder.
  replace (List.length (metadata (set_metadata (update_nth m (Some []) (metadata st)) st)))
    with (List.length (metadata st)) by (simpl; symmetry; apply length_update_nth).
  apply (@holder_with_new_list st m q Hm Hn). lia.
Qed.

Lemma ignores_with_ignore_list m st q :
  ignores (with_ignore_list m st) m q = ignores st m q.
Proof. apply ignores_with_ignore_list_any. Qed.

Lemma list_of_with_ignore_list m st :
  list_of (with_ignore_list m st) m = list_of st m.
Proof.
  destruct (with_ignore_list_cases m st) as [-> | (Hm & Hn & ->)]; [reflexivity |].
  unfold list_of at 2. rewrite Hn. unfold list_of, list_holder.
  rewrite (@holder_own _ _ m []); [reflexivity |].
  apply nth_error_update_nth_eq. apply nth_error_Some. congruence.
Qed.

(** The list that the pass consults is the one the metadata object gives. *)
Lemma listed_with_ignore_list m st q :
  listed (with_ignore_list m st) (list_of st m) q = ignores st m q.
Proof.
  rewrite <- (ignores_with_ignore_list m st q), ignores_listed,
    list_of_with_ignore_list.
  reflexivity.
Qed.

Lemma with_ignore_list_rest m st :
  heap (with_ignore_list m st) = heap st
  /\ symbols (with_ignore_list m st) = symbols st
  /\ cells (with_ignore_list m st) = cells st.
Proof.
  destruct (with_ignore_list_cases m st) as [-> | (_ & _ & ->)]; auto.
Qed.

Lemma with_ignore_list_protos m st : protos (with_ignore_list m st) = protos st.
Proof.
  destruct (with_ignore_list_cases m st) as [-> | (_ & _ & ->)]; auto.
Qed.

Lemma ignoredProps_of_run m st :
  ignoredProps_of (Some m) st
  = match nth_error (metadata st) m with
    | Some _ => (Normal (list_of st m), with_ignore_list m st)
    | None => (Throw (TypeError "Cannot read properties of undefined"), st)
    end.
Proof.
  unfold ignoredProps_of, with_ignore_list, list_of.
  destruct (nth_error (metadata st) m) as [entry |]; [| reflexivity].
  destruct (list_holder st m); reflexivity.
Qed.

(** How a construction goes on once the constructor of the parent class
    has returned [this]. *)
Lemma Observed_run _target m args st this st1 :
  _target (Some m) args st = (Normal this, st1) ->
  Observed _target (Some m) args st
  = match nth_error (metadata st1) m, nth_error (heap st1) this with
    | None, _ => (Throw (TypeError "Cannot read properties of undefined"), st1)
    | Some _, None => (Throw (TypeError "not an object"), with_ignore_list m st1)
    | Some _, Some ob =>
        match for_each (own_names ob) (wrap_property this (list_of st1 m))
                (with_ignore_list m st1) with
        | (Normal _, st') => (Normal this, st')
        | (Throw t, st') => (Throw t, st')
        | (OutOfFuel, st') => (OutOfFuel, st')
        end
    end.
Proof.
  intros H. unfold Observed. rewrite (bind_Normal _ _ _ H).
  unfold bind at 1. rewrite ignoredProps_of_run.
  destruct (nth_error (metadata st1) m) as [entry |]; [| reflexivity].
  unfold bind at 1, getOwnPropertyNames.
  destruct (with_ignore_list_rest m st1) as (Hh & _). rewrite Hh.
  destruct (nth_error (heap st1) this) as [ob |]; [| reflexivity].
  unfold bind, ret.
  destruct (for_each _ _ _) as [[[] | t |] st']; reflexivity.
Qed.

Lemma Observed_Normal_inv _target m args st this st1 this' st' :
  _target (Some m) args st = (Normal this, st1) ->
  Observed _target (Some m) args st = (Normal this', st') ->
  this' = this
  /\ exists ob,
      nth_error (heap st1) this = Some ob
      /\ for_each (own_names ob) (wrap_property this (list_of st1 m))
           (with_ignore_list m st1)
         = (Normal tt, st').
Proof.
  intros H HO. rewrite (Observed_run _ _ _ _ H) in HO.
  destruct (nth_error (metadata st1) m); [| discriminate].
  destruct (nth_error (heap st1) this) as [ob |]; [| discriminate].
  destruct (for_each _ _ _) as [[[] | t |] st2] eqn:Hloop; inversion HO; subst.
  split; [reflexivity |]. exists ob. auto.
Qed.

(** Whatever way the construction ends, it went through a (possibly
    empty) part of the wrapping pass. *)
Lemma Observed_frame _target m args st this st1 r st' all :
  _target (Some m) args st = (Normal this, st1) ->
  Observed _target (Some m) args st = (r, st') ->
  (forall ob q, nth_error (heap st1) this = Some ob ->
                In q (own_names ob) -> ignores st1 m q = false -> In q all) ->
  changes_only this all (with_ignore_list m st1) st'
  \/ st' = st1.
Proof.
  intros H HO Hall. rewrite (Observed_run _ _ _ _ H) in HO.
  destruct (nth_error (metadata st1) m); [| inversion HO; auto].
  destruct (nth_error (heap st1) this) as [ob |] eqn:Hob.
  2:{ inversion HO; subst. left. apply changes_only_refl. }
  destruct (for_each _ _ _) as [r2 st2] eqn:Hloop.
  assert (st2 = st') by (destruct r2; inversion HO; reflexivity). subst st2.
  left. eapply wrapping_pass_changes; [exact Hloop |].
  intros q Hq Hi. rewrite listed_with_ignore_list in Hi. eapply Hall; eauto.
Qed.

(** ** The wrap strategy *)

(** C2 (the code departs from the claim): the test
    [initialValue.value === "undefined"] compares the value with a string,
    so a property whose initial value is [undefined] gets a ref cell, not a
    reactive wrapper, and the string ["undefined"] is handed to [reactive];
    in [Car] the slot of [note] holds a ref cell. *)
Theorem undefined_is_backed_by_a_ref_cell :
  (forall st,
      backing_cell VUndefined st
      = (Normal (VRef (List.length (cells st))), set_cells (cells st ++ [VUndefined]) st))
  /\ (forall st,
      backing_cell (VString "undefined") st = (Normal (reactive (VString "undefined")), st))
  /\ get_own car_built 0 (KStr "note") = Some (Data VUndefined true true true)
  /\ backed car_observed 0 "note" 1 (VRef 1)
  /\ isRef (VRef 1) = true.
Proof.
  split; [reflexivity |]. split; [reflexivity |]. split; [run |].
  split; [| reflexivity].
  unfold backed. split; [| split; run].
  exists true, true. run.
Qed.

(** ** Ignored properties *)

Lemma wrap_property_symbols this ign q st r st' :
  wrap_property this ign q st = (r, st') ->
  symbols st' = symbols st
  \/ (listed st ign q = false
      /\ symbols st' = symbols st ++ [("__$$" ++ q)%string]).
Proof.
  intros H.
  destruct (wrap_property_cases _ _ _ _ H)
    as [(_ & _ & ->) | [(_ & _ & -> & _) | (p & cell & st_c & Hi & Hp & Hc & Hrest)]];
    auto.
  right. split; [exact Hi |].
  destruct (backing_cell_frame _ _ Hc) as (_ & Hs & _). simpl in Hs.
  destruct Hrest as [(-> & _) | (p1 & _ & _ & [(-> & _) | (p2 & _ & _ & ->)])].
  - exact Hs.
  - destruct (with_prop_rest this (KSym (List.length (symbols st))) p1 st_c) as (W & _).
    rewrite W. exact Hs.
  - destruct (with_prop_rest this (KSym (List.length (symbols st))) p1 st_c) as (W & _).
    destruct (with_prop_rest this (KStr q) p2
                (with_prop this (KSym (List.length (symbols st))) p1 st_c)) as (W2 & _).
    rewrite W2, W. exact Hs.
Qed.

(** Every symbol the pass creates is described after a property that is
    not ignored. *)
Lemma wrapping_pass_symbols this ign names : forall st r st',
  for_each names (wrap_property this ign) st = (r, st') ->
  exists ds,
    symbols st' = symbols st ++ ds
    /\ Forall (fun d => exists q, listed st ign q = false
                                  /\ d = ("__$$" ++ q)%string) ds.
Proof.
  induction names as [| x rest IH]; intros st r st' H; simpl in H.
  - inversion H; subst. exists []. split; [symmetry; apply app_nil_r | constructor].
  - assert (Hstep : forall r1 st1,
               wrap_property this ign x st = (r1, st1) ->
               exists ds,
                 symbols st1 = symbols st ++ ds
                 /\ Forall (fun d => exists q, listed st ign q = false
                                               /\ d = ("__$$" ++ q)%string) ds).
    { intros r1 st1 H1.
      destruct (wrap_property_symbols _ _ _ _ H1) as [E | [Hi E]].
      - exists []. split; [rewrite E; symmetry; apply app_nil_r | constructor].
      - exists [("__$$" ++ x)%string]. split; [exact E |].
        constructor; [eauto | constructor]. }
    destruct (bind_inv _ _ _ H) as [(a & st1 & H1 & H2) | [(t & H1 & ->) | (H1 & ->)]].
    + destruct (Hstep _ _ H1) as (ds1 & S1 & F1).
      destruct (IH _ _ _ H2) as (ds2 & S2 & F2).
      assert (Hm : metadata st1 = metadata st).
      { assert (Hc : changes_only this [x] st st1).
        { eapply wrap_property_changes; [exact H1 |]. intros _. left. reflexivity. }
        destruct Hc as (_ & _ & Hm & _). exact Hm. }
      exists (ds1 ++ ds2). split.
      * rewrite S2, S1. symmetry. apply app_assoc.
      * apply Forall_app. split; [exact F1 |].
        eapply Forall_impl; [| exact F2].
        intros d (q & Hi & Hd). exists q. split; [| exact Hd].
        rewrite <- (@ignores_same_metadata st st1 ign q Hm). exact Hi.
    + eapply Hstep; exact H1.
    + eapply Hstep; exact H1.
Qed.

Lemma Observed_symbols _target m args st this st1 r st' :
  _target (Some m) args st = (Normal this, st1) ->
  Observed _target (Some m) args st = (r, st') ->
  exists ds,
    symbols st' = symbols st1 ++ ds
    /\ Forall (fun d => exists q, ignores st1 m q = false
                                  /\ d = ("__$$" ++ q)%string) ds.
Proof.
  intros H HO. rewrite (Observed_run _ _ _ _ H) in HO.
  destruct (with_ignore_list_rest m st1) as (_ & Ws & _).
  assert (Hnil : forall s, symbols s = symbols st1 ->
             exists ds,
               symbols s = symbols st1 ++ ds
               /\ Forall (fun d => exists q, ignores st1 m q = false
                                             /\ d = ("__$$" ++ q)%string) ds).
  { intros s E. exists []. split; [rewrite E; symmetry; apply app_nil_r | constructor]. }
  destruct (nth_error (metadata st1) m); [| inversion HO; subst; auto].
  destruct (nth_error (heap st1) this) as [ob |]; [| inversion HO; subst; auto].
  destruct (for_each _ _ _) as [r2 st2] eqn:Hloop.
  assert (st2 = st') by (destruct r2; inversion HO; reflexivity). subst st2.
  destruct (wrapping_pass_symbols _ _ _ _ Hloop) as (ds & S & F).
  exists ds. split; [congruence |].
  eapply Forall_impl; [| exact F].
  intros d (q & Hi & Hd). exists q. rewrite listed_with_ignore_list in Hi. auto.
Qed.

Lemma nth_error_app_new {A} (l ds : list A) n x :
  List.length l <= n -> nth_error (l ++ ds) n = Some x -> In x ds.
Proof.
  intros Hn H. rewrite nth_error_app2 in H by exact Hn.
  eapply nth_error_In. exact H.
Qed.

(** C4: a property on the ignore list comes out of the construction as it
    went in: its descriptor is the same (it is not turned into an accessor
    pair), no symbol described after it exists among those the construction
    created (no backing slot), and assigning to it, when it is a writable
    field, stores the value in the field itself and touches no cell. *)
Theorem ignored_property_is_left_alone _target m args st this st1 r st' prop :
  _target (Some m) args st = (Normal this, st1) ->
  ignores st1 m prop = true ->
  Observed _target (Some m) args st = (r, st') ->
  get_own st' this (KStr prop) = get_own st1 this (KStr prop)
  /\ (forall s, List.length (symbols st1) <= s ->
                nth_error (symbols st') s <> Some ("__$$" ++ prop)%string)
  /\ (forall v e c fuel x,
        get_own st1 this (KStr prop) = Some (Data v true e c) ->
        let st2 := with_prop this (KStr prop) (Data x true e c) st' in
        Set_ fuel this (KStr prop) x st' = (Normal tt, st2)
        /\ cells st2 = cells st'
        /\ Get fuel this (KStr prop) st2 = (Normal x, st2)).
Proof.
  intros H Hi HO.
  assert (Hsame : get_own st' this (KStr prop) = get_own st1 this (KStr prop)).
  { set (all := match nth_error (heap st1) this with
                | Some ob => filter (fun q => negb (ignores st1 m q)) (own_names ob)
                | None => []
                end).
    destruct (@Observed_frame _target m args st this st1 r st' all H HO)
      as [(_ & _ & _ & F) | ->]; [| | reflexivity].
    { intros ob q Hob Hq Hiq. unfold all. rewrite Hob.
      apply filter_In. split; [exact Hq |]. rewrite Hiq. reflexivity. }
    destruct (with_ignore_list_rest m st1) as (Wh & _).
    rewrite <- (@get_own_same_heap st1 (with_ignore_list m st1) this (KStr prop) Wh).
    destruct (F this (KStr prop)) as [E | (_ & [(q & Hq & Hin) | (n & Hn & _)])].
    - exact E.
    - inversion Hq; subst q. unfold all in Hin.
      destruct (nth_error (heap st1) this); [| contradiction].
      apply filter_In in Hin. destruct Hin as [_ Hin]. rewrite Hi in Hin. discriminate.
    - discriminate. }
  split; [exact Hsame |]. split.
  - intros s Hs Hnth.
    destruct (Observed_symbols _ _ _ _ H HO) as (ds & S & F).
    rewrite S in Hnth. apply nth_error_app_new in Hnth; [| exact Hs].
    rewrite Forall_forall in F. destruct (F _ Hnth) as (q & Hq & Hd).
    simpl in Hd. inversion Hd; subst q. congruence.
  - intros v e c fuel x Hv st2. rewrite <- Hsame in Hv.
    split; [apply Set_data with (v := v); exact Hv |].
    split; [apply with_prop_rest |].
    apply Get_data with (w := true) (e := e) (c := c).
    apply get_own_with_prop_eq.
    destruct (get_own_heap _ _ _ Hv) as (ob & Hob & _).
    apply nth_error_Some. congruence.
Qed.

Lemma Car_returns : Car (Some 0) [] car_metadata = (Normal 0, car_built).
Proof. run. Qed.

Lemma Observed_Car_returns :
  Observed Car (Some 0) [] car_metadata = (Normal 0, car_observed).
Proof. run. Qed.

Lemma ignored_property_is_left_alone_witness :
  get_own car_observed 0 (KStr "skip") = get_own car_built 0 (KStr "skip").
Proof.
  apply (@ignored_property_is_left_alone Car 0 [] car_metadata 0 car_built
           (Normal 0) car_observed "skip" Car_returns); run.
Defined.

(** ** Backed properties *)

Lemma lookup_prop_Some_In ps k p : lookup_prop ps k = Some p -> In k (map fst ps).
Proof.
  induction ps as [| [k' q] rest IH]; simpl; intros H; [discriminate |].
  destruct (key_eqb k' k) eqn:E.
  - apply key_eqb_eq in E. auto.
  - right. apply IH. exact H.
Qed.

Lemma fresh_symbols_same st st' :
  heap st' = heap st -> symbols st' = symbols st ->
  fresh_symbols st -> fresh_symbols st'.
Proof.
  intros Hh Hs Hf o n Hn. rewrite (@get_own_same_heap st st' o (KSym n) Hh).
  apply Hf. rewrite <- Hs. exact Hn.
Qed.

(** After a construction that returns, every own property that was not
    ignored is backed by a slot the construction created, holding the
    backing cell of the value the property had. *)
Lemma Observed_backs _target m args st this st1 st' prop p :
  _target (Some m) args st = (Normal this, st1) ->
  Observed _target (Some m) args st = (Normal this, st') ->
  fresh_symbols st1 ->
  distinct_keys st1 this ->
  ignores st1 m prop = false ->
  get_own st1 this (KStr prop) = Some p ->
  exists s cell,
    List.length (symbols st1) <= s < List.length (symbols st')
    /\ backed st' this prop s cell
    /\ cell_for st' (descriptor_value p) cell.
Proof.
  intros H HO Hf Hd Hi Hp.
  destruct (Observed_Normal_inv _ _ _ _ H HO) as (_ & ob & Hob & Hloop).
  destruct (with_ignore_list_rest m st1) as (Wh & Ws & _).
  destruct (get_own_heap _ _ _ Hp) as (ob' & Hob' & Hl).
  assert (ob' = ob) by congruence. subst ob'.
  destruct (@wrapping_pass_backs this (list_of st1 m) (own_names ob) _ _ Hloop) with (q := prop) (p := p)
    as (s & cell & Hs & Hb & Hcf).
  - destruct ob as [ps e]. apply NoDup_own_names. apply (Hd _ Hob).
  - eapply fresh_symbols_same; [exact Wh | exact Ws | exact Hf].
  - destruct ob as [ps e]. apply In_own_names. eapply lookup_prop_Some_In. exact Hl.
  - rewrite listed_with_ignore_list. exact Hi.
  - rewrite (@get_own_same_heap st1 _ this (KStr prop) Wh). exact Hp.
  - exists s, cell. rewrite Ws in Hs. auto.
Qed.

Lemma is_scalar_plain v :
  is_scalar v = true -> reactive v = v /\ toRaw v = v /\ isRef v = false.
Proof. destruct v; simpl; intros H; try discriminate; auto. Qed.

Lemma ref_get_value c st :
  fst (ref_get (VRef c) st) = Normal (toReactive (nth c (cells st) VUndefined)).
Proof.
  simpl. unfold bind, track, modify.
  destruct (activeEffect st); [destruct (shouldTrack st); [destruct (existsb _ _) |] |];
    reflexivity.
Qed.

Lemma nth_error_nth_default {A} (l : list A) n x d :
  nth_error l n = Some x -> nth n l d = x /\ n < List.length l.
Proof.
  intros H. split.
  - apply nth_error_nth. exact H.
  - apply nth_error_Some. congruence.
Qed.

(** Reading a scalar through the backing cell made for it. *)
Lemma Get_backed_scalar fuel st this prop s cell v :
  backed st this prop s cell ->
  cell_for st v cell ->
  is_scalar v = true ->
  fst (Get (S fuel) this (KStr prop) st) = Normal v.
Proof.
  intros Hb Hcf Hv. destruct (is_scalar_plain _ Hv) as (Hr & Ht & Hn).
  unfold cell_for in Hcf. destruct (_ || _).
  - subst cell. rewrite Hr in Hb. rewrite (Get_backed_plain fuel Hb Hn). reflexivity.
  - destruct Hcf as (c & -> & Hc).
    rewrite (Get_backed_ref fuel Hb), ref_get_value.
    destruct (nth_error_nth_default _ _ VUndefined Hc) as [-> _].
    rewrite Ht. unfold toReactive. rewrite Hr. reflexivity.
Qed.

Lemma reactive_toRaw v : reactive (toRaw v) = reactive v.
Proof. destruct v; reflexivity. Qed.

Lemma isRef_reactive v : isRef v = false -> isRef (reactive v) = false.
Proof. destruct v; simpl; auto. Qed.

(** Writing a value that is not a ref cell and reading it back, through a
    backed property: what comes back is the value, wrapped if it is an
    object. *)
Lemma Set_Get_backed fuel st this prop s cell v2 :
  backed st this prop s cell ->
  (forall c, cell = VRef c -> c < List.length (cells st)) ->
  isRef v2 = false ->
  fst ((Set_ (S fuel) this (KStr prop) v2 >> Get (S fuel) this (KStr prop)) st)
  = Normal (reactive v2).
Proof.
  intros Hb Hc Hv.
  destruct (isRef cell) eqn:Hcell.
  - destruct cell; try discriminate.
    rewrite (bind_Normal _ _ _ (Set_backed_ref fuel v2 Hb)).
    destruct (ref_set_frame c v2 st) as (Fh & Fs & _).
    rewrite (Get_backed_ref fuel (backed_same_heap _ Fh Fs Hb)), ref_get_value.
    rewrite ref_set_holds by (apply Hc; reflexivity).
    unfold toReactive. rewrite reactive_toRaw. reflexivity.
  - rewrite (bind_Normal _ _ _ (Set_backed_plain fuel v2 Hb Hcell)).
    pose proof (backed_with_slot (reactive v2) Hb) as Hb2.
    rewrite (Get_backed_plain fuel Hb2); [reflexivity |].
    apply isRef_reactive. exact Hv.
Qed.

Lemma cell_for_in_range st v cell c :
  cell_for st v cell -> is_scalar v = true -> cell = VRef c ->
  c < List.length (cells st).
Proof.
  intros Hcf Hv ->. unfold cell_for in Hcf. destruct (_ || _).
  - destruct v; discriminate.
  - destruct Hcf as (c' & Hc' & Hn). inversion Hc'; subst.
    apply nth_error_Some. congruence.
Qed.

Lemma Car_fresh_symbols : fresh_symbols car_built.
Proof.
  intros [| o] n _.
  - reflexivity.
  - unfold get_own. simpl. destruct o; reflexivity.
Qed.

Lemma Car_distinct_keys : distinct_keys car_built 0.
Proof.
  intros ob Hob. vm_compute in Hob. inversion Hob; subst. simpl.
  repeat (constructor; [simpl; intuition discriminate |]). constructor.
Qed.

(** C3, as the claim states it, fails: an ordinary extensible object (here
    the empty object at address [1]) written to a property backed by a
    scalar cell comes back as its reactive wrapper, not as the object. *)
Lemma object_written_is_read_back_wrapped :
  get_own car_built 0 (KStr "name") = Some (Data (VString "X") true true true)
  /\ nth_error (heap car_and_object) 1 = Some (plain [])
  /\ fst ((Set_ 1 0 (KStr "name") (VObject 1) >> Get 1 0 (KStr "name")) car_and_object)
     = Normal (VReactive 1)
  /\ VReactive 1 <> VObject 1.
Proof. split; [run |]. split; [run |]. split; [run | discriminate]. Qed.

(** C3, amended: for every instance built by an [Observed] class and every
    own data property that is not ignored and whose initial value [v] is a
    scalar, reading the property right after the construction answers [v];
    after writing a scalar [v2] to it, reading it answers [v2]; after
    writing any other value [x] that is not a ref cell, reading it answers
    what the engine's [reactive] answers for [x]. *)
Theorem scalar_property_round_trip _target m args st this st1 st' prop v w e c :
  _target (Some m) args st = (Normal this, st1) ->
  Observed _target (Some m) args st = (Normal this, st') ->
  fresh_symbols st1 ->
  distinct_keys st1 this ->
  ignores st1 m prop = false ->
  get_own st1 this (KStr prop) = Some (Data v w e c) ->
  is_scalar v = true ->
  forall fuel,
    fst (Get (S fuel) this (KStr prop) st') = Normal v
    /\ (forall v2,
          is_scalar v2 = true ->
          fst ((Set_ (S fuel) this (KStr prop) v2 >> Get (S fuel) this (KStr prop)) st')
          = Normal v2)
    /\ (forall x,
          isRef x = false ->
          fst ((Set_ (S fuel) this (KStr prop) x >> Get (S fuel) this (KStr prop)) st')
          = Normal (reactive x)).
Proof.
  intros H HO Hf Hd Hi Hp Hv fuel.
  destruct (@Observed_backs _target m args st this st1 st' prop _ H HO Hf Hd Hi Hp)
    as (s & cell & _ & Hb & Hcf).
  simpl in Hcf.
  assert (Hrange : forall c0, cell = VRef c0 -> c0 < List.length (cells st'))
    by (intros c0 Hc0; eapply cell_for_in_range; eauto).
  split; [| split].
  - eapply Get_backed_scalar; eauto.
  - intros v2 Hv2. destruct (is_scalar_plain _ Hv2) as (Hr & _ & Hn).
    rewrite (Set_Get_backed fuel v2 Hb Hrange Hn), Hr. reflexivity.
  - intros x Hx. apply (Set_Get_backed fuel x Hb Hrange Hx).
Qed.

Lemma scalar_property_round_trip_witness :
  fst (Get 1 0 (KStr "name") car_observed) = Normal (VString "X")
  /\ fst ((Set_ 1 0 (KStr "name") (VNumber 7) >> Get 1 0 (KStr "name")) car_observed)
     = Normal (VNumber 7).
Proof.
  assert (Hi : ignores car_built 0 "name" = false) by run.
  assert (Hp : get_own car_built 0 (KStr "name")
               = Some (Data (VString "X") true true true)) by run.
  destruct (@scalar_property_round_trip Car 0 [] car_metadata 0 car_built car_observed
              "name" (VString "X") true true true
              Car_returns Observed_Car_returns Car_fresh_symbols Car_distinct_keys
              Hi Hp eq_refl 0) as (H1 & H2 & _).
  split; [exact H1 | apply H2; reflexivity].
Defined.



(** ** One slot and one cell for each property *)


















(** ** [bindable] *)

(** On [{ name: "X" }] the call returns the object; [obj.$name] is
    [undefined], and [obj[0]] is the object [{ $name: binding }] whose
    binding does read [name]. *)
Example bindable_on_a_plain_object :
  get_own named 0 (KStr "name") = Some (field (VString "X"))
  /\ fst (bindable 2 0 named) = Normal 0
  /\ get_own named_bound 0 (KStr "$name") = None
  /\ Get 2 0 (KStr "$name") named_bound = (Normal VUndefined, named_bound)
  /\ option_map own_names (nth_error (heap named_bound) 0) = Some ["0"; "name"]
  /\ get_own named_bound 0 (KStr "0") = Some (field (VObject 2))
  /\ get_own named_bound 2 (KStr "$name") = Some (field (VObject 4))
  /\ get_own named_bound 4 (KStr "get") = Some (field (VFunction (BindingGet 0 "name")))
  /\ Call 1 (BindingGet 0 "name") 4 [] named_bound = (Normal (VString "X"), named_bound).
Proof. runs. Qed.

Example bindable_on_an_observed_instance :
  fst (bindable 2 0 car_observed) = Normal 0
  /\ get_own car_bound 0 (KStr "$name") = None
  /\ option_map own_names (nth_error (heap car_bound) 0)
     = Some ["0"; "1"; "2"; "3"; "4"; "name"; "note"; "tag"; "owner"; "skip"].
Proof. runs. Qed.

(** *** What [bindable] leaves alone *)

Lemma guarded_refl n1 k0 st : guarded n1 k0 st st.
Proof. intros Hi Hn. auto. Qed.

Lemma guarded_trans n1 k0 a b c :
  guarded n1 k0 a b -> guarded n1 k0 b c -> guarded n1 k0 a c.
Proof.
  intros Hab Hbc Hi Hn.
  destruct (Hab Hi Hn) as (Hi1 & Hl1 & Hk1).
  destruct (Hbc Hi1 (Nat.le_trans _ _ _ Hn Hl1)) as (Hi2 & Hl2 & Hk2).
  split; [exact Hi2 |]. split; [lia |].
  intros o Ho. rewrite Hk2, Hk1; auto.
Qed.

(** A change that touches neither the heap nor anything else the relation
    looks at. *)
Lemma guarded_same_heap n1 k0 st st' :
  heap st' = heap st -> guarded n1 k0 st st'.
Proof.
  intros Hh Hi Hn. split; [| split].
  - intros o k g s e c H. rewrite (@get_own_same_heap st st' o k Hh) in H. eauto.
  - rewrite Hh. lia.
  - intros o _. apply get_own_same_heap. exact Hh.
Qed.

Lemma get_own_alloc st ob o k :
  o < List.length (heap st) ->
  get_own (set_heap (heap st ++ [ob]) st) o k = get_own st o k.
Proof.
  intros Ho. unfold get_own. simpl. rewrite nth_error_app1 by exact Ho. reflexivity.
Qed.

Lemma get_own_alloc_new st ob k :
  get_own (set_heap (heap st ++ [ob]) st) (List.length (heap st)) k
  = lookup_prop (props ob) k.
Proof. unfold get_own. simpl. rewrite nth_error_snoc. reflexivity. Qed.

Lemma get_own_range st o k p : get_own st o k = Some p -> o < List.length (heap st).
Proof.
  intros H. destruct (get_own_heap _ _ _ H) as (ob & Hob & _).
  apply nth_error_Some. congruence.
Qed.

Lemma lookup_prop_data ps k g s e c :
  forallb (fun kp => negb (is_accessor (snd kp))) ps = true ->
  lookup_prop ps k <> Some (Accessor g s e c).
Proof.
  induction ps as [| [k' p] rest IH]; simpl; intros H; [discriminate |].
  apply andb_true_iff in H. destruct H as [Hp Hrest].
  destruct (key_eqb k' k); [| apply IH; exact Hrest].
  destruct p; [discriminate | discriminate].
Qed.

(** Allocating an object without accessors. *)
Lemma guarded_alloc n1 k0 ob :
  forallb (fun kp => negb (is_accessor (snd kp))) (props ob) = true ->
  preserves (guarded n1 k0) (alloc ob).
Proof.
  intros Hdata st r st' H Hi Hn. inversion H; subst; clear H.
  assert (Hob : forall k g s e c, lookup_prop (props ob) k <> Some (Accessor g s e c))
    by (intros; apply lookup_prop_data; exact Hdata).
  split; [| split].
  - intros o k g s e c Hg.
    destruct (Nat.lt_ge_cases o (List.length (heap st))) as [Ho | Ho].
    + rewrite get_own_alloc in Hg by exact Ho. eauto.
    + pose proof (get_own_range _ _ _ Hg) as Hr. simpl in Hr.
      rewrite length_app in Hr. simpl in Hr.
      assert (o = List.length (heap st)) by lia. subst o.
      rewrite get_own_alloc_new in Hg. exfalso. eapply Hob. exact Hg.
  - simpl. rewrite length_app. lia.
  - intros o Ho. apply get_own_alloc. lia.
Qed.

Lemma validate_data_keeps_accessors ext d cur p g s e c :
  d_get d = None -> d_set d = None ->
  validate_and_apply ext d cur = Some p ->
  p = Accessor g s e c ->
  exists e' c', cur = Some (Accessor g s e' c').
Proof.
  intros Hg Hs Hv ->. unfold validate_and_apply in Hv.
  destruct cur as [cur |].
  - destruct (negb (prop_configurable cur) && rejected d cur); [discriminate |].
    inversion Hv as [Ha]. unfold applied, is_accessor_descriptor in Ha.
    rewrite Hg, Hs in Ha. destruct cur as [v w e0 c0 | g0 s0 e0 c0].
    + discriminate.
    + destruct (is_data_descriptor d); [discriminate |].
      simpl in Ha. inversion Ha; subst. eauto.
  - destruct ext; [| discriminate]. inversion Hv as [Ha].
    unfold created, is_accessor_descriptor in Ha. rewrite Hg, Hs in Ha. discriminate.
Qed.

(** Storing a property that is not an accessor, or an accessor that kept
    its functions, anywhere but under [k0] in one of the first [n1]
    objects. *)
Lemma guarded_with_prop n1 k0 o k p st :
  (forall g s e c, p = Accessor g s e c ->
                   exists e' c', get_own st o k = Some (Accessor g s e' c')) ->
  k <> KStr k0 \/ n1 <= o ->
  guarded n1 k0 st (with_prop o k p st).
Proof.
  intros Hp Hk Hi Hn. split; [| split].
  - intros o2 k2 g s e c Hg.
    destruct (Nat.eq_dec o2 o) as [-> | Ho].
    + destruct (key_eqb k2 k) eqn:E.
      * apply key_eqb_eq in E. subst k2.
        rewrite get_own_with_prop_eq in Hg.
        -- inversion Hg; subst p. destruct (Hp g s e c eq_refl) as (e' & c' & Hc). eauto.
        -- pose proof (get_own_range _ _ _ Hg) as Hr.
           rewrite with_prop_length in Hr. exact Hr.
      * rewrite get_own_with_prop_neq in Hg; [eauto |].
        intros Heq. inversion Heq; subst. rewrite key_eqb_refl in E. discriminate.
    + rewrite get_own_with_prop_neq in Hg by congruence. eauto.
  - rewrite with_prop_length. lia.
  - intros o2 Ho2. apply get_own_with_prop_neq.
    intros Heq. inversion Heq; subst. destruct Hk as [Hk | Hk]; [congruence | lia].
Qed.

Lemma guarded_define_own n1 k0 o k d :
  d_get d = None -> d_set d = None ->
  k <> KStr k0 \/ n1 <= o ->
  preserves (guarded n1 k0) (define_own o k d).
Proof.
  intros Hg Hs Hk st r st' H.
  destruct (define_own_inv _ _ _ _ H) as [(p & _ & _ & Hv & ->) | [-> _]];
    [| apply guarded_refl].
  apply guarded_with_prop; [| exact Hk].
  intros g s e c Hp. eapply validate_data_keeps_accessors; eauto.
Qed.

Lemma guarded_ref_get n1 k0 r : preserves (guarded n1 k0) (ref_get r).
Proof.
  intros st o st' H. apply guarded_same_heap.
  destruct r; try (inversion H; reflexivity).
  simpl in H. unfold bind, track, modify in H.
  destruct (activeEffect st); [destruct (shouldTrack st); [destruct (existsb _ _) |] |];
    inversion H; reflexivity.
Qed.

Lemma guarded_ref_set n1 k0 r v : preserves (guarded n1 k0) (ref_set r v).
Proof.
  intros st o st' H. apply guarded_same_heap.
  destruct r; try (inversion H; reflexivity).
  simpl in H. destruct (strict_equal _ _); inversion H; reflexivity.
Qed.

Section Guarded.
Variables (n1 : nat) (k0 : string).
Variable call : func -> nat -> list value -> M value.
Hypothesis call_guarded :
  forall f this args, observed_func (Some f) ->
                      preserves (guarded n1 k0) (call f this args).

Lemma guarded_Get_with o k : preserves (guarded n1 k0) (Get_with call o k).
Proof.
  intros st r st' H. unfold Get_with in H.
  destruct (nth_error (heap st) o) as [ob |] eqn:Hob;
    [| inversion H; subst; apply guarded_refl].
  destruct (lookup_prop (props ob) k) as [[v w e c | [g |] s e c] |] eqn:Hl;
    try (inversion H; subst; apply guarded_refl).
  intros Hi Hn.
  assert (Hg : get_own st o k = Some (Accessor (Some g) s e c)).
  { unfold get_own. rewrite Hob. exact Hl. }
  destruct (Hi _ _ _ _ _ _ Hg) as [Hobs _].
  exact (@call_guarded g o [] Hobs st r st' H Hi Hn).
Qed.

Lemma guarded_Set_with o k v :
  k <> KStr k0 \/ n1 <= o ->
  preserves (guarded n1 k0) (Set_with call o k v).
Proof.
  intros Hk st r st' H. unfold Set_with in H.
  destruct (nth_error (heap st) o) as [ob |] eqn:Hob;
    [| inversion H; subst; apply guarded_refl].
  destruct (lookup_prop (props ob) k) as [[v0 w e c | g [s |] e c] |] eqn:Hl.
  - destruct w; [| inversion H; subst; apply guarded_refl].
    revert H. apply (preserves_bind (@guarded_trans n1 k0)).
    + apply guarded_define_own; auto.
    + intros ok st1 r1 st2 H1. destruct ok; inversion H1; subst; apply guarded_refl.
  - intros Hi Hn.
    assert (Hg : get_own st o k = Some (Accessor g (Some s) e c)).
    { unfold get_own. rewrite Hob. exact Hl. }
    destruct (Hi _ _ _ _ _ _ Hg) as [_ Hobs].
    revert Hi Hn. revert H. apply (preserves_bind (@guarded_trans n1 k0)).
    + apply call_guarded. exact Hobs.
    + intros _ st1 r1 st2 H1. inversion H1; subst. apply guarded_refl.
  - inversion H; subst. apply guarded_refl.
  - revert H. apply (preserves_bind (@guarded_trans n1 k0)).
    + apply guarded_define_own; auto.
    + intros ok st1 r1 st2 H1. destruct ok; inversion H1; subst; apply guarded_refl.
Qed.
End Guarded.

(** The closures of the [Observed] constructor write hidden slots and
    cells only. *)
Lemma guarded_Call n1 k0 fuel : forall f this args,
  observed_func (Some f) -> preserves (guarded n1 k0) (Call fuel f this args).
Proof.
  induction fuel as [| n IH]; intros f this args Hf; simpl.
  - intros st r st' H. inversion H; subst. apply guarded_refl.
  - destruct f; simpl in Hf; try contradiction; simpl.
    + unfold Observed_get. apply (preserves_bind (@guarded_trans n1 k0)).
      * apply guarded_Get_with. exact IH.
      * intros inst. destruct (isRef inst); [apply guarded_ref_get |].
        intros st r st' H. inversion H; subst. apply guarded_refl.
    + unfold Observed_set. apply (preserves_bind (@guarded_trans n1 k0)).
      * apply guarded_Get_with. exact IH.
      * intros inst. apply (preserves_bind (@guarded_trans n1 k0)).
        -- destruct (isRef inst); [apply guarded_ref_set |].
           apply guarded_Set_with; [exact IH | left; discriminate].
        -- intros _ st r st' H. inversion H; subst. apply guarded_refl.
Qed.

Lemma guarded_Get n1 k0 fuel o k : preserves (guarded n1 k0) (Get fuel o k).
Proof. apply guarded_Get_with. apply guarded_Call. Qed.

Lemma guarded_Set n1 k0 fuel o k v :
  k <> KStr k0 \/ n1 <= o -> preserves (guarded n1 k0) (Set_ fuel o k v).
Proof. apply guarded_Set_with. apply guarded_Call. Qed.

Lemma index_key_not_dollar i name : index_key i <> ("$" ++ name)%string.
Proof.
  unfold index_key. destruct (Nat.to_uint i); simpl; discriminate.
Qed.

Lemma guarded_CreateDataProperty n1 k0 o k v :
  k <> KStr k0 \/ n1 <= o ->
  preserves (guarded n1 k0) (CreateDataProperty o k v).
Proof.
  intros Hk. unfold CreateDataProperty.
  apply (preserves_bind (@guarded_trans n1 k0)).
  - apply guarded_define_own; auto.
  - intros ok st r st' H. destruct ok; inversion H; subst; apply guarded_refl.
Qed.

Lemma guarded_Binding n1 name fuel init :
  preserves (guarded n1 ("$" ++ name)) (Binding fuel init).
Proof.
  unfold Binding.
  apply (preserves_bind (@guarded_trans n1 _)); [apply guarded_alloc; reflexivity |].
  intros this. apply (preserves_bind (@guarded_trans n1 _)); [apply guarded_Get |].
  intros g. apply (preserves_bind (@guarded_trans n1 _)).
  { apply guarded_Set. left. discriminate. }
  intros _. apply (preserves_bind (@guarded_trans n1 _)); [apply guarded_Get |].
  intros s. apply (preserves_bind (@guarded_trans n1 _)).
  { apply guarded_Set. left. discriminate. }
  intros _ st r st' H. inversion H; subst. apply guarded_refl.
Qed.

(** The objects made for one property name are new: they may well carry a
    property [$name], the objects that existed do not get one. *)
Lemma guarded_binding_entry n1 name fuel observable key :
  preserves (guarded n1 ("$" ++ name)) (binding_entry fuel observable key).
Proof.
  intros st r st' H Hi Hn.
  unfold binding_entry in H.
  assert (Ha : alloc (plain []) st
               = (Normal (List.length (heap st)), set_heap (heap st ++ [plain []]) st))
    by reflexivity.
  rewrite (bind_Normal _ _ _ Ha) in H.
  assert (Hrest : guarded n1 ("$" ++ name) (set_heap (heap st ++ [plain []]) st) st').
  { revert H. apply (preserves_bind (@guarded_trans n1 _));
      [apply guarded_alloc; reflexivity |].
    intros init. apply (preserves_bind (@guarded_trans n1 _)); [apply guarded_Binding |].
    intros binding. apply (preserves_bind (@guarded_trans n1 _)).
    - apply guarded_CreateDataProperty. right. exact Hn.
    - intros _ st3 r3 st4 H3. inversion H3; subst. apply guarded_refl. }
  assert (Hfirst : guarded n1 ("$" ++ name) st (set_heap (heap st ++ [plain []]) st)).
  { eapply guarded_alloc; [| exact Ha]. reflexivity. }
  exact (@guarded_trans n1 _ _ _ _ Hfirst Hrest Hi Hn).
Qed.

Lemma guarded_map_from n1 name fuel observable A names : forall i,
  preserves (guarded n1 ("$" ++ name))
    (map_from A i names (binding_entry fuel observable)).
Proof.
  induction names as [| x rest IH]; intros i; simpl.
  - intros st r st' H. inversion H; subst. apply guarded_refl.
  - apply (preserves_bind (@guarded_trans n1 _)); [apply guarded_binding_entry |].
    intros mapped. apply (preserves_bind (@guarded_trans n1 _)).
    + apply guarded_CreateDataProperty. left.
      intros Heq. inversion Heq as [Hi]. exact (@index_key_not_dollar _ _ Hi).
    + intros _. apply IH.
Qed.

(** [Object.assign] copies a key of the source that is not [$name] onto
    the target. *)
Lemma guarded_assign_key n1 name fuel to from nextKey st r st' :
  assign_key fuel to from nextKey st = (r, st') ->
  get_own st from (KStr ("$" ++ name)) = None ->
  guarded n1 ("$" ++ name) st st'.
Proof.
  intros H Hclean. unfold assign_key in H.
  destruct (get_own st from nextKey) as [desc |] eqn:Hd;
    [| inversion H; subst; apply guarded_refl].
  destruct (prop_enumerable desc); [| inversion H; subst; apply guarded_refl].
  revert H. apply (preserves_bind (@guarded_trans n1 _)); [apply guarded_Get |].
  intros v. apply guarded_Set. left. intros Heq. subst nextKey. congruence.
Qed.

Lemma guarded_assign_keys n1 name fuel to from keys : forall st r st',
  for_each keys (assign_key fuel to from) st = (r, st') ->
  from < n1 ->
  get_own st from (KStr ("$" ++ name)) = None ->
  guarded n1 ("$" ++ name) st st'.
Proof.
  induction keys as [| k rest IH]; intros st r st' H Hfrom Hclean; simpl in H.
  - inversion H; subst. apply guarded_refl.
  - destruct (bind_inv _ _ _ H) as [(a & st1 & H1 & H2) | [(t & H1 & ->) | (H1 & ->)]].
    + pose proof (@guarded_assign_key n1 name fuel to from k st _ st1 H1 Hclean) as G1.
      intros Hi Hn. destruct (G1 Hi Hn) as (Hi1 & Hl1 & Hk1).
      assert (Hclean1 : get_own st1 from (KStr ("$" ++ name)) = None)
        by (rewrite Hk1; [exact Hclean | exact Hfrom]).
      exact (@guarded_trans n1 _ st st1 st' G1 (IH _ _ _ H2 Hfrom Hclean1) Hi Hn).
    + eapply guarded_assign_key; eauto.
    + eapply guarded_assign_key; eauto.
Qed.

Lemma Array_map_inv names callbackfn st r st' :
  Array_map names callbackfn st = (r, st') ->
  let A := List.length (heap st) in
  let arr := plain [(KStr "length",
                     Data (VNumber (Z.of_nat (List.length names))) true false false)] in
  exists r1,
    map_from A 0 names callbackfn (set_heap (heap st ++ [arr]) st) = (r1, st')
    /\ (forall a, r = Normal a -> a = A).
Proof.
  intros H A arr. unfold Array_map in H.
  assert (Ha : alloc arr st = (Normal A, set_heap (heap st ++ [arr]) st)) by reflexivity.
  rewrite (bind_Normal _ _ _ Ha) in H.
  destruct (bind_inv _ _ _ H) as [(a & st1 & H1 & H2) | [(t & H1 & ->) | (H1 & ->)]].
  - inversion H2; subst. exists (Normal a). split; [exact H1 |].
    intros a0 Ha0. inversion Ha0. reflexivity.
  - exists (Throw t). split; [exact H1 | discriminate].
  - exists OutOfFuel. split; [exact H1 | discriminate].
Qed.

Lemma Object_assign_single fuel target from st r st' :
  Object_assign fuel target [from] st = (r, st') ->
  st' = st
  \/ exists ob r2,
      nth_error (heap st) from = Some ob
      /\ for_each (own_keys ob) (assign_key fuel target from) st = (r2, st').
Proof.
  unfold Object_assign. simpl. unfold bind, own_keys_of, ret.
  destruct (nth_error (heap st) from) as [ob |]; [| intros H; inversion H; auto].
  destruct (for_each (own_keys ob) _ st) as [r2 st2] eqn:Hloop.
  intros H. right. exists ob, r2. split; [reflexivity |].
  assert (st2 = st') by (destruct r2 as [[] | t |]; inversion H; reflexivity).
  subst st2. exact Hloop.
Qed.

(** C1 (the code departs from the claim): [bindable] hands the array of
    one-entry objects to [Object.assign] as a single source, so what the
    object receives are the elements of the array, under the keys ["0"],
    ["1"], ...; whatever the object and the name, the call leaves the
    property [$name] of the object as it was: absent when it was absent. *)
Theorem bindable_defines_no_dollar_property fuel observable st r st' name :
  only_observed_accessors st ->
  bindable fuel observable st = (r, st') ->
  get_own st' observable (KStr ("$" ++ name))
  = get_own st observable (KStr ("$" ++ name)).
Proof.
  intros Hi H. unfold bindable in H.
  unfold bind at 1, getOwnPropertyNames in H.
  destruct (nth_error (heap st) observable) as [ob |] eqn:Hob;
    [| inversion H; reflexivity].
  assert (Hlt : observable < List.length (heap st))
    by (apply nth_error_Some; congruence).
  set (k0 := ("$" ++ name)%string) in *.
  set (A := List.length (heap st)) in *.
  set (arr := plain [(KStr "length",
                      Data (VNumber (Z.of_nat (List.length (own_names ob))))
                        true false false)]).
  set (st_A := set_heap (heap st ++ [arr]) st).
  (* the array is allocated *)
  assert (HA : guarded 0 k0 st st_A).
  { apply (@guarded_alloc 0 k0 arr eq_refl st (Normal A)). reflexivity. }
  destruct (HA Hi (Nat.le_0_l _)) as (Hi_A & _ & _).
  assert (Hobs_A : get_own st_A observable (KStr k0) = get_own st observable (KStr k0))
    by (apply get_own_alloc; exact Hlt).
  assert (Hclean_A : get_own st_A A (KStr k0) = None).
  { unfold st_A, A. rewrite get_own_alloc_new. reflexivity. }
  assert (Hlen_A : S A <= List.length (heap st_A)).
  { unfold st_A. simpl. rewrite length_app. simpl. fold A. lia. }
  (* the array is filled *)
  destruct (bind_inv _ _ _ H) as [(a & st_m & H1 & H2) | [(t & H1 & ->) | (H1 & ->)]];
    destruct (Array_map_inv _ _ _ H1) as (r1 & Hmap & Ha);
    fold A arr st_A in Hmap;
    destruct (@guarded_map_from (S A) name fuel observable A (own_names ob) 0
                st_A r1 _ Hmap Hi_A Hlen_A) as (Hi_m & Hlen_m & Hk_m);
    fold k0 in Hk_m;
    try (rewrite Hk_m by lia; exact Hobs_A).
  (* the array is the one source of [Object.assign] *)
  rewrite (Ha a eq_refl) in H2.
  destruct (Object_assign_single _ _ _ _ H2) as [-> | (obA & r2 & _ & Hloop)].
  - rewrite Hk_m by lia. exact Hobs_A.
  - assert (Hclean_m : get_own st_m A (KStr k0) = None)
      by (rewrite Hk_m by lia; exact Hclean_A).
    destruct (@guarded_assign_keys (S A) name fuel observable A (own_keys obA)
                st_m r2 st' Hloop (Nat.lt_succ_diag_r A) Hclean_m Hi_m)
      as (_ & _ & Hk); [lia |].
    fold k0 in Hk. rewrite Hk, Hk_m by lia. exact Hobs_A.
Qed.

Lemma named_only_observed_accessors : only_observed_accessors named.
Proof.
  intros o k g s e c H. exfalso.
  destruct (get_own_heap _ _ _ H) as (ob & Hob & Hl).
  destruct o as [| [| o]]; vm_compute in Hob; inversion Hob; subst ob.
  revert Hl. apply lookup_prop_data. reflexivity.
Qed.

Lemma bindable_defines_no_dollar_property_witness :
  get_own named_bound 0 (KStr "$name") = get_own named 0 (KStr "$name").
Proof.
  apply (@bindable_defines_no_dollar_property 2 0 named (Normal 0) named_bound "name"
           named_only_observed_accessors).
  run.
Defined.

(** * Further properties of the module *)

(** ** Registering ignored properties *)

Lemma ignores_push st m l name q :
  nth_error (metadata st) m = Some (Some l) ->
  listed (set_metadata (update_nth m (Some (l ++ [name])) (metadata st)) st) m q
  = listed st m q || String.eqb q name.
Proof.
  intros H. unfold listed. simpl.
  rewrite nth_error_update_nth_eq by (apply nth_error_Some; congruence).
  rewrite H, existsb_app. simpl. rewrite orb_false_r. reflexivity.
Qed.

Lemma update_nth_twice {A} (x y : A) : forall n l,
  update_nth n x (update_nth n y l) = update_nth n x l.
Proof.
  induction n as [| n IH]; intros [| z l]; simpl; try reflexivity.
  rewrite IH. reflexivity.
Qed.

(** A list that gets another content is still the list of the same
    metadata objects. *)
Lemma holder_update_list st h l l' :
  nth_error (metadata st) h = Some (Some l) ->
  forall fuel m,
    holder fuel (set_metadata (update_nth h (Some l') (metadata st)) st) m
    = holder fuel st m.
Proof.
  intros Hl.
  assert (Hh : nth_error (metadata (set_metadata (update_nth h (Some l') (metadata st)) st)) h
               = Some (Some l'))
    by (apply nth_error_update_nth_eq; apply nth_error_Some; congruence).
  induction fuel as [| n IH]; intros m.
  - destruct (Nat.eq_dec m h) as [-> | Hne].
    + rewrite (@holder_own 0 _ h l' Hh), (@holder_own 0 _ h l Hl). reflexivity.
    + simpl. rewrite nth_error_update_nth_neq by congruence. reflexivity.
  - destruct (Nat.eq_dec m h) as [-> | Hne].
    + rewrite (@holder_own (S n) _ h l' Hh), (@holder_own (S n) _ h l Hl). reflexivity.
    + simpl. rewrite nth_error_update_nth_neq by congruence.
      destruct (nth_error (metadata st) m) as [[l0 |] |]; try reflexivity.
      destruct (nth_error (protos st) m) as [[proto |] |]; try reflexivity.
      apply IH.
Qed.

Lemma list_holder_update_list st h l l' m :
  nth_error (metadata st) h = Some (Some l) ->
  list_holder (set_metadata (update_nth h (Some l') (metadata st)) st) m
  = list_holder st m.
Proof.
  intros Hl. unfold list_holder.
  replace (List.length (metadata (set_metadata (update_nth h (Some l') (metadata st)) st)))
    with (List.length (metadata st)) by (simpl; symmetry; apply length_update_nth).
  apply (@holder_update_list st h l l' Hl).
Qed.

Lemma list_of_update_list st h l l' m :
  nth_error (metadata st) h = Some (Some l) ->
  list_of (set_metadata (update_nth h (Some l') (metadata st)) st) m = list_of st m.
Proof.
  intros Hl. unfold list_of. rewrite (@list_holder_update_list _ _ _ _ _ Hl).
  reflexivity.
Qed.

(** What the marker does on a member with a string name: the list the
    metadata object gives, its own or the one it inherits, made if there is
    none, receives the name. *)
Lemma ObservationIgnored_run k name m entry st :
  nth_error (metadata st) m = Some entry ->
  exists l,
    nth_error (metadata (with_ignore_list m st)) (list_of st m) = Some (Some l)
    /\ (forall q, existsb (String.eqb q) l = ignores st m q)
    /\ ObservationIgnored (mkContext k (KStr name) (Some m)) st
       = (Normal tt,
          set_metadata (update_nth (list_of st m) (Some (l ++ [name]))
                          (metadata (with_ignore_list m st)))
            (with_ignore_list m st)).
Proof.
  intros H.
  assert (Hl : exists l,
             nth_error (metadata (with_ignore_list m st)) (list_of st m) = Some (Some l)
             /\ forall q, existsb (String.eqb q) l = ignores st m q).
  { unfold with_ignore_list, list_of, ignores. rewrite H.
    destruct (list_holder st m) as [h |] eqn:E.
    - destruct (holder_has_list _ _ _ E) as (l & Hl). exists l.
      split; [exact Hl |]. intros q. unfold listed. rewrite Hl. reflexivity.
    - exists []. split; [| reflexivity]. simpl.
      apply nth_error_update_nth_eq. apply nth_error_Some. congruence. }
  destruct Hl as (l & Hl & Hsame). exists l.
  split; [exact Hl |]. split; [exact Hsame |].
  unfold ObservationIgnored. simpl.
  rewrite (bind_Normal _ _ _ (eq_trans (ignoredProps_of_run m st)
                                 (f_equal (fun o => match o with
                                                    | Some _ => _
                                                    | None => _
                                                    end) H))).
  unfold push, modify. rewrite Hl. reflexivity.
Qed.

Lemma ObservationIgnored_adds k name m st st' :
  ObservationIgnored (mkContext k (KStr name) (Some m)) st = (Normal tt, st') ->
  forall q, ignores st' m q = ignores st m q || String.eqb q name.
Proof.
  intros H q.
  destruct (nth_error (metadata st) m) as [entry |] eqn:E.
  - destruct (@ObservationIgnored_run k name m entry st E) as (l & Hl & Hsame & Hrun).
    rewrite Hrun in H. inversion H. clear H.
    rewrite ignores_listed.
    rewrite (@list_of_update_list _ _ _ _ _ Hl), list_of_with_ignore_list.
    rewrite (ignores_push _ _ name q Hl). f_equal.
    unfold listed. rewrite Hl. apply Hsame.
  - unfold ObservationIgnored in H. simpl in H.
    unfold bind in H. rewrite ignoredProps_of_run, E in H. discriminate.
Qed.

(** X1: on a member with a string name, whatever its kind, the ignore
    marker returns and puts the name on the ignore list that the metadata
    object of the class gives: its own list, or else the list it inherits
    through its prototype chain, or else a list made for it. The names
    already on that list stay on it and no other name gets on it. When a list
    is found, it alone changes, by the name at its end, no list is made, and
    every class that gets its list there ignores the name from then on, the
    class that holds the list included, while the classes with another list
    ignore what they ignored; when none is found, the metadata object of the
    class gets a list of its own with the one name. The prototype links and
    the heap are untouched. *)
Theorem ObservationIgnored_registers k name m entry st :
  nth_error (metadata st) m = Some entry ->
  exists st',
    ObservationIgnored (mkContext k (KStr name) (Some m)) st = (Normal tt, st')
    /\ ignores st' m name = true
    /\ (forall q, ignores st' m q = ignores st m q || String.eqb q name)
    /\ (forall h, list_holder st m = Some h ->
        exists l,
          nth_error (metadata st) h = Some (Some l)
          /\ metadata st' = update_nth h (Some (l ++ [name])) (metadata st)
          /\ (forall m' q, list_holder st m' = Some h ->
                 ignores st' m' q = ignores st m' q || String.eqb q name)
          /\ (forall m' q, list_holder st m' <> Some h ->
                 ignores st' m' q = ignores st m' q))
    /\ (list_holder st m = None ->
        metadata st' = update_nth m (Some [name]) (metadata st))
    /\ protos st' = protos st
    /\ heap st' = heap st.
Proof.
  intros H.
  destruct (@ObservationIgnored_run k name m entry st H) as (l & Hl & Hsame & Hrun).
  eexists. split; [exact Hrun |].
  pose proof (@ObservationIgnored_adds _ _ _ _ _ Hrun) as Hq.
  split; [rewrite Hq, String.eqb_refl; apply orb_true_r |].
  split; [exact Hq |].
  split; [| split; [| split]].
  - intros h Hh.
    assert (W : with_ignore_list m st = st)
      by (unfold with_ignore_list; rewrite H, Hh; reflexivity).
    assert (Lo : list_of st m = h) by (unfold list_of; rewrite Hh; reflexivity).
    rewrite W, Lo in *. exists l.
    split; [exact Hl |]. split; [reflexivity |].
    split.
    + intros m' q Hm'. unfold ignores at 1 2.
      rewrite (@list_holder_update_list _ _ _ _ _ Hl), Hm'.
      apply (ignores_push _ _ name q Hl).
    + intros m' q Hm'. unfold ignores at 1 2.
      rewrite (@list_holder_update_list _ _ _ _ _ Hl).
      destruct (list_holder st m') as [h' |]; [| reflexivity].
      unfold listed. simpl.
      rewrite nth_error_update_nth_neq by congruence. reflexivity.
  - intros Hnone.
    assert (Lo : list_of st m = m) by (unfold list_of; rewrite Hnone; reflexivity).
    assert (W : with_ignore_list m st
                = set_metadata (update_nth m (Some []) (metadata st)) st)
      by (unfold with_ignore_list; rewrite H, Hnone; reflexivity).
    rewrite Lo, W in *. simpl in Hl.
    assert (l = []).
    { rewrite nth_error_update_nth_eq in Hl by (apply nth_error_Some; congruence).
      congruence. }
    subst l. simpl. apply update_nth_twice.
  - simpl. apply with_ignore_list_protos.
  - simpl. apply with_ignore_list_rest.
Qed.

(** The metadata object of a class that extends another inherits from the
    metadata object of that class: the marker, used in the subclass, writes
    on the list of the parent class, and the subclass gets no list. *)
Example marker_in_a_subclass_writes_the_parent_list :
  ObservationIgnored (mkContext "field" (KStr "hidden") (Some 1)) parent_and_child
  = (Normal tt, set_metadata [Some ["secret"; "hidden"]; None] parent_and_child)
  /\ ignores parent_and_child 0 "hidden" = false
  /\ ignores (set_metadata [Some ["secret"; "hidden"]; None] parent_and_child) 0 "hidden"
     = true.
Proof. repeat split. Qed.

Lemma ObservationIgnored_registers_witness :
  exists st',
    ObservationIgnored (mkContext "field" (KStr "hidden") (Some 1)) parent_and_child
    = (Normal tt, st')
    /\ ignores st' 1 "hidden" = true
    /\ (forall q, ignores st' 1 q = ignores parent_and_child 1 q || String.eqb q "hidden")
    /\ (forall h, list_holder parent_and_child 1 = Some h ->
        exists l,
          nth_error (metadata parent_and_child) h = Some (Some l)
          /\ metadata st' = update_nth h (Some (l ++ ["hidden"])) (metadata parent_and_child)
          /\ (forall m' q, list_holder parent_and_child m' = Some h ->
                 ignores st' m' q = ignores parent_and_child m' q || String.eqb q "hidden")
          /\ (forall m' q, list_holder parent_and_child m' <> Some h ->
                 ignores st' m' q = ignores parent_and_child m' q))
    /\ (list_holder parent_and_child 1 = None ->
        metadata st' = update_nth 1 (Some ["hidden"]) (metadata parent_and_child))
    /\ protos st' = protos parent_and_child
    /\ heap st' = heap parent_and_child.
Proof.
  apply (@ObservationIgnored_registers "field" "hidden" 1 None parent_and_child).
  reflexivity.
Defined.

(** X2: without a metadata object the marker throws a TypeError and changes
    nothing, and so does the constructor of a decorated class, once the
    constructor of the parent class has run: the instance stays as the
    parent built it, no property of it is wrapped. *)
Theorem no_metadata_object_is_a_TypeError _target args st this st1 k name :
  _target None args st = (Normal this, st1) ->
  Observed _target None args st
  = (Throw (TypeError "Cannot read properties of undefined"), st1)
  /\ ObservationIgnored (mkContext k (KStr name) None) st1
     = (Throw (TypeError "Cannot read properties of undefined"), st1).
Proof.
  intros H. split; [| reflexivity].
  unfold Observed. rewrite (bind_Normal _ _ _ H). reflexivity.
Qed.

Lemma no_metadata_object_is_a_TypeError_witness :
  Observed Car None [] car_metadata
  = (Throw (TypeError "Cannot read properties of undefined"), car_built)
  /\ ObservationIgnored (mkContext "field" (KStr "name") None) car_built
     = (Throw (TypeError "Cannot read properties of undefined"), car_built).
Proof.
  apply (@no_metadata_object_is_a_TypeError Car [] car_metadata 0 car_built
           "field" "name").
  vm_compute; reflexivity.
Defined.

(** What every step of the wrapping loop preserves, the construction
    preserves from the state in which the loop starts. *)
Lemma Observed_pass (R : state -> state -> Prop) _target m args st this st1 r st' :
  (forall s, R s s) ->
  (forall a b c, R a b -> R b c -> R a c) ->
  (forall ign q, preserves R (wrap_property this ign q)) ->
  _target (Some m) args st = (Normal this, st1) ->
  Observed _target (Some m) args st = (r, st') ->
  R (with_ignore_list m st1) st' \/ st' = st1.
Proof.
  intros Rr Rt Hw H HO. rewrite (Observed_run _ _ _ _ H) in HO.
  destruct (nth_error (metadata st1) m) as [entry |];
    [| right; inversion HO; reflexivity].
  destruct (nth_error (heap st1) this) as [ob |];
    [| left; inversion HO; apply Rr].
  destruct (for_each (own_names ob) (wrap_property this (list_of st1 m)) (with_ignore_list m st1))
    as [r0 s0] eqn:L.
  assert (HR : R (with_ignore_list m st1) s0).
  { clear HO. revert L. generalize (with_ignore_list m st1).
    induction (own_names ob) as [| q rest IH]; intros s L.
    - inversion L. apply Rr.
    - simpl in L.
      destruct (bind_inv _ _ _ L) as [(a & s1 & H1 & H2) | [(t & H1 & _) | (H1 & _)]].
      + eapply Rt; [eapply Hw; exact H1 | apply IH; exact H2].
      + eapply Hw; exact H1.
      + eapply Hw; exact H1. }
  left. destruct r0; inversion HO; subst; exact HR.
Qed.

(** The prototype links of the metadata objects are not the constructor's
    to change, and the ignore lists are read only. *)
Lemma with_prop_protos o k p st : protos (with_prop o k p st) = protos st.
Proof. unfold with_prop. destruct (nth_error (heap st) o); reflexivity. Qed.

Lemma wrap_property_protos this ign q :
  preserves (fun a b => protos b = protos a /\ metadata b = metadata a)
    (wrap_property this ign q).
Proof.
  intros st r st' H.
  destruct (wrap_property_cases _ _ _ _ H)
    as [(_ & _ & ->) | [(_ & _ & -> & _) | (p & cell & st_c & Hi & Hp & Hc & Hrest)]];
    auto.
  assert (Hc' : protos st_c = protos st /\ metadata st_c = metadata st).
  { rewrite backing_cell_run in Hc. destruct (_ || _); inversion Hc; auto. }
  destruct Hrest as [(-> & _) | (p1 & _ & _ & [(-> & _) | (p2 & _ & _ & ->)])];
    rewrite ?with_prop_protos;
    repeat (match goal with
            | |- context [metadata (with_prop ?o ?k ?p ?s)] =>
                replace (metadata (with_prop o k p s)) with (metadata s)
                  by (symmetry; apply with_prop_rest)
            end);
    exact Hc'.
Qed.

Lemma Observed_ignores _target m args st this st1 r st' :
  _target (Some m) args st = (Normal this, st1) ->
  Observed _target (Some m) args st = (r, st') ->
  forall m' q, ignores st' m' q = ignores st1 m' q.
Proof.
  intros H HO m' q.
  destruct (@Observed_pass (fun a b => protos b = protos a /\ metadata b = metadata a)
              _target m args st this st1 r st') as [(Hp & Hm) | ->]; auto.
  - intros a b c (P1 & M1) (P2 & M2). split; congruence.
  - apply wrap_property_protos.
  - rewrite <- (ignores_with_ignore_list_any m st1 m' q).
    apply ignores_same_store; [exact Hm | exact Hp].
Qed.

(** ** What a construction touches *)

(** The own properties a construction may redefine. *)
Lemma Observed_touches _target m args st this st1 r st' :
  _target (Some m) args st = (Normal this, st1) ->
  Observed _target (Some m) args st = (r, st') ->
  (exists cs, cells st' = cells st1 ++ cs)
  /\ (exists ds, symbols st' = symbols st1 ++ ds)
  /\ (metadata st' = metadata (with_ignore_list m st1) \/ st' = st1)
  /\ forall o k,
      get_own st' o k = get_own st1 o k
      \/ (o = this
          /\ ((exists q, k = KStr q /\ ignores st1 m q = false
                         /\ get_own st1 this (KStr q) <> None)
              \/ exists n, k = KSym n /\ List.length (symbols st1) <= n)).
Proof.
  intros H HO.
  set (all := match nth_error (heap st1) this with
              | Some ob => filter (fun q => negb (ignores st1 m q)) (own_names ob)
              | None => []
              end).
  destruct (with_ignore_list_rest m st1) as (Wh & Ws & Wc).
  destruct (@Observed_frame _target m args st this st1 r st' all H HO)
    as [([ds S] & [cs C] & Hm & F) | ->].
  - intros ob q Hob Hq Hiq. unfold all. rewrite Hob.
    apply filter_In. split; [exact Hq |]. rewrite Hiq. reflexivity.
  - split; [exists cs; congruence |]. split; [exists ds; congruence |].
    split; [left; exact Hm |].
    intros o k.
    rewrite <- (@get_own_same_heap st1 (with_ignore_list m st1) o k Wh).
    destruct (F o k) as [E | (Ho & [(q & Hq & Hin) | (n & Hn & Hr)])].
    + left. exact E.
    + right. split; [exact Ho |]. left. exists q. split; [exact Hq |].
      unfold all in Hin. destruct (nth_error (heap st1) this) as [ob |] eqn:Hob;
        [| contradiction].
      apply filter_In in Hin. destruct Hin as [Hin Hig].
      split; [destruct (ignores st1 m q); [discriminate | reflexivity] |].
      unfold get_own. rewrite Hob. destruct ob as [ps e].
      apply In_own_names in Hin. simpl.
      clear - Hin. induction ps as [| [k' p'] rest IH]; simpl in *; [contradiction |].
      destruct (key_eqb k' (KStr q)) eqn:E; [discriminate |].
      apply IH. destruct Hin as [Hk | Hin]; [| exact Hin].
      subst k'. rewrite key_eqb_refl in E. discriminate.
    + right. split; [exact Ho |]. right. exists n. split; [exact Hn |].
      rewrite Ws in Hr. lia.
  - split; [exists []; symmetry; apply app_nil_r |].
    split; [exists []; symmetry; apply app_nil_r |].
    split; [right; reflexivity |]. intros o k. left. reflexivity.
Qed.



Lemma ObservationIgnored_marks k name m st st' :
  ObservationIgnored (mkContext k (KStr name) (Some m)) st = (Normal tt, st') ->
  ignores st' m name = true.
Proof.
  intros H. rewrite (@ObservationIgnored_adds _ _ _ _ _ H), String.eqb_refl.
  apply orb_true_r.
Qed.

(** X4: the marker and the constructor work together: a property that the
    marker has registered, on a list that has not lost the name since, comes
    out of every construction with the descriptor the constructor of the
    parent class gave it, and reading it, when it is a field, answers the
    stored value and leaves the whole state as it is, so that no dependency
    is recorded. *)
Theorem marked_property_is_not_observed k name m st0 st_d _target args st this st1 r st' :
  ObservationIgnored (mkContext k (KStr name) (Some m)) st0 = (Normal tt, st_d) ->
  _target (Some m) args st = (Normal this, st1) ->
  (ignores st_d m name = true -> ignores st1 m name = true) ->
  Observed _target (Some m) args st = (r, st') ->
  get_own st' this (KStr name) = get_own st1 this (KStr name)
  /\ forall v w e c fuel,
      get_own st1 this (KStr name) = Some (Data v w e c) ->
      Get fuel this (KStr name) st' = (Normal v, st').
Proof.
  intros Hd H Hkeep HO.
  pose proof (Hkeep (ObservationIgnored_marks _ _ _ _ Hd)) as Hi.
  assert (Hsame : get_own st' this (KStr name) = get_own st1 this (KStr name)).
  { destruct (Observed_touches _ _ _ _ H HO) as (_ & _ & _ & F).
    destruct (F this (KStr name)) as [E | (_ & [(q & Hq & Hiq & _) | (n & Hq & _)])];
      [exact E | | discriminate].
    inversion Hq; subst q. congruence. }
  split; [exact Hsame |].
  intros v w e c fuel Hv. apply Get_data with (w := w) (e := e) (c := c).
  congruence.
Qed.

Lemma marked_property_is_not_observed_witness :
  get_own car_observed 0 (KStr "skip") = get_own car_built 0 (KStr "skip")
  /\ forall v w e c fuel,
      get_own car_built 0 (KStr "skip") = Some (Data v w e c) ->
      Get fuel 0 (KStr "skip") car_observed = (Normal v, car_observed).
Proof.
  apply (@marked_property_is_not_observed "field" "skip" 0 one_class
           (set_metadata [Some ["skip"]] initial_state)
           Car [] car_metadata 0 car_built (Normal 0) car_observed).
  - reflexivity.
  - exact Car_returns.
  - intros _. vm_compute; reflexivity.
  - exact Observed_Car_returns.
Defined.

(** ** The engine during a construction *)

Lemma silent_refl st : silent st st.
Proof. unfold silent. repeat split. Qed.

Lemma silent_trans a b c : silent a b -> silent b c -> silent a c.
Proof.
  unfold silent. intros (A1 & A2 & A3 & A4 & A5 & A6 & A7) (B1 & B2 & B3 & B4 & B5 & B6 & B7).
  repeat split; congruence.
Qed.

Lemma silent_with_prop o k p st : silent st (with_prop o k p st).
Proof.
  unfold silent, with_prop. destruct (nth_error (heap st) o); repeat split.
Qed.

Lemma silent_backing_cell v : preserves silent (backing_cell v).
Proof.
  intros st r st' H. rewrite backing_cell_run in H.
  destruct (String.eqb (typeof v) "object" || strict_equal v (VString "undefined"));
    inversion H; unfold silent; repeat split.
Qed.

Lemma silent_wrap_property this m q : preserves silent (wrap_property this m q).
Proof.
  intros st r st' H.
  assert (S0 : silent st (set_symbols (symbols st ++ [("__$$" ++ q)%string]) st))
    by (unfold silent; repeat split).
  destruct (wrap_property_cases _ _ _ _ H)
    as [(_ & _ & ->) | [(_ & _ & -> & _) | (p & cell & st_c & _ & _ & Hc & Hrest)]];
    try apply silent_refl.
  pose proof (silent_trans S0 (silent_backing_cell _ _ Hc)) as S1.
  destruct Hrest as [(-> & _) | (p1 & _ & _ & [(-> & _) | (p2 & _ & _ & ->)])].
  - exact S1.
  - eapply silent_trans; [exact S1 | apply silent_with_prop].
  - eapply silent_trans; [exact S1 |].
    eapply silent_trans; apply silent_with_prop.
Qed.

(** X5: the wrapping done by a construction is invisible to the engine:
    however the construction ends, and also inside a running effect with
    tracking on, it records no dependency, schedules no effect, creates no
    effect and leaves the tracking setting as the constructor of the parent
    class left it. *)
Theorem construction_is_silent _target m args st this st1 r st' :
  _target (Some m) args st = (Normal this, st1) ->
  Observed _target (Some m) args st = (r, st') ->
  silent st1 st'.
Proof.
  intros H HO.
  destruct (@Observed_pass silent _target m args st this st1 r st'
              silent_refl silent_trans (silent_wrap_property this) H HO)
    as [S | ->]; [| apply silent_refl].
  eapply silent_trans; [| exact S].
  destruct (with_ignore_list_cases m st1) as [-> | (_ & _ & ->)];
    [apply silent_refl | unfold silent; repeat split].
Qed.

Lemma construction_is_silent_witness : silent car_built car_observed.
Proof.
  exact (@construction_is_silent Car 0 [] car_metadata 0 car_built
           (Normal 0) car_observed Car_returns Observed_Car_returns).
Defined.

(** ** The names of an instance *)

Lemma names_store_prop ps k p :
  (forall s, k = KStr s -> lookup_prop ps k <> None) ->
  index_names (store_prop ps k p) = index_names ps
  /\ plain_names (store_prop ps k p) = plain_names ps.
Proof.
  induction ps as [| [k' q] rest IH]; intros Hk.
  - destruct k as [s | n]; [| split; reflexivity].
    exfalso. apply (Hk s); reflexivity.
  - simpl in *. destruct (key_eqb k' k) eqn:E.
    + apply key_eqb_eq in E. subst k'. split; reflexivity.
    + destruct (IH Hk) as (I1 & I2). simpl.
      destruct k' as [s' | n']; [| split; assumption].
      rewrite I1, I2. split; reflexivity.
Qed.

Lemma names_at_same_heap st st' o :
  heap st' = heap st -> names_at st' o = names_at st o.
Proof. intros H. unfold names_at. rewrite H. reflexivity. Qed.

Lemma names_at_with_prop o k p st o' :
  (forall s, k = KStr s -> get_own st o k <> None) ->
  names_at (with_prop o k p st) o' = names_at st o'.
Proof.
  intros Hk. unfold with_prop, names_at.
  destruct (nth_error (heap st) o) as [ob |] eqn:Hob; [| reflexivity].
  simpl. destruct (Nat.eq_dec o o') as [<- | Ho].
  - rewrite nth_error_update_nth_eq by (apply nth_error_Some; congruence).
    rewrite Hob. simpl. unfold own_names. simpl.
    destruct (@names_store_prop (props ob) k p) as (I1 & I2).
    + intros s Hs. specialize (Hk s Hs). unfold get_own in Hk. rewrite Hob in Hk.
      exact Hk.
    + rewrite I1, I2. reflexivity.
  - rewrite nth_error_update_nth_neq by exact Ho. reflexivity.
Qed.

Lemma names_wrap_property this m q :
  preserves (fun a b => forall o, names_at b o = names_at a o) (wrap_property this m q).
Proof.
  intros st r st' H o.
  destruct (wrap_property_cases _ _ _ _ H)
    as [(_ & _ & ->) | [(_ & _ & -> & _) | (p & cell & st_c & _ & Hp & Hc & Hrest)]];
    try reflexivity.
  destruct (backing_cell_frame _ _ Hc) as (Hh & _).
  simpl in Hh.
  assert (N1 : forall p1, names_at (with_prop this (KSym (List.length (symbols st))) p1 st_c) o
                          = names_at st o).
  { intros p1. rewrite names_at_with_prop by (intros s Hs; discriminate).
    apply names_at_same_heap. exact Hh. }
  destruct Hrest as [(-> & _) | (p1 & _ & _ & [(-> & _) | (p2 & _ & _ & ->)])].
  - apply names_at_same_heap. exact Hh.
  - apply N1.
  - rewrite names_at_with_prop; [apply N1 |].
    intros s _. rewrite get_own_with_prop_neq by congruence.
    rewrite (@get_own_same_heap st st_c this (KStr q) Hh). congruence.
Qed.

Lemma Observed_names _target m args st this st1 r st' :
  _target (Some m) args st = (Normal this, st1) ->
  Observed _target (Some m) args st = (r, st') ->
  forall o, names_at st' o = names_at st1 o.
Proof.
  intros H HO.
  destruct (@Observed_pass (fun a b => forall o, names_at b o = names_at a o)
              _target m args st this st1 r st') as [S | ->]; auto.
  - intros a b c Hab Hbc o'. rewrite Hbc. apply Hab.
  - apply names_wrap_property.
  - intros o'. rewrite S. apply names_at_same_heap.
    apply with_ignore_list_rest.
Qed.

(** X6: a construction adds no name to an object and removes none: however
    it ends, [Object.getOwnPropertyNames] lists for every object, the new
    instance included, the names it ignores when the constructor of the
    parent class returned, in the same order; the backing slots are under
    symbols and are not listed. *)
Theorem construction_keeps_the_own_names _target m args st this st1 r st' o :
  _target (Some m) args st = (Normal this, st1) ->
  Observed _target (Some m) args st = (r, st') ->
  names_at st' o = names_at st1 o
  /\ fst (getOwnPropertyNames o st') = fst (getOwnPropertyNames o st1).
Proof.
  intros H HO.
  pose proof (@Observed_names _target m args st this st1 r st' H HO o) as Hn.
  split; [exact Hn |].
  unfold names_at in Hn. unfold getOwnPropertyNames.
  destruct (nth_error (heap st') o), (nth_error (heap st1) o); simpl in *;
    congruence.
Qed.

Lemma construction_keeps_the_own_names_witness :
  names_at car_observed 0 = names_at car_built 0
  /\ fst (getOwnPropertyNames 0 car_observed) = fst (getOwnPropertyNames 0 car_built).
Proof.
  exact (@construction_keeps_the_own_names Car 0 [] car_metadata 0 car_built
           (Normal 0) car_observed 0 Car_returns Observed_Car_returns).
Defined.

(** ** Reading a wrapped property *)

(** Reading, through the backing cell made for it, a value that is not a
    ref cell: the value comes back, wrapped if it is an object. *)
Lemma Get_backed_wrapped fuel st this prop s cell v :
  backed st this prop s cell ->
  cell_for st v cell ->
  isRef v = false ->
  fst (Get (S fuel) this (KStr prop) st) = Normal (reactive v).
Proof.
  intros Hb Hcf Hv. unfold cell_for in Hcf. destruct (_ || _).
  - subst cell. rewrite (Get_backed_plain fuel Hb (isRef_reactive _ Hv)). reflexivity.
  - destruct Hcf as (c & -> & Hc).
    rewrite (Get_backed_ref fuel Hb), ref_get_value.
    destruct (nth_error_nth_default _ _ VUndefined Hc) as [-> _].
    unfold toReactive. rewrite reactive_toRaw. reflexivity.
Qed.

Lemma Observed_reads fuel _target m args st this st1 st' prop p :
  _target (Some m) args st = (Normal this, st1) ->
  Observed _target (Some m) args st = (Normal this, st') ->
  fresh_symbols st1 ->
  distinct_keys st1 this ->
  ignores st1 m prop = false ->
  get_own st1 this (KStr prop) = Some p ->
  isRef (descriptor_value p) = false ->
  fst (Get (S fuel) this (KStr prop) st') = Normal (reactive (descriptor_value p)).
Proof.
  intros H HO Hf Hd Hi Hp Hv.
  destruct (@Observed_backs _target m args st this st1 st' prop p H HO Hf Hd Hi Hp)
    as (s & cell & _ & Hb & Hcf).
  exact (@Get_backed_wrapped fuel st' this prop s cell _ Hb Hcf Hv).
Qed.

(** X7: right after a construction that returns, reading an own property
    that is not ignored answers the value the constructor of the parent
    class stored, whatever it is short of a ref cell: a primitive as it is,
    an object as its reactive wrapper.  When the property was an accessor
    pair, its getter is never called: the read answers [undefined]. *)
Theorem property_reads_the_wrapped_initial_value
    _target m args st this st1 st' prop p fuel :
  _target (Some m) args st = (Normal this, st1) ->
  Observed _target (Some m) args st = (Normal this, st') ->
  fresh_symbols st1 ->
  distinct_keys st1 this ->
  ignores st1 m prop = false ->
  get_own st1 this (KStr prop) = Some p ->
  match p with
  | Data v _ _ _ =>
      isRef v = false ->
      fst (Get (S fuel) this (KStr prop) st') = Normal (reactive v)
  | Accessor _ _ _ _ =>
      fst (Get (S fuel) this (KStr prop) st') = Normal VUndefined
  end.
Proof.
  intros H HO Hf Hd Hi Hp. destruct p as [v w e c | g s e c].
  - intros Hv.
    exact (@Observed_reads fuel _target m args st this st1 st' prop _ H HO Hf Hd Hi Hp Hv).
  - exact (@Observed_reads fuel _target m args st this st1 st' prop _
             H HO Hf Hd Hi Hp eq_refl).
Qed.

Lemma property_reads_the_wrapped_initial_value_witness :
  fst (Get 1 0 (KStr "owner") car_observed) = Normal (reactive VNull).
Proof.
  assert (Hi : ignores car_built 0 "owner" = false) by (vm_compute; reflexivity).
  assert (Hp : get_own car_built 0 (KStr "owner") = Some (Data VNull true true true))
    by (vm_compute; reflexivity).
  exact (@property_reads_the_wrapped_initial_value Car 0 [] car_metadata 0
           car_built car_observed "owner" (Data VNull true true true) 0
           Car_returns Observed_Car_returns Car_fresh_symbols Car_distinct_keys
           Hi Hp eq_refl).
Defined.

(** ** Decorating twice *)

Lemma In_store_keys ps k p x :
  In x (map fst (store_prop ps k p)) -> x = k \/ In x (map fst ps).
Proof.
  induction ps as [| [k' q] rest IH]; simpl.
  - intros [<- | []]. auto.
  - destruct (key_eqb k' k) eqn:E; simpl.
    + apply key_eqb_eq in E. subst k'. tauto.
    + intros [<- | Hin]; [tauto |]. destruct (IH Hin); tauto.
Qed.

Lemma NoDup_store_keys ps k p :
  NoDup (map fst ps) -> NoDup (map fst (store_prop ps k p)).
Proof.
  induction ps as [| [k' q] rest IH]; simpl; intros Hn.
  - constructor; [intros [] | constructor].
  - inversion Hn as [| ? ? Hnot Hrest]; subst.
    destruct (key_eqb k' k) eqn:E; simpl.
    + apply key_eqb_eq in E. subst k'. constructor; assumption.
    + constructor; [| apply IH; exact Hrest].
      intros Hin. apply In_store_keys in Hin. destruct Hin as [-> | Hin].
      * rewrite key_eqb_refl in E. discriminate.
      * contradiction.
Qed.

Lemma distinct_keys_same_heap st st' o :
  heap st' = heap st -> distinct_keys st o -> distinct_keys st' o.
Proof. unfold distinct_keys. intros ->. auto. Qed.

Lemma distinct_keys_with_prop o k p st o' :
  distinct_keys st o' -> distinct_keys (with_prop o k p st) o'.
Proof.
  unfold distinct_keys, with_prop. intros Hd ob' Hob'.
  destruct (nth_error (heap st) o) as [ob |] eqn:Hob; [| auto].
  simpl in Hob'. destruct (Nat.eq_dec o o') as [<- | Ho].
  - rewrite nth_error_update_nth_eq in Hob' by (apply nth_error_Some; congruence).
    inversion Hob'; subst ob'. simpl. apply NoDup_store_keys. apply Hd. exact Hob.
  - rewrite nth_error_update_nth_neq in Hob' by exact Ho. auto.
Qed.

Lemma distinct_keys_wrap_property this m q o :
  preserves (fun a b => distinct_keys a o -> distinct_keys b o) (wrap_property this m q).
Proof.
  intros st r st' H Hd.
  destruct (wrap_property_cases _ _ _ _ H)
    as [(_ & _ & ->) | [(_ & _ & -> & _) | (p & cell & st_c & _ & Hp & Hc & Hrest)]];
    try exact Hd.
  destruct (backing_cell_frame _ _ Hc) as (Hh & _). simpl in Hh.
  pose proof (@distinct_keys_same_heap st st_c o Hh Hd) as Hc'.
  destruct Hrest as [(-> & _) | (p1 & _ & _ & [(-> & _) | (p2 & _ & _ & ->)])].
  - exact Hc'.
  - apply distinct_keys_with_prop. exact Hc'.
  - apply distinct_keys_with_prop. apply distinct_keys_with_prop. exact Hc'.
Qed.

(** The shape that the wrapping relies on is kept by a construction. *)
Lemma Observed_keeps_shape _target m args st this st1 r st' :
  _target (Some m) args st = (Normal this, st1) ->
  Observed _target (Some m) args st = (r, st') ->
  fresh_symbols st1 ->
  distinct_keys st1 this ->
  fresh_symbols st' /\ distinct_keys st' this
  /\ forall q, ignores st' m q = ignores st1 m q.
Proof.
  intros H HO Hf Hd.
  destruct (with_ignore_list_rest m st1) as (Wh & Ws & _).
  split; [| split].
  - destruct (@Observed_frame _target m args st this st1 r st'
                (match nth_error (heap st1) this with
                 | Some ob => own_names ob
                 | None => []
                 end) H HO) as [C | ->]; [| | exact Hf].
    + intros ob q Hob Hq _. rewrite Hob. exact Hq.
    + eapply fresh_symbols_changes; [exact C |].
      apply (@fresh_symbols_same st1 (with_ignore_list m st1) Wh Ws Hf).
  - destruct (@Observed_pass (fun a b => distinct_keys a this -> distinct_keys b this)
                _target m args st this st1 r st') as [S | ->]; auto.
    + intros ign q. apply distinct_keys_wrap_property.
    + apply S. apply (@distinct_keys_same_heap st1 (with_ignore_list m st1) this Wh Hd).
  - intros q. apply (@Observed_ignores _ _ _ _ _ _ _ _ H HO).
Qed.

(** X8: decorating a class twice loses the initial values: in an instance of
    [Observed (Observed C)] every own property that is not ignored reads
    [undefined] right after the construction, whatever the constructor of
    [C] stored in it, because the second wrapping finds the accessor pair
    of the first and takes the [value] of its descriptor. *)
Theorem decorating_twice_loses_the_values
    _target m args st this st0 this' st' prop p fuel :
  _target (Some m) args st = (Normal this, st0) ->
  fresh_symbols st0 ->
  distinct_keys st0 this ->
  ignores st0 m prop = false ->
  get_own st0 this (KStr prop) = Some p ->
  Observed (Observed _target) (Some m) args st = (Normal this', st') ->
  this' = this
  /\ fst (Get (S fuel) this (KStr prop) st') = Normal VUndefined.
Proof.
  intros H Hf Hd Hi Hp HO.
  assert (Hin : exists this1 st1,
             Observed _target (Some m) args st = (Normal this1, st1)).
  { unfold Observed at 1 in HO.
    destruct (bind_inv _ _ _ HO) as [(a & s1 & H1 & _) | [(t & _ & Ht) | (_ & Ht)]];
      [eauto | discriminate | discriminate]. }
  destruct Hin as (this1 & st1 & H1).
  destruct (Observed_Normal_inv _ _ _ _ H H1) as (-> & _).
  destruct (Observed_Normal_inv _ _ _ _ H1 HO) as (-> & _).
  split; [reflexivity |].
  destruct (@Observed_keeps_shape _target m args st this st0 _ st1 H H1 Hf Hd)
    as (Hf1 & Hd1 & Hi1).
  destruct (@Observed_backs _target m args st this st0 st1 prop p H H1 Hf Hd Hi Hp)
    as (s & cell & _ & Hb & _).
  destruct Hb as ((e & c & Ha) & _).
  rewrite <- Hi1 in Hi.
  exact (@Observed_reads fuel (Observed _target) m args st this st1 st' prop _
           H1 HO Hf1 Hd1 Hi Ha eq_refl).
Qed.

Lemma decorating_twice_loses_the_values_witness :
  0 = 0
  /\ fst (Get 1 0 (KStr "name")
            (snd (Observed (Observed Car) (Some 0) [] car_metadata)))
     = Normal VUndefined.
Proof.
  apply (@decorating_twice_loses_the_values Car 0 [] car_metadata 0 car_built
           0 (snd (Observed (Observed Car) (Some 0) [] car_metadata))
           "name" (Data (VString "X") true true true) 0
           Car_returns Car_fresh_symbols Car_distinct_keys);
    vm_compute; reflexivity.
Defined.

(** ** Constructions that cannot be completed *)

Lemma defineProperty_outcome o k d st r st' :
  defineProperty o k d st = (r, st') ->
  o < List.length (heap st) ->
  r = Normal tt \/ r = Throw (TypeError "Cannot define property").
Proof.
  unfold defineProperty, bind, define_own. intros H Ho.
  destruct (nth_error (heap st) o) as [ob |] eqn:Hob.
  - destruct (validate_and_apply _ _ _); inversion H; auto.
  - apply nth_error_None in Hob. lia.
Qed.

(** A step of the wrapping loop on a property that exists returns or
    throws the TypeError of [Object.defineProperty]. *)
Lemma wrap_property_outcome this m q st r st' :
  wrap_property this m q st = (r, st') ->
  get_own st this (KStr q) <> None ->
  r = Normal tt \/ r = Throw (TypeError "Cannot define property").
Proof.
  intros H Hhas. unfold wrap_property in H.
  rewrite (bind_Normal _ _ _ (includes_run m q st)) in H.
  destruct (listed st m q); [inversion H; auto |].
  destruct (get_own st this (KStr q)) as [p |] eqn:Hp; [| contradiction].
  assert (Hd : getOwnPropertyDescriptor_value this (KStr q) st
               = (Normal (descriptor_value p), st)).
  { unfold getOwnPropertyDescriptor_value. rewrite Hp. reflexivity. }
  rewrite (bind_Normal _ _ _ Hd) in H. clear Hd.
  assert (Hs : Symbol ("__$$" ++ q) st
               = (Normal (List.length (symbols st)),
                  set_symbols (symbols st ++ [("__$$" ++ q)%string]) st))
    by reflexivity.
  rewrite (bind_Normal _ _ _ Hs) in H. clear Hs.
  set (st_s := set_symbols (symbols st ++ [("__$$" ++ q)%string]) st) in *.
  destruct (backing_cell (descriptor_value p) st_s) as [rc st_c] eqn:Hc.
  destruct (backing_cell_frame _ _ Hc) as (Hheap & _ & _ & _ & cell & ->).
  rewrite (bind_Normal _ _ _ Hc) in H.
  assert (Hlt : this < List.length (heap st_c)).
  { rewrite Hheap. simpl. exact (get_own_range _ _ _ Hp). }
  destruct (bind_inv _ _ _ H) as [([] & s1 & H1 & H2) | [(t & H1 & ->) | (H1 & ->)]].
  - apply (@defineProperty_outcome _ _ _ _ _ _ H2).
    destruct (defineProperty_inv _ _ _ _ H1) as [(p1 & _ & _ & _ & ->) | [-> _]];
      [rewrite with_prop_length |]; exact Hlt.
  - destruct (@defineProperty_outcome _ _ _ _ _ _ H1 Hlt) as [E | E];
      [discriminate | auto].
  - destruct (@defineProperty_outcome _ _ _ _ _ _ H1 Hlt); discriminate.
Qed.

Lemma has_name_iff st o q :
  get_own st o (KStr q) <> None <-> exists l, names_at st o = Some l /\ In q l.
Proof.
  unfold get_own, names_at.
  destruct (nth_error (heap st) o) as [[ps e] |]; simpl.
  - split.
    + intros H. exists (own_names (mkObject ps e)). split; [reflexivity |].
      apply In_own_names. destruct (lookup_prop ps (KStr q)) as [p |] eqn:E;
        [| contradiction].
      exact (lookup_prop_Some_In _ _ E).
    + intros (l & Hl & Hin). inversion Hl; subst l. apply In_own_names in Hin.
      clear - Hin. induction ps as [| [k' p'] rest IH]; simpl in *; [contradiction |].
      destruct (key_eqb k' (KStr q)) eqn:E; [discriminate |].
      apply IH. destruct Hin as [Hk | Hin]; [| exact Hin].
      subst k'. rewrite key_eqb_refl in E. discriminate.
  - split; [intros H; contradiction | intros (l & Hl & _); discriminate].
Qed.

Lemma wrapping_pass_outcome this m names : forall st r st',
  for_each names (wrap_property this m) st = (r, st') ->
  (forall q, In q names -> get_own st this (KStr q) <> None) ->
  r = Normal tt \/ r = Throw (TypeError "Cannot define property").
Proof.
  induction names as [| q rest IH]; intros st r st' H Hhas.
  - inversion H. auto.
  - simpl in H.
    destruct (bind_inv _ _ _ H) as [(a & s1 & H1 & H2) | [(t & H1 & ->) | (H1 & ->)]].
    + apply (IH _ _ _ H2). intros q' Hq'.
      apply has_name_iff. rewrite (@names_wrap_property this m q _ _ _ H1 this).
      apply has_name_iff. apply Hhas. right. exact Hq'.
    + destruct (@wrap_property_outcome _ _ _ _ _ _ H1 (Hhas q (or_introl eq_refl)));
        [discriminate | auto].
    + destruct (@wrap_property_outcome _ _ _ _ _ _ H1 (Hhas q (or_introl eq_refl)));
        discriminate.
Qed.

Lemma own_names_have_properties st this ob q :
  nth_error (heap st) this = Some ob -> In q (own_names ob) ->
  get_own st this (KStr q) <> None.
Proof.
  intros Hob Hq. apply has_name_iff. exists (own_names ob).
  unfold names_at. rewrite Hob. auto.
Qed.





(** The step of a loop that returns, for one of its names. *)
Lemma wrapping_pass_reaches this m prop names : forall st st',
  for_each names (wrap_property this m) st = (Normal tt, st') ->
  NoDup names ->
  In prop names ->
  exists st_q st_q',
    wrap_property this m prop st_q = (Normal tt, st_q')
    /\ get_own st_q this (KStr prop) = get_own st this (KStr prop)
    /\ listed st_q m prop = listed st m prop.
Proof.
  induction names as [| q rest IH]; intros st st' H Hnd Hin; [contradiction |].
  destruct (for_each_Normal_inv _ _ _ _ H) as (s1 & H1 & H2).
  inversion Hnd as [| ? ? Hnot Hrest]; subst.
  destruct (string_dec q prop) as [-> | Hne].
  - exists st, s1. auto.
  - destruct Hin as [Hq | Hin]; [contradiction |].
    destruct (IH _ _ H2 Hrest Hin) as (st_q & st_q' & Hw & Hg & Hi).
    exists st_q, st_q'. split; [exact Hw |].
    destruct (@wrap_property_changes this m q [q] st (Normal tt) s1 H1)
      as (_ & _ & Hm & F); [intros _; left; reflexivity |].
    split.
    + rewrite Hg.
      destruct (F this (KStr prop)) as [E | (_ & [(q' & Hq' & [<- | []]) | (n & Hn & _)])];
        [exact E | | discriminate].
      inversion Hq'. congruence.
    + rewrite Hi. unfold listed. rewrite Hm. reflexivity.
Qed.

(** X10: an own field that is not configurable cannot be turned into an
    accessor pair: unless it is ignored, the construction throws the
    TypeError of [Object.defineProperty] and returns no instance. *)
Theorem non_configurable_field_stops_the_construction
    _target m args st this st1 prop v w e :
  _target (Some m) args st = (Normal this, st1) ->
  nth_error (metadata st1) m <> None ->
  distinct_keys st1 this ->
  get_own st1 this (KStr prop) = Some (Data v w e false) ->
  ignores st1 m prop = false ->
  exists st',
    Observed _target (Some m) args st
    = (Throw (TypeError "Cannot define property"), st').
Proof.
  intros H Hm Hd Hp Hi. rewrite (Observed_run _ _ _ _ H).
  destruct (nth_error (metadata st1) m) as [entry |]; [| contradiction].
  destruct (get_own_heap _ _ _ Hp) as (ob & Hob & Hl). rewrite Hob.
  destruct (with_ignore_list_rest m st1) as (Wh & Ws & _).
  destruct (for_each (own_names ob) (wrap_property this (list_of st1 m)) (with_ignore_list m st1))
    as [r0 s0] eqn:L.
  assert (Hin : In prop (own_names ob)).
  { destruct ob as [ps e0]. apply In_own_names. exact (lookup_prop_Some_In _ _ Hl). }
  destruct (@wrapping_pass_outcome this (list_of st1 m) _ _ _ _ L) as [-> | ->].
  - intros q Hq. apply (@own_names_have_properties _ this ob q); [| exact Hq].
    rewrite Wh. exact Hob.
  - exfalso.
    destruct (@wrapping_pass_reaches this (list_of st1 m) prop _ _ _ L) as (st_q & st_q' & Hw & Hg & Hi').
    { destruct ob as [ps e0]. apply NoDup_own_names. exact (Hd _ Hob). }
    { exact Hin. }
    rewrite (@get_own_same_heap st1 (with_ignore_list m st1) this (KStr prop) Wh), Hp in Hg.
    rewrite listed_with_ignore_list, Hi in Hi'.
    destruct (wrap_property_cases _ _ _ _ Hw)
      as [(Hi2 & _) | [(_ & Hn & _) | (p & cell & st_c & _ & Hp2 & _ & Hrest)]];
      [congruence | congruence |].
    destruct Hrest as [(_ & Hr) | (p1 & _ & _ & [(_ & Hr) | (p2 & Hv & _)])];
      [contradiction | contradiction |].
    rewrite Hg in Hp2. inversion Hp2; subst p.
    unfold validate_and_apply in Hv. simpl in Hv. discriminate.
  - exists s0. reflexivity.
Qed.

Lemma non_configurable_field_stops_the_construction_witness :
  exists st',
    Observed Pinned (Some 0) [] one_class
    = (Throw (TypeError "Cannot define property"), st').
Proof.
  apply (@non_configurable_field_stops_the_construction Pinned 0 [] one_class 0
           (snd (Pinned (Some 0) [] one_class)) "name" (VString "X") true false).
  - reflexivity.
  - discriminate.
  - intros ob Hob. vm_compute in Hob. inversion Hob; subst. simpl.
    constructor; [intros [] | constructor].
  - reflexivity.
  - reflexivity.
Defined.

(** ** Properties and the engine *)

(** X11: a property whose initial value is an object, [null] included, is
    backed by the reactive wrapper of the value, not by a ref cell, and is
    never tracked: while its slot holds such a wrapper, reading the property
    answers the wrapper and leaves the whole state as it is, so that no
    effect comes to depend on it, and assigning to it schedules no effect
    and touches no cell. *)
Theorem object_valued_property_is_not_tracked
    _target m args st this st1 st' prop v w e c :
  _target (Some m) args st = (Normal this, st1) ->
  Observed _target (Some m) args st = (Normal this, st') ->
  fresh_symbols st1 ->
  distinct_keys st1 this ->
  ignores st1 m prop = false ->
  get_own st1 this (KStr prop) = Some (Data v w e c) ->
  typeof v = "object" ->
  isRef v = false ->
  exists s,
    backed st' this prop s (reactive v)
    /\ forall st_l cell fuel,
        backed st_l this prop s cell ->
        isRef cell = false ->
        Get (S fuel) this (KStr prop) st_l = (Normal cell, st_l)
        /\ forall x,
            exists st2,
              Set_ (S fuel) this (KStr prop) x st_l = (Normal tt, st2)
              /\ silent st_l st2
              /\ cells st2 = cells st_l
              /\ backed st2 this prop s (reactive x).
Proof.
  intros H HO Hf Hd Hi Hp Ht Hv.
  destruct (@Observed_backs _target m args st this st1 st' prop _ H HO Hf Hd Hi Hp)
    as (s & cell & _ & Hb & Hcf).
  unfold cell_for in Hcf. simpl in Hcf. rewrite Ht in Hcf. simpl in Hcf. subst cell.
  exists s. split; [exact Hb |].
  intros st_l cell fuel Hbl Hcell. split; [exact (Get_backed_plain fuel Hbl Hcell) |].
  intros x. exists (with_prop this (KSym s) (Data (reactive x) true false false) st_l).
  split; [exact (Set_backed_plain fuel x Hbl Hcell) |].
  split; [apply silent_with_prop |].
  split; [apply with_prop_rest |].
  exact (backed_with_slot (reactive x) Hbl).
Qed.

Lemma object_valued_property_is_not_tracked_witness :
  exists s,
    backed car_observed 0 "owner" s (reactive VNull)
    /\ forall st_l cell fuel,
        backed st_l 0 "owner" s cell ->
        isRef cell = false ->
        Get (S fuel) 0 (KStr "owner") st_l = (Normal cell, st_l)
        /\ forall x,
            exists st2,
              Set_ (S fuel) 0 (KStr "owner") x st_l = (Normal tt, st2)
              /\ silent st_l st2
              /\ cells st2 = cells st_l
              /\ backed st2 0 "owner" s (reactive x).
Proof.
  apply (@object_valued_property_is_not_tracked Car 0 [] car_metadata 0
           car_built car_observed "owner" VNull true true true
           Car_returns Observed_Car_returns Car_fresh_symbols Car_distinct_keys);
    vm_compute; reflexivity.
Defined.

Lemma existsb_cleanup e c d : existsb (same_dep e c) (cleanup e d) = false.
Proof.
  unfold cleanup. induction d as [| [a b] l IH]; simpl; [reflexivity |].
  destruct (Nat.eqb a e) eqn:E; simpl; [exact IH |].
  unfold same_dep at 1. simpl. rewrite E. simpl. exact IH.
Qed.

Lemma In_subscribers e c st : In (e, c) (deps st) -> In e (subscribers c st).
Proof.
  intros H. unfold subscribers.
  apply (in_map fst (filter (fun d => Nat.eqb (snd d) c) (deps st)) (e, c)).
  apply filter_In. split; [exact H |]. apply Nat.eqb_refl.
Qed.

(** X12: a property backed by a ref cell is tracked: a call of
    [withObservationTracking] whose function reads the property leaves the
    new effect with the cell of the property as its one dependency; from
    then on, assigning a different value to the property schedules the
    effect, and assigning the value it holds changes nothing at all. *)
Theorem tracked_property_notifies_its_effect fuel st this prop s c :
  backed st this prop s (VRef c) ->
  activeEffect st <> Some (effects st) ->
  exists st1,
    withObservationTracking (invoke (S fuel) (reads this prop)) None st
    = (Normal tt, st1)
    /\ deps_of (effects st) st1 = [c]
    /\ forall x,
        if strict_equal (toRaw x) (nth c (cells st1) VUndefined)
        then Set_ (S fuel) this (KStr prop) x st1 = (Normal tt, st1)
        else In (effects st)
               (trigger_queue (snd (Set_ (S fuel) this (KStr prop) x st1))).
Proof.
  intros Hb Hact.
  set (e := effects st) in *.
  set (s0 := set_effects (S e) st).
  set (sA := log (EvEnter "apply") (started e s0)).
  assert (HbA : backed sA this prop s (VRef c))
    by exact (@backed_same_heap st sA this prop s (VRef c) eq_refl eq_refl Hb).
  set (sB := set_deps (deps sA ++ [(e, c)]) sA).
  assert (Hget : Get (S fuel) this (KStr prop) sA
                 = (Normal (toReactive (nth c (cells st) VUndefined)), sB)).
  { rewrite (Get_backed_ref fuel HbA). unfold ref_get, bind, track, modify.
    change (activeEffect sA) with (Some e). change (shouldTrack sA) with true.
    change (deps sA) with (cleanup e (deps st)). cbv iota.
    rewrite existsb_cleanup. reflexivity. }
  set (st1 := finished s0 (log (EvLeave "apply") sB)).
  assert (Hrun : withObservationTracking (invoke (S fuel) (reads this prop)) None st
                 = (Normal tt, st1)).
  { rewrite withObservationTracking_run. fold e. fold s0.
    unfold run_effect, tracked, invoke, called.
    cbn [closure_name closure_body reads exec].
    unfold bind, ret, modify.
    change (log (EvEnter "apply") (started e (set_effects (S e) st))) with sA.
    rewrite Hget. reflexivity. }
  exists st1. split; [exact Hrun |].
  assert (Hdeps : deps st1 = cleanup e (deps st) ++ [(e, c)]) by reflexivity.
  split.
  - unfold deps_of. rewrite Hdeps, filter_app, map_app. simpl.
    rewrite Nat.eqb_refl. simpl.
    pose proof (deps_of_started e s0) as Hs. unfold deps_of in Hs.
    change (deps (started e s0)) with (cleanup e (deps st)) in Hs.
    rewrite Hs. reflexivity.
  - intros x.
    assert (Hb1 : backed st1 this prop s (VRef c))
      by exact (@backed_same_heap st st1 this prop s (VRef c) eq_refl eq_refl Hb).
    rewrite (Set_backed_ref fuel x Hb1).
    unfold ref_set.
    destruct (strict_equal (toRaw x) (nth c (cells st1) VUndefined)); [reflexivity |].
    unfold trigger, modify. simpl snd. simpl trigger_queue.
    apply in_or_app. right. apply filter_In. split.
    + apply In_subscribers.
      change (In (e, c) (cleanup e (deps st) ++ [(e, c)])).
      apply in_or_app. right. left. reflexivity.
    + unfold is_active.
      change (negb match activeEffect st with
                   | Some a => Nat.eqb a e
                   | None => false
                   end = true).
      destruct (activeEffect st) as [a |]; [| reflexivity].
      destruct (Nat.eqb a e) eqn:E; [| reflexivity].
      apply Nat.eqb_eq in E. congruence.
Qed.

Lemma tracked_property_notifies_its_effect_witness :
  exists st1,
    withObservationTracking (invoke 1 (reads 0 "name")) None car_observed
    = (Normal tt, st1)
    /\ deps_of (effects car_observed) st1 = [0]
    /\ forall x,
        if strict_equal (toRaw x) (nth 0 (cells st1) VUndefined)
        then Set_ 1 0 (KStr "name") x st1 = (Normal tt, st1)
        else In (effects car_observed)
               (trigger_queue (snd (Set_ 1 0 (KStr "name") x st1))).
Proof.
  apply (@tracked_property_notifies_its_effect 0 car_observed 0 "name" 0 0).
  - split; [| split].
    + exists true, true. vm_compute; reflexivity.
    + vm_compute; reflexivity.
    + vm_compute; reflexivity.
  - vm_compute. discriminate.
Defined.

Lemma repeat_false_shift n (l : list bool) :
  repeat false n ++ false :: l = false :: repeat false n ++ l.
Proof. induction n as [| n IH]; simpl; [reflexivity |]. rewrite IH. reflexivity. Qed.

Lemma stays_paused_refl st : shouldTrack st = false -> stays_paused st st.
Proof. intros H. unfold stays_paused. repeat split; auto. exists 0. reflexivity. Qed.

Lemma stays_paused_trans a b c :
  stays_paused a b -> stays_paused b c -> stays_paused a c.
Proof.
  intros (A1 & [n1 A2] & A3 & A4 & A5) (B1 & [n2 B2] & B3 & B4 & B5).
  unfold stays_paused. repeat split; try congruence.
  exists (n2 + n1). rewrite B2, A2, repeat_app. apply app_assoc.
Qed.

Lemma stays_paused_of_control st st' :
  control st st' -> shouldTrack st = false -> stays_paused st st'.
Proof.
  intros (C1 & C2 & C3 & C4 & _ & C6) Hs. unfold stays_paused.
  repeat split; try congruence.
  - exists 0. exact C2.
  - intros e. apply C6. left. exact Hs.
Qed.

Lemma stays_paused_log ev st : shouldTrack st = false -> stays_paused st (log ev st).
Proof. intros H. unfold stays_paused. repeat split; auto. exists 0. reflexivity. Qed.

(** A function that only reads, started with tracking paused. *)
Lemma exec_stays_paused fuel c :
  reads_only c ->
  forall st r st',
    shouldTrack st = false -> exec fuel c st = (r, st') -> stays_paused st st'.
Proof.
  induction c as [v | t | c k IH | c v k IH | o p k IH | o p v k IH
                  | f fn IHfn k IH | fa ap IHap k IH | fa ap IHap fo oc IHoc k IH
                  | body IHb handler IHh k IH];
    cbn [exec reads_only]; intros Hc st r st' Hs H; try contradiction.
  - inversion H; subst. apply stays_paused_refl, Hs.
  - inversion H; subst. apply stays_paused_refl, Hs.
  - destruct (bind_inv _ _ _ H) as [(a & s1 & H1 & H2) | [(t & H1 & _) | (H1 & _)]];
      pose proof (@stays_paused_of_control _ _ (@control_ref_get (VRef c) _ _ _ H1) Hs) as P1;
      [| exact P1 | exact P1].
    apply (@stays_paused_trans _ _ _ P1). apply (IH a (Hc a) _ _ _ (proj1 P1) H2).
  - destruct (bind_inv _ _ _ H) as [(a & s1 & H1 & H2) | [(t & H1 & _) | (H1 & _)]];
      pose proof (@stays_paused_of_control _ _ (@control_Get fuel o (KStr p) _ _ _ H1) Hs) as P1;
      [| exact P1 | exact P1].
    apply (@stays_paused_trans _ _ _ P1). apply (IH a (Hc a) _ _ _ (proj1 P1) H2).
  - destruct Hc as (Hfn & Hk).
    assert (P1 : forall r1 s1,
               ignoringObservation (called f (exec fuel fn)) st = (r1, s1) ->
               stays_paused st s1).
    { intros r1 s1 Hi. rewrite ignoringObservation_run in Hi. unfold called in Hi.
      rewrite bind_modify in Hi.
      set (s0 := log (EvEnter f) (paused st)) in *.
      assert (Hs0 : shouldTrack s0 = false) by reflexivity.
      assert (T0 : trackStack s0 = false :: trackStack st)
        by (unfold s0; simpl; rewrite Hs; reflexivity).
      assert (F0 : activeEffect s0 = activeEffect st /\ effects s0 = effects st
                   /\ forall e, deps_of e s0 = deps_of e st)
        by (repeat split).
      destruct F0 as (F1 & F2 & F3).
      unfold bind in Hi.
      destruct (exec fuel fn s0) as [[v | t |] s2] eqn:Hrun;
        destruct (IHfn Hfn _ _ _ Hs0 Hrun) as (Q1 & [n Q2] & Q3 & Q4 & Q5);
        rewrite T0, repeat_false_shift in Q2.
      - simpl in Hi. inversion Hi; subst r1 s1. unfold stays_paused, resumed.
        simpl trackStack. rewrite Q2. simpl.
        repeat split; try congruence.
        + exists n. reflexivity.
        + intros e. unfold deps_of in *. simpl. rewrite <- F3. apply Q5.
      - inversion Hi; subst r1 s1. unfold stays_paused.
        repeat split; try congruence.
        exists (S n). rewrite Q2. reflexivity.
      - inversion Hi; subst r1 s1. unfold stays_paused.
        repeat split; try congruence.
        exists (S n). rewrite Q2. reflexivity. }
    destruct (bind_inv _ _ _ H) as [(a & s1 & H1 & H2) | [(t & H1 & _) | (H1 & _)]];
      pose proof (P1 _ _ H1) as P;
      [| exact P | exact P].
    apply (@stays_paused_trans _ _ _ P). apply (IH a (Hk a) _ _ _ (proj1 P) H2).
  - destruct Hc as (Hb & Hh & Hk).
    assert (P1 : forall r1 s1,
               try_catch (exec fuel body) (fun t => exec fuel (handler t)) st = (r1, s1) ->
               stays_paused st s1).
    { intros r1 s1 Ht. unfold try_catch in Ht.
      destruct (exec fuel body st) as [[v | t |] s2] eqn:Hrun;
        pose proof (IHb Hb _ _ _ Hs Hrun) as Pb.
      - inversion Ht; subst. exact Pb.
      - apply (@stays_paused_trans _ _ _ Pb). apply (IHh t (Hh t) _ _ _ (proj1 Pb) Ht).
      - inversion Ht; subst. exact Pb. }
    destruct (bind_inv _ _ _ H) as [(a & s1 & H1 & H2) | [(t & H1 & _) | (H1 & _)]];
      pose proof (P1 _ _ H1) as P;
      [| exact P | exact P].
    apply (@stays_paused_trans _ _ _ P). apply (IH a (Hk a) _ _ _ (proj1 P) H2).
Qed.

(** X13: the reads of a function run under [ignoringObservation] are not
    recorded: for a function that only reads (ref cells and properties, also
    under nested calls of [ignoringObservation] and whatever exceptions it
    catches), and however it ends, no effect has another dependency after
    the call, or one less, and the running effect and the number of effects
    are the same. *)
Theorem ignoringObservation_hides_every_read fuel f st r st' e :
  reads_only (closure_body f) ->
  ignoringObservation (invoke fuel f) st = (r, st') ->
  deps_of e st' = deps_of e st
  /\ activeEffect st' = activeEffect st
  /\ effects st' = effects st.
Proof.
  intros Hro H. rewrite ignoringObservation_run in H.
  unfold invoke, called in H. rewrite bind_modify in H.
  set (s0 := log (EvEnter (closure_name f)) (paused st)) in *.
  assert (Hs0 : shouldTrack s0 = false) by reflexivity.
  unfold bind in H.
  destruct (exec fuel (closure_body f) s0) as [[v | t |] s1] eqn:Hrun;
    destruct (exec_stays_paused fuel _ Hro _ Hs0 Hrun) as (_ & _ & Q3 & Q4 & Q5);
    simpl in H; inversion H; subst r st'; clear H.
  - split; [| split].
    + rewrite deps_of_resumed. unfold deps_of in *. simpl. apply (Q5 e).
    + unfold resumed. simpl. destruct (trackStack s1); simpl; exact Q3.
    + unfold resumed. simpl. destruct (trackStack s1); simpl; exact Q4.
  - split; [apply (Q5 e) | split; [exact Q3 | exact Q4]].
  - split; [apply (Q5 e) | split; [exact Q3 | exact Q4]].
Qed.

Lemma ignoringObservation_hides_every_read_witness :
  deps_of 0 (snd (ignoringObservation (invoke 1 read_first)
                    (set_activeEffect (Some 0) (set_effects 1 two_cells))))
  = deps_of 0 (set_activeEffect (Some 0) (set_effects 1 two_cells))
  /\ activeEffect (snd (ignoringObservation (invoke 1 read_first)
                          (set_activeEffect (Some 0) (set_effects 1 two_cells))))
     = activeEffect (set_activeEffect (Some 0) (set_effects 1 two_cells))
  /\ effects (snd (ignoringObservation (invoke 1 read_first)
                     (set_activeEffect (Some 0) (set_effects 1 two_cells))))
     = effects (set_activeEffect (Some 0) (set_effects 1 two_cells)).
Proof.
  apply (@ignoringObservation_hides_every_read 1 read_first
           (set_activeEffect (Some 0) (set_effects 1 two_cells))
           (fst (ignoringObservation (invoke 1 read_first)
                   (set_activeEffect (Some 0) (set_effects 1 two_cells))))
           (snd (ignoringObservation (invoke 1 read_first)
                   (set_activeEffect (Some 0) (set_effects 1 two_cells)))) 0).
  - intros v. exact I.
  - vm_compute; reflexivity.
Defined.

(** X14: an exception thrown by [onChange] comes out of
    [withObservationTracking] as it is, and [apply] is not called: the call
    ends in the state in which [onChange] threw, but for the running effect
    and the tracking setting, which the engine puts back; the trace ends
    where [onChange] left it. *)
Theorem throwing_onChange_skips_apply fuel apply onChange st t st_out :
  exec fuel (closure_body onChange)
    (onChange_entry (effects st) (closure_name onChange)
       (set_effects (S (effects st)) st))
  = (Throw t, st_out) ->
  withObservationTracking (invoke fuel apply) (Some (invoke fuel onChange)) st
  = (Throw t, finished (set_effects (S (effects st)) st) st_out)
  /\ trace (finished (set_effects (S (effects st)) st) st_out) = trace st_out
  /\ activeEffect (finished (set_effects (S (effects st)) st) st_out) = activeEffect st
  /\ shouldTrack (finished (set_effects (S (effects st)) st) st_out) = shouldTrack st.
Proof.
  intros H. split; [| repeat split].
  rewrite withObservationTracking_run. unfold run_effect, invoke.
  rewrite tracked_run.
  change (exec fuel (closure_body onChange)
            (log (EvEnter (closure_name onChange))
               (paused (started (effects st) (set_effects (S (effects st)) st)))))
    with (exec fuel (closure_body onChange)
            (onChange_entry (effects st) (closure_name onChange)
               (set_effects (S (effects st)) st))).
  rewrite H. reflexivity.
Qed.

Lemma throwing_onChange_skips_apply_witness :
  withObservationTracking (invoke 1 read_first) (Some (invoke 1 fails)) two_cells
  = (Throw (Error "boom"),
     finished (set_effects 1 two_cells)
       (onChange_entry 0 "fn" (set_effects 1 two_cells)))
  /\ trace (finished (set_effects 1 two_cells)
              (onChange_entry 0 "fn" (set_effects 1 two_cells)))
     = trace (onChange_entry 0 "fn" (set_effects 1 two_cells))
  /\ activeEffect (finished (set_effects 1 two_cells)
                     (onChange_entry 0 "fn" (set_effects 1 two_cells)))
     = activeEffect two_cells
  /\ shouldTrack (finished (set_effects 1 two_cells)
                    (onChange_entry 0 "fn" (set_effects 1 two_cells)))
     = shouldTrack two_cells.
Proof.
  apply (@throwing_onChange_skips_apply 1 read_first fails two_cells (Error "boom")
           (onChange_entry 0 "fn" (set_effects 1 two_cells))).
  reflexivity.
Defined.

(** ** Bindings *)

(** X15: a binding made for a property of an observed instance is a
    two-way connection to the property itself: a value that is not a ref
    cell, written through the binding, is what the binding and a direct
    read answer afterwards, wrapped if it is an object, and a value written
    directly is what the binding answers; the object on which the two
    closures are called plays no part. *)
Theorem binding_is_a_two_way_connection fuel st o key s cell b b' x :
  backed st o key s cell ->
  (forall c, cell = VRef c -> c < List.length (cells st)) ->
  isRef x = false ->
  fst ((Call (S (S fuel)) (BindingSet o key) b [x] >>
        Call (S (S fuel)) (BindingGet o key) b' []) st)
  = Normal (reactive x)
  /\ fst ((Call (S (S fuel)) (BindingSet o key) b [x] >>
           Get (S fuel) o (KStr key)) st)
     = Normal (reactive x)
  /\ fst ((Set_ (S fuel) o (KStr key) x >>
           Call (S (S fuel)) (BindingGet o key) b' []) st)
     = Normal (reactive x).
Proof.
  intros Hb Hc Hx.
  pose proof (@Set_Get_backed fuel st o key s cell x Hb Hc Hx) as H.
  change (Call (S (S fuel)) (BindingGet o key) b' []) with (Get (S fuel) o (KStr key)).
  change (Call (S (S fuel)) (BindingSet o key) b [x])
    with (Set_ (S fuel) o (KStr key) x >> ret VUndefined).
  split; [| split; [| exact H]];
    unfold bind in *; destruct (Set_ (S fuel) o (KStr key) x st) as [[[] | t |] s1];
    simpl in *; exact H.
Qed.

Lemma binding_is_a_two_way_connection_witness :
  fst ((Call 2 (BindingSet 0 "name") 5 [VNumber 7] >>
        Call 2 (BindingGet 0 "name") 6 []) car_observed)
  = Normal (reactive (VNumber 7))
  /\ fst ((Call 2 (BindingSet 0 "name") 5 [VNumber 7] >>
           Get 1 0 (KStr "name")) car_observed)
     = Normal (reactive (VNumber 7))
  /\ fst ((Set_ 1 0 (KStr "name") (VNumber 7) >>
           Call 2 (BindingGet 0 "name") 6 []) car_observed)
     = Normal (reactive (VNumber 7)).
Proof.
  apply (@binding_is_a_two_way_connection 0 car_observed 0 "name" 0 (VRef 0) 5 6
           (VNumber 7)).
  - split; [| split].
    + exists true, true. vm_compute; reflexivity.
    + vm_compute; reflexivity.
    + vm_compute; reflexivity.
  - intros c Hc. inversion Hc; subst c. vm_compute. lia.
  - reflexivity.
Defined.

Lemma extensible_at_alloc st ob o :
  o < List.length (heap st) ->
  extensible_at (set_heap (heap st ++ [ob]) st) o = extensible_at st o.
Proof.
  intros Ho. unfold extensible_at. simpl. rewrite nth_error_app1 by exact Ho.
  reflexivity.
Qed.

Lemma extensible_at_alloc_new st ob :
  extensible_at (set_heap (heap st ++ [ob]) st) (List.length (heap st)) = extensible ob.
Proof. unfold extensible_at. simpl. rewrite nth_error_snoc. reflexivity. Qed.

Lemma CreateDataProperty_new o k v st :
  extensible_at st o = true ->
  get_own st o k = None ->
  CreateDataProperty o k v st = (Normal tt, with_prop o k (field v) st).
Proof.
  unfold extensible_at, get_own, CreateDataProperty, bind, define_own, with_prop.
  destruct (nth_error (heap st) o) as [ob |]; [| discriminate].
  intros -> ->. reflexivity.
Qed.

Lemma nth_error_with_prop_neq o k p st o' :
  o' <> o -> nth_error (heap (with_prop o k p st)) o' = nth_error (heap st) o'.
Proof.
  intros Hne. unfold with_prop.
  destruct (nth_error (heap st) o); [| reflexivity].
  simpl. apply nth_error_update_nth_neq. congruence.
Qed.

Lemma names_at_with_prop_eq o k p st ob :
  nth_error (heap st) o = Some ob ->
  names_at (with_prop o k p st) o
  = Some (own_names (mkObject (store_prop (props ob) k p) (extensible ob))).
Proof.
  intros Hob. unfold names_at, with_prop. rewrite Hob. simpl.
  rewrite nth_error_update_nth_eq by (apply nth_error_Some; congruence).
  reflexivity.
Qed.

Lemma length_alloc st ob :
  List.length (heap (set_heap (heap st ++ [ob]) st)) = S (List.length (heap st)).
Proof. simpl. rewrite length_app. simpl. lia. Qed.

(** The function that [bindable] maps over the property names builds, for
    a name [key], three new objects and changes no other: the entry it
    returns, whose one property [$key] holds a [Binding]; the [Binding],
    whose [get] and [set] are the two closures over the object and [key]
    that the initialiser carried; and the initialiser. *)
Lemma binding_entry_run fuel observable key st :
  let n := List.length (heap st) in
  exists st',
    binding_entry fuel observable key st = (Normal (VObject n), st')
    /\ get_own st' n (KStr ("$" ++ key)) = Some (field (VObject (S (S n))))
    /\ names_at st' n = Some ["$" ++ key]%string
    /\ get_own st' (S (S n)) (KStr "get")
       = Some (field (VFunction (BindingGet observable key)))
    /\ get_own st' (S (S n)) (KStr "set")
       = Some (field (VFunction (BindingSet observable key)))
    /\ List.length (heap st') = S (S (S n))
    /\ (forall o k, o < n -> get_own st' o k = get_own st o k)
    /\ (forall o, o < n -> extensible_at st' o = extensible_at st o).
Proof.
  intros n.
  set (g := VFunction (BindingGet observable key)).
  set (s := VFunction (BindingSet observable key)).
  set (I := plain [(KStr "get", field g); (KStr "set", field s)]).
  set (B0 := plain [(KStr "get", field VUndefined); (KStr "set", field VUndefined)]).
  set (s1 := set_heap (heap st ++ [plain []]) st).
  set (s2 := set_heap (heap s1 ++ [I]) s1).
  set (s3 := set_heap (heap s2 ++ [B0]) s2).
  assert (L1 : List.length (heap s1) = S n) by apply length_alloc.
  assert (L2 : List.length (heap s2) = S (S n))
    by (unfold s2; rewrite length_alloc, L1; reflexivity).
  assert (L3 : List.length (heap s3) = S (S (S n)))
    by (unfold s3; rewrite length_alloc, L2; reflexivity).
  assert (GI : forall k, get_own s3 (S n) k = lookup_prop (props I) k).
  { intros k. unfold s3. rewrite get_own_alloc by lia.
    unfold s2. rewrite <- L1. apply get_own_alloc_new. }
  assert (GB : forall k, get_own s3 (S (S n)) k = lookup_prop (props B0) k).
  { intros k. unfold s3. rewrite <- L2. apply get_own_alloc_new. }
  set (s4 := with_prop (S (S n)) (KStr "get") (field g) s3).
  set (s5 := with_prop (S (S n)) (KStr "set") (field s) s4).
  set (s6 := with_prop n (KStr ("$" ++ key)) (field (VObject (S (S n)))) s5).
  assert (L5 : List.length (heap s5) = S (S (S n)))
    by (unfold s5, s4; rewrite !with_prop_length; exact L3).
  assert (E1 : forall k, get_own s5 n k = None).
  { intros k. unfold s5, s4.
    rewrite !get_own_with_prop_neq by (intros Heq; inversion Heq; lia).
    unfold s3. rewrite get_own_alloc by lia.
    unfold s2. rewrite get_own_alloc by lia.
    unfold s1, n. apply get_own_alloc_new. }
  assert (X1 : extensible_at s5 n = true).
  { unfold s5, s4. rewrite !extensible_at_with_prop.
    unfold s3. rewrite extensible_at_alloc by lia.
    unfold s2. rewrite extensible_at_alloc by lia.
    unfold s1, n. apply extensible_at_alloc_new. }
  assert (Hbind : Binding fuel (S n) s2 = (Normal (S (S n)), s5)).
  { unfold Binding.
    assert (Ha : alloc B0 s2 = (Normal (S (S n)), s3))
      by (unfold alloc; rewrite L2; reflexivity).
    rewrite (bind_Normal _ _ _ Ha).
    rewrite (bind_Normal _ _ _ (@Get_data fuel s3 (S n) (KStr "get") g true true true
                                  (GI (KStr "get")))).
    rewrite (bind_Normal _ _ _ (@Set_data fuel s3 (S (S n)) (KStr "get") VUndefined
                                  true true g (GB (KStr "get")))).
    fold s4.
    assert (G4 : get_own s4 (S n) (KStr "set") = Some (Data s true true true)).
    { unfold s4. rewrite get_own_with_prop_neq by (intros Heq; inversion Heq; lia).
      apply GI. }
    rewrite (bind_Normal _ _ _ (@Get_data fuel s4 (S n) (KStr "set") s true true true G4)).
    assert (B4 : get_own s4 (S (S n)) (KStr "set")
                 = Some (Data VUndefined true true true)).
    { unfold s4. rewrite get_own_with_prop_neq by discriminate. apply GB. }
    rewrite (bind_Normal _ _ _ (@Set_data fuel s4 (S (S n)) (KStr "set") VUndefined
                                  true true s B4)).
    reflexivity. }
  exists s6. split; [| split; [| split; [| split; [| split]]]].
  - unfold binding_entry.
    assert (Ha : alloc (plain []) st = (Normal n, s1)) by reflexivity.
    rewrite (bind_Normal _ _ _ Ha).
    assert (Hi : alloc I s1 = (Normal (S n), s2))
      by (unfold alloc; rewrite L1; reflexivity).
    rewrite (bind_Normal _ _ _ Hi).
    rewrite (bind_Normal _ _ _ Hbind).
    rewrite (bind_Normal _ _ _ (@CreateDataProperty_new n (KStr ("$" ++ key))
                                  (VObject (S (S n))) s5 X1 (E1 _))).
    reflexivity.
  - unfold s6. apply get_own_with_prop_eq. lia.
  - assert (Hn : nth_error (heap s5) n = Some (plain [])).
    { unfold s5, s4. rewrite !nth_error_with_prop_neq by lia.
      change (heap s3) with (heap s2 ++ [B0]). rewrite nth_error_app1 by lia.
      change (heap s2) with (heap s1 ++ [I]). rewrite nth_error_app1 by lia.
      change (heap s1) with (heap st ++ [plain []]). apply nth_error_snoc. }
    unfold s6.
    rewrite (@names_at_with_prop_eq n (KStr ("$" ++ key)) (field (VObject (S (S n))))
               s5 (plain []) Hn).
    assert (Hk : array_index ("$" ++ key) = None)
      by (unfold array_index; simpl;
          destruct (NilEmpty.uint_of_string key); reflexivity).
    unfold own_names, plain. cbn [props store_prop index_names plain_names].
    rewrite Hk. reflexivity.
  - unfold s6, s5. rewrite !get_own_with_prop_neq by (intros Heq; inversion Heq; lia).
    unfold s4. apply get_own_with_prop_eq. lia.
  - unfold s6. rewrite get_own_with_prop_neq by (intros Heq; inversion Heq; lia).
    unfold s5. apply get_own_with_prop_eq. unfold s4. rewrite with_prop_length. lia.
  - split; [unfold s6; rewrite with_prop_length; exact L5 |]. split.
    + intros o k Ho. unfold s6, s5, s4.
      rewrite !get_own_with_prop_neq by (intros Heq; inversion Heq; lia).
      unfold s3. rewrite get_own_alloc by lia.
      unfold s2. rewrite get_own_alloc by lia.
      unfold s1. apply get_own_alloc. exact Ho.
    + intros o Ho. unfold s6, s5, s4. rewrite !extensible_at_with_prop.
      unfold s3. rewrite extensible_at_alloc by lia.
      unfold s2. rewrite extensible_at_alloc by lia.
      unfold s1. apply extensible_at_alloc. exact Ho.
Qed.

(** ** Constructions that return *)

Lemma defineProperty_ok o k d st p :
  o < List.length (heap st) ->
  validate_and_apply (extensible_at st o) d (get_own st o k) = Some p ->
  defineProperty o k d st = (Normal tt, with_prop o k p st).
Proof.
  unfold extensible_at, get_own, defineProperty, bind, define_own, with_prop.
  intros Ho. destruct (nth_error (heap st) o) as [ob |] eqn:Hob.
  - intros ->. reflexivity.
  - apply nth_error_None in Hob. lia.
Qed.

(** The step of the wrapping loop on a configurable property of an
    extensible instance. *)
Lemma wrap_property_returns this m q st p :
  listed st m q = false ->
  get_own st this (KStr q) = Some p ->
  prop_configurable p = true ->
  extensible_at st this = true ->
  fresh_symbols st ->
  exists cell st_c,
    heap st_c = heap st
    /\ wrap_property this m q st
       = (Normal tt,
          with_prop this (KStr q)
            (applied (get_set (ObservedGet (List.length (symbols st)))
                        (ObservedSet (List.length (symbols st)))) p)
            (with_prop this (KSym (List.length (symbols st)))
               (created (value_writable cell)) st_c)).
Proof.
  intros Hi Hp Hc Hext Hf. unfold wrap_property.
  rewrite (bind_Normal _ _ _ (includes_run m q st)), Hi.
  assert (Hd : getOwnPropertyDescriptor_value this (KStr q) st
               = (Normal (descriptor_value p), st)).
  { unfold getOwnPropertyDescriptor_value. rewrite Hp. reflexivity. }
  rewrite (bind_Normal _ _ _ Hd). clear Hd.
  assert (Hs : Symbol ("__$$" ++ q) st
               = (Normal (List.length (symbols st)),
                  set_symbols (symbols st ++ [("__$$" ++ q)%string]) st))
    by reflexivity.
  rewrite (bind_Normal _ _ _ Hs). clear Hs.
  set (s := List.length (symbols st)).
  set (st_s := set_symbols (symbols st ++ [("__$$" ++ q)%string]) st).
  destruct (backing_cell (descriptor_value p) st_s) as [rc st_c] eqn:Hcell.
  destruct (backing_cell_frame _ _ Hcell) as (Hheap & _ & _ & _ & cell & ->).
  assert (Hh : heap st_c = heap st) by (rewrite Hheap; reflexivity).
  rewrite (bind_Normal _ _ _ Hcell).
  exists cell, st_c. split; [exact Hh |].
  assert (Hlt : this < List.length (heap st_c)).
  { rewrite Hh. exact (get_own_range _ _ _ Hp). }
  assert (D1 : defineProperty this (KSym s) (value_writable cell) st_c
               = (Normal tt,
                  with_prop this (KSym s) (created (value_writable cell)) st_c)).
  { apply defineProperty_ok; [exact Hlt |].
    rewrite (@extensible_at_same_heap st st_c this Hh), Hext.
    rewrite (@get_own_same_heap st st_c this (KSym s) Hh), (Hf this s (le_n _)).
    reflexivity. }
  rewrite (bind_Normal _ _ _ D1).
  apply defineProperty_ok; [rewrite with_prop_length; exact Hlt |].
  rewrite extensible_at_with_prop, (@extensible_at_same_heap st st_c this Hh), Hext.
  rewrite get_own_with_prop_neq by discriminate.
  rewrite (@get_own_same_heap st st_c this (KStr q) Hh), Hp.
  unfold validate_and_apply. rewrite Hc. reflexivity.
Qed.

Lemma wrapping_pass_returns this m names : forall st,
  (forall q, In q names -> listed st m q = false ->
             exists p, get_own st this (KStr q) = Some p /\ prop_configurable p = true) ->
  extensible_at st this = true ->
  fresh_symbols st ->
  exists st', for_each names (wrap_property this m) st = (Normal tt, st').
Proof.
  induction names as [| q rest IH]; intros st Hall Hext Hf.
  - exists st. reflexivity.
  - simpl. destruct (listed st m q) eqn:Hi.
    + assert (Hw : wrap_property this m q st = (Normal tt, st)).
      { unfold wrap_property. rewrite (bind_Normal _ _ _ (includes_run m q st)), Hi.
        reflexivity. }
      rewrite (bind_Normal _ _ _ Hw). apply IH; auto.
      intros q' Hq'. apply Hall. right. exact Hq'.
    + destruct (Hall q (or_introl eq_refl) Hi) as (p & Hp & Hc).
      destruct (@wrap_property_returns this m q st p Hi Hp Hc Hext Hf)
        as (cell & st_c & Hh & Hw).
      rewrite (bind_Normal _ _ _ Hw).
      destruct (@wrap_property_changes this m q [q] st _ _ Hw)
        as (_ & _ & Hm & _); [intros _; left; reflexivity |].
      apply IH.
      * intros q' Hq' Hi'.
        assert (Hi0 : listed st m q' = false)
          by (rewrite <- Hi'; unfold listed; rewrite Hm; reflexivity).
        destruct (string_dec q' q) as [-> | Hne].
        -- eexists. split.
           ++ apply get_own_with_prop_eq. rewrite with_prop_length, Hh.
              exact (get_own_range _ _ _ Hp).
           ++ rewrite applied_get_set. exact Hc.
        -- destruct (Hall q' (or_intror Hq') Hi0) as (p' & Hp' & Hc').
           exists p'. split; [| exact Hc'].
           rewrite !get_own_with_prop_neq by congruence.
           rewrite (@get_own_same_heap st st_c this (KStr q') Hh). exact Hp'.
      * rewrite !extensible_at_with_prop.
        rewrite (@extensible_at_same_heap st st_c this Hh). exact Hext.
      * eapply fresh_symbols_changes; [| exact Hf].
        apply (@wrap_property_changes this m q [q] st _ _ Hw).
        intros _. left. reflexivity.
Qed.

Lemma Observed_returns _target m args st this st1 :
  _target (Some m) args st = (Normal this, st1) ->
  nth_error (metadata st1) m <> None ->
  extensible_at st1 this = true ->
  fresh_symbols st1 ->
  (forall q p, get_own st1 this (KStr q) = Some p -> ignores st1 m q = false ->
               prop_configurable p = true) ->
  exists st', Observed _target (Some m) args st = (Normal this, st').
Proof.
  intros H Hm Hext Hf Hall. rewrite (Observed_run _ _ _ _ H).
  destruct (nth_error (metadata st1) m) as [entry |]; [| contradiction].
  destruct (nth_error (heap st1) this) as [ob |] eqn:Hob.
  2:{ unfold extensible_at in Hext. rewrite Hob in Hext. discriminate. }
  destruct (with_ignore_list_rest m st1) as (Wh & Ws & _).
  destruct (@wrapping_pass_returns this (list_of st1 m) (own_names ob) (with_ignore_list m st1))
    as (st' & Hloop).
  - intros q Hq Hi. rewrite listed_with_ignore_list in Hi.
    rewrite (@get_own_same_heap st1 (with_ignore_list m st1) this (KStr q) Wh).
    destruct (get_own st1 this (KStr q)) as [p |] eqn:Hp.
    + exists p. split; [reflexivity |]. exact (Hall q p Hp Hi).
    + exfalso. exact (@own_names_have_properties st1 this ob q Hob Hq Hp).
  - rewrite (@extensible_at_same_heap st1 (with_ignore_list m st1) this Wh). exact Hext.
  - exact (@fresh_symbols_same st1 (with_ignore_list m st1) Wh Ws Hf).
  - exists st'. rewrite Hloop. reflexivity.
Qed.

(** X17: the construction returns the instance whenever the class has a
    metadata object and the constructor of the parent class returns an
    extensible instance whose own properties, the ignored ones apart, are
    configurable, as the properties that class fields and assignments
    create are. *)
Theorem construction_returns_the_instance _target m args st this st1 :
  _target (Some m) args st = (Normal this, st1) ->
  nth_error (metadata st1) m <> None ->
  extensible_at st1 this = true ->
  fresh_symbols st1 ->
  (forall q p, get_own st1 this (KStr q) = Some p -> ignores st1 m q = false ->
               prop_configurable p = true) ->
  exists st', Observed _target (Some m) args st = (Normal this, st').
Proof. exact (@Observed_returns _target m args st this st1). Qed.

Lemma construction_returns_the_instance_witness :
  exists st', Observed Car (Some 0) [] car_metadata = (Normal 0, st').
Proof.
  apply (@construction_returns_the_instance Car 0 [] car_metadata 0 car_built
           Car_returns).
  - discriminate.
  - reflexivity.
  - exact Car_fresh_symbols.
  - intros q p Hp _. destruct (get_own_heap _ _ _ Hp) as (ob & Hob & Hl).
    vm_compute in Hob. inversion Hob; subst ob. clear Hob Hp. simpl in Hl.
    repeat match type of Hl with
           | (if ?b then _ else _) = _ =>
               destruct b; [inversion Hl; reflexivity |]
           end.
    discriminate.
Defined.

(** ** [Atom] *)

Lemma Set_new fuel o k v st :
  extensible_at st o = true ->
  get_own st o k = None ->
  Set_ fuel o k v st = (Normal tt, with_prop o k (field v) st).
Proof.
  unfold extensible_at, get_own, Set_, Set_with, bind, define_own, with_prop.
  destruct (nth_error (heap st) o) as [ob |]; [| discriminate].
  intros -> ->. reflexivity.
Qed.

Lemma nth_error_with_prop_eq o k p st ob :
  nth_error (heap st) o = Some ob ->
  nth_error (heap (with_prop o k p st)) o
  = Some (mkObject (store_prop (props ob) k p) (extensible ob)).
Proof.
  intros Hob. unfold with_prop. rewrite Hob. simpl.
  apply nth_error_update_nth_eq. apply nth_error_Some. congruence.
Qed.

Lemma cell_for_range st v cell c :
  cell_for st v cell -> isRef v = false -> cell = VRef c ->
  c < List.length (cells st).
Proof.
  unfold cell_for. intros H Hv ->. destruct (_ || _).
  - destruct v; simpl in *; discriminate.
  - destruct H as (c' & Hc' & Hn). inversion Hc'; subst c'.
    apply nth_error_Some. congruence.
Qed.

(** The constructor of [Atom], before decoration. *)
Lemma Atom_constructor_run md args st :
  Atom_constructor md args st
  = (Normal (List.length (heap st)),
     with_prop (List.length (heap st)) (KStr "value") (field (nth 0 args VUndefined))
       (set_heap (heap st ++ [plain []]) st)).
Proof.
  unfold Atom_constructor.
  assert (Ha : alloc (plain []) st
               = (Normal (List.length (heap st)), set_heap (heap st ++ [plain []]) st))
    by reflexivity.
  rewrite (bind_Normal _ _ _ Ha).
  rewrite (bind_Normal _ _ _
             (@Set_new 0 (List.length (heap st)) (KStr "value") (nth 0 args VUndefined)
                (set_heap (heap st ++ [plain []]) st)
                (extensible_at_alloc_new st (plain []))
                (get_own_alloc_new st (plain []) (KStr "value")))).
  reflexivity.
Qed.

(** X18: [new Atom(initialValue)] returns, under a metadata object that does
    not ignore [value], an instance whose one own name is [value]; reading
    [value] answers the initial value, and after an assignment the value
    assigned, each wrapped if it is an object (ref cells apart). *)
Theorem Atom_holds_its_value m args st fuel :
  nth_error (metadata st) m <> None ->
  ignores st m "value" = false ->
  fresh_symbols st ->
  isRef (nth 0 args VUndefined) = false ->
  exists st',
    Atom (Some m) args st = (Normal (List.length (heap st)), st')
    /\ names_at st' (List.length (heap st)) = Some ["value"]
    /\ fst (Get (S fuel) (List.length (heap st)) (KStr "value") st')
       = Normal (reactive (nth 0 args VUndefined))
    /\ forall x,
        isRef x = false ->
        fst ((Set_ (S fuel) (List.length (heap st)) (KStr "value") x >>
              Get (S fuel) (List.length (heap st)) (KStr "value")) st')
        = Normal (reactive x).
Proof.
  intros Hm Hi Hf Hv.
  set (this := List.length (heap st)).
  set (v := nth 0 args VUndefined) in *.
  set (s0 := set_heap (heap st ++ [plain []]) st).
  set (s1 := with_prop this (KStr "value") (field v) s0).
  pose proof (Atom_constructor_run (Some m) args st) as H1.
  fold this v s0 s1 in H1.
  assert (N0 : nth_error (heap s0) this = Some (plain []))
    by (unfold s0, this; simpl; apply nth_error_snoc).
  assert (N1 : nth_error (heap s1) this
               = Some (mkObject [(KStr "value", field v)] true))
    by exact (@nth_error_with_prop_eq this (KStr "value") (field v) s0 (plain []) N0).
  assert (L0 : List.length (heap s0) = S this) by apply length_alloc.
  destruct (with_prop_rest this (KStr "value") (field v) s0) as (S1 & _ & M1 & _).
  fold s1 in S1, M1.
  assert (Hf1 : fresh_symbols s1).
  { intros o n Hn. rewrite S1 in Hn.
    unfold s1. rewrite get_own_with_prop_neq by discriminate.
    destruct (get_own s0 o (KSym n)) as [p |] eqn:Hp; [| reflexivity].
    pose proof (get_own_range _ _ _ Hp) as Hr. rewrite L0 in Hr.
    destruct (Nat.eq_dec o this) as [-> | Ho].
    - unfold s0, this in Hp. rewrite get_own_alloc_new in Hp. discriminate.
    - unfold s0 in Hp. rewrite get_own_alloc in Hp by (fold this; lia).
      rewrite <- Hp. apply Hf. exact Hn. }
  assert (Hd1 : distinct_keys s1 this).
  { intros ob Hob. rewrite N1 in Hob. inversion Hob; subst ob. simpl.
    constructor; [intros [] | constructor]. }
  assert (Hp1 : get_own s1 this (KStr "value") = Some (field v)).
  { unfold s1. apply get_own_with_prop_eq. lia. }
  assert (Hi1 : ignores s1 m "value" = false).
  { rewrite (@ignores_same_store st s1 m "value"); [exact Hi | exact M1 |].
    unfold s1. rewrite with_prop_protos. reflexivity. }
  destruct (@Observed_returns Atom_constructor m args st this s1 H1) as (st' & HO).
  - rewrite M1. exact Hm.
  - unfold extensible_at. rewrite N1. reflexivity.
  - exact Hf1.
  - intros q p Hq _. unfold get_own in Hq. rewrite N1 in Hq.
    cbn [lookup_prop props key_eqb] in Hq.
    destruct (String.eqb "value" q); [inversion Hq; reflexivity | discriminate].
  - exists st'. split; [exact HO |]. split; [| split].
    + rewrite (@Observed_names Atom_constructor m args st this s1 _ st' H1 HO this).
      unfold names_at. rewrite N1. reflexivity.
    + exact (@Observed_reads fuel Atom_constructor m args st this s1 st' "value"
               (field v) H1 HO Hf1 Hd1 Hi1 Hp1 Hv).
    + intros x Hx.
      destruct (@Observed_backs Atom_constructor m args st this s1 st' "value"
                  (field v) H1 HO Hf1 Hd1 Hi1 Hp1) as (s & cell & _ & Hb & Hcf).
      apply (@Set_Get_backed fuel st' this "value" s cell x Hb); [| exact Hx].
      intros c Hc. exact (@cell_for_range st' v cell c Hcf Hv Hc).
Qed.

Lemma Atom_holds_its_value_witness :
  exists st',
    Atom (Some 0) [VNumber 5] one_class = (Normal (List.length (heap one_class)), st')
    /\ names_at st' (List.length (heap one_class)) = Some ["value"]
    /\ fst (Get 1 (List.length (heap one_class)) (KStr "value") st')
       = Normal (reactive (nth 0 [VNumber 5] VUndefined))
    /\ forall x,
        isRef x = false ->
        fst ((Set_ 1 (List.length (heap one_class)) (KStr "value") x >>
              Get 1 (List.length (heap one_class)) (KStr "value")) st')
        = Normal (reactive x).
Proof.
  apply (@Atom_holds_its_value 0 [VNumber 5] one_class 0).
  - discriminate.
  - reflexivity.
  - intros o n _. unfold get_own. simpl. destruct o; reflexivity.
  - reflexivity.
Defined.

(** ** [bindable] on an object without names *)

(** X19: on an object that has no own string-named property, [bindable]
    returns the object itself and changes no object: all it leaves behind is
    the empty array that [map] returned. *)
Theorem bindable_without_names fuel observable st :
  names_at st observable = Some [] ->
  bindable fuel observable st
  = (Normal observable,
     set_heap (heap st ++ [plain [(KStr "length", Data (VNumber 0) true false false)]])
       st).
Proof.
  unfold names_at. intros Hn.
  destruct (nth_error (heap st) observable) as [ob |] eqn:Hob; [| discriminate].
  inversion Hn as [Hnames]. unfold bindable.
  assert (Hg : getOwnPropertyNames observable st = (Normal [], st)).
  { unfold getOwnPropertyNames. rewrite Hob, Hnames. reflexivity. }
  rewrite (bind_Normal _ _ _ Hg).
  set (arr := plain [(KStr "length", Data (VNumber 0) true false false)]).
  assert (Hm : Array_map [] (binding_entry fuel observable) st
               = (Normal (List.length (heap st)), set_heap (heap st ++ [arr]) st))
    by reflexivity.
  rewrite (bind_Normal _ _ _ Hm).
  unfold Object_assign. simpl for_each.
  assert (Hk : own_keys_of (List.length (heap st)) (set_heap (heap st ++ [arr]) st)
               = (Normal [KStr "length"], set_heap (heap st ++ [arr]) st)).
  { unfold own_keys_of. simpl heap. rewrite nth_error_snoc. reflexivity. }
  unfold bind at 1 2 3. rewrite Hk. simpl for_each.
  unfold bind at 1, assign_key at 1. rewrite get_own_alloc_new. reflexivity.
Qed.

Lemma bindable_without_names_witness :
  bindable 1 0 (snd (alloc (plain []) initial_state))
  = (Normal 0,
     set_heap (heap (snd (alloc (plain []) initial_state))
               ++ [plain [(KStr "length", Data (VNumber 0) true false false)]])
       (snd (alloc (plain []) initial_state))).
Proof.
  apply (@bindable_without_names 1 0 (snd (alloc (plain []) initial_state))).
  reflexivity.
Defined.

(** ** Later runs *)

(** X20: when the engine runs the effect of a call of
    [withObservationTracking] again, after a change, the run that returns
    has entered [onChange] first, with tracking paused and the effect
    without dependency, and [apply] only after [onChange] had returned:
    [onChange] is called on every run, and the value the run returns is the
    one of [apply]. *)
Theorem onChange_runs_first_on_every_rerun fuel apply onChange e st u st' :
  rerun e (tracked_body fuel apply onChange) st = (Normal u, st') ->
  let fa := closure_name apply in
  let fo := closure_name onChange in
  let st_in := onChange_entry e fo (dequeued e st) in
  shouldTrack st_in = false
  /\ deps_of e st_in = []
  /\ exists v st_out st2 t_on t_ap,
      exec fuel (closure_body onChange) st_in = (Normal v, st_out)
      /\ exec fuel (closure_body apply) (apply_entry fa fo st_out) = (Normal u, st2)
      /\ trace st'
         = trace st ++ [EvRun e; EvPause; EvEnter fo] ++ t_on
           ++ [EvLeave fo; EvReset; EvEnter fa] ++ t_ap ++ [EvLeave fa].
Proof.
  intros H fa fo st_in.
  assert (Hin : trace st_in = trace st ++ [EvRun e; EvPause; EvEnter fo]).
  { unfold st_in, onChange_entry, paused, started, dequeued. simpl.
    rewrite <- !app_assoc. reflexivity. }
  split; [reflexivity |].
  split; [apply deps_of_started |].
  unfold rerun in H. rewrite bind_modify in H.
  unfold run_effect, tracked_body, invoke in H. rewrite tracked_run in H.
  fold fa fo in H.
  change (log (EvEnter fo) (paused (started e (dequeued e st)))) with st_in in H.
  destruct (exec fuel (closure_body onChange) st_in) as [r_on st_out] eqn:Hon.
  destruct (@exec_grows fuel _ _ _ _ Hon) as (t_on & Ton).
  destruct r_on as [v | t |]; [| discriminate | discriminate].
  destruct (exec fuel (closure_body apply) (apply_entry fa fo st_out))
    as [r_ap st2] eqn:Hap.
  destruct (@exec_grows fuel _ _ _ _ Hap) as (t_ap & Tap).
  destruct r_ap as [w | t |]; inversion H; subst; clear H.
  exists v, st_out, st2, t_on, t_ap. split; [reflexivity |]. split; [exact Hap |].
  rewrite trace_finished, trace_log, Tap. unfold apply_entry.
  rewrite trace_log, trace_resumed, trace_log, Ton, Hin.
  rewrite <- !app_assoc. reflexivity.
Qed.

Lemma onChange_runs_first_on_every_rerun_witness :
  shouldTrack (onChange_entry 0 "onChange" (dequeued 0 cells_tracked)) = false
  /\ deps_of 0 (onChange_entry 0 "onChange" (dequeued 0 cells_tracked)) = []
  /\ exists v st_out st2 t_on t_ap,
      exec 0 (closure_body read_second)
        (onChange_entry 0 "onChange" (dequeued 0 cells_tracked))
      = (Normal v, st_out)
      /\ exec 0 (closure_body read_first) (apply_entry "apply" "onChange" st_out)
         = (Normal (VNumber 1), st2)
      /\ trace (snd (rerun 0 (tracked_body 0 read_first read_second) cells_tracked))
         = trace cells_tracked ++ [EvRun 0; EvPause; EvEnter "onChange"] ++ t_on
           ++ [EvLeave "onChange"; EvReset; EvEnter "apply"] ++ t_ap
           ++ [EvLeave "apply"].
Proof.
  apply (@onChange_runs_first_on_every_rerun 0 read_first read_second 0 cells_tracked
           (VNumber 1)
           (snd (rerun 0 (tracked_body 0 read_first read_second) cells_tracked))).
  vm_compute; reflexivity.
Defined.

(** ** What [bindable] assigns *)

Lemma to_uint_nonnil i : Nat.to_uint i <> Decimal.Nil.
Proof.
  rewrite <- (DecimalNat.Unsigned.of_to i) at 1.
  rewrite DecimalNat.Unsigned.to_of. apply DecimalFacts.unorm_nonnil.
Qed.

Lemma index_key_inj i j : index_key i = index_key j -> i = j.
Proof.
  unfold index_key. intros H.
  apply DecimalNat.Unsigned.to_uint_inj.
  assert (E : Some (Nat.to_uint i) = Some (Nat.to_uint j)).
  { rewrite <- (NilZero.usu (Nat.to_uint i) (to_uint_nonnil i)).
    rewrite <- (NilZero.usu (Nat.to_uint j) (to_uint_nonnil j)).
    rewrite H. reflexivity. }
  inversion E. reflexivity.
Qed.

Lemma index_key_not_length i : index_key i <> "length"%string.
Proof.
  unfold index_key. destruct (Nat.to_uint i); simpl; discriminate.
Qed.

(** A key is the index key of some [j < n], or of none. *)
Lemma index_key_below n k :
  (exists j, j < n /\ k = KStr (index_key j))
  \/ (forall j, j < n -> k <> KStr (index_key j)).
Proof.
  induction n as [| n IH].
  - right. intros j Hj. lia.
  - destruct IH as [(j & Hj & ->) | Hno].
    + left. exists j. split; [lia | reflexivity].
    + destruct k as [q | y].
      * destruct (string_dec q (index_key n)) as [-> | Hne].
        -- left. exists n. split; [lia | reflexivity].
        -- right. intros j Hj Heq. inversion Heq; subst q.
           destruct (Nat.eq_dec j n) as [-> | Hjn]; [congruence |].
           apply (Hno j); [lia | reflexivity].
      * right. intros j _. discriminate.
Qed.

(** The loop of [map]: the entries are built one after the other, three
    objects each, and stored in the array under the index keys. *)
Lemma map_from_run fuel observable A names : forall i s,
  A < List.length (heap s) ->
  extensible_at s A = true ->
  (forall j, i <= j -> get_own s A (KStr (index_key j)) = None) ->
  exists s',
    map_from A i names (binding_entry fuel observable) s = (Normal tt, s')
    /\ List.length (heap s') = List.length (heap s) + 3 * List.length names
    /\ (forall j key, nth_error names j = Some key ->
          binding_at s' (List.length (heap s) + 3 * j) observable key
          /\ get_own s' A (KStr (index_key (i + j)))
             = Some (field (VObject (List.length (heap s) + 3 * j))))
    /\ (forall o k, o < List.length (heap s) -> o <> A ->
                    get_own s' o k = get_own s o k)
    /\ (forall k, (forall j, j < List.length names -> k <> KStr (index_key (i + j))) ->
                  get_own s' A k = get_own s A k)
    /\ (forall o, o < List.length (heap s) -> extensible_at s' o = extensible_at s o).
Proof.
  induction names as [| key rest IH]; intros i s HA Hext Hfresh.
  - exists s. split; [reflexivity |]. split; [simpl; lia |].
    split; [intros [| j] key H; discriminate |]. auto.
  - destruct (binding_entry_run fuel observable key s)
      as (s_e & He & Hd & _ & Hg & Hs & Hlen & Hfr & Hxf).
    set (n := List.length (heap s)) in *.
    set (s_c := with_prop A (KStr (index_key i)) (field (VObject n)) s_e).
    assert (Hc : CreateDataProperty A (KStr (index_key i)) (VObject n) s_e
                 = (Normal tt, s_c)).
    { apply CreateDataProperty_new.
      - rewrite Hxf by exact HA. exact Hext.
      - rewrite Hfr by exact HA. apply Hfresh. lia. }
    assert (Lc : List.length (heap s_c) = S (S (S n)))
      by (unfold s_c; rewrite with_prop_length; exact Hlen).
    destruct (IH (S i) s_c) as (s' & Hrun & Hl' & Hent & Hfr' & HA' & Hx').
    { lia. }
    { unfold s_c. rewrite extensible_at_with_prop, Hxf by exact HA. exact Hext. }
    { intros j Hj. unfold s_c. rewrite get_own_with_prop_neq.
      - rewrite Hfr by exact HA. apply Hfresh. lia.
      - intros Heq. inversion Heq as [Hk]. apply index_key_inj in Hk. lia. }
    exists s'. split; [| split; [| split; [| split; [| split]]]].
    + simpl. rewrite (bind_Normal _ _ _ He), (bind_Normal _ _ _ Hc). exact Hrun.
    + rewrite Hl', Lc. simpl. lia.
    + intros [| j] key0 Hk; simpl in Hk.
      * inversion Hk; subst key0. rewrite Nat.mul_0_r, !Nat.add_0_r.
        split; [split; [| split] |].
        -- rewrite Hfr' by lia. unfold s_c.
           rewrite get_own_with_prop_neq by (intros Heq; inversion Heq; lia).
           exact Hd.
        -- rewrite Hfr' by lia. unfold s_c.
           rewrite get_own_with_prop_neq by (intros Heq; inversion Heq; lia).
           exact Hg.
        -- rewrite Hfr' by lia. unfold s_c.
           rewrite get_own_with_prop_neq by (intros Heq; inversion Heq; lia).
           exact Hs.
        -- rewrite HA'.
           ++ unfold s_c. apply get_own_with_prop_eq. rewrite Hlen. lia.
           ++ intros j _ Heq. inversion Heq as [Hk']. apply index_key_inj in Hk'. lia.
      * destruct (Hent j key0 Hk) as (Hb & Hi).
        replace (n + 3 * S j) with (List.length (heap s_c) + 3 * j) by lia.
        replace (i + S j) with (S i + j) by lia.
        split; [exact Hb | exact Hi].
    + intros o k Ho HoA. rewrite Hfr' by lia. unfold s_c.
      rewrite get_own_with_prop_neq by congruence. apply Hfr. exact Ho.
    + intros k Hk. rewrite HA'.
      * unfold s_c. rewrite get_own_with_prop_neq.
        -- apply Hfr. exact HA.
        -- intros Heq. inversion Heq; subst k.
           apply (Hk 0); [simpl; lia | rewrite Nat.add_0_r; reflexivity].
      * intros j Hj. replace (S i + j) with (i + S j) by lia.
        apply Hk. simpl. lia.
    + intros o Ho. rewrite Hx' by lia. unfold s_c.
      rewrite extensible_at_with_prop. apply Hxf. exact Ho.
Qed.

(** The loop of [Object.assign] over the keys of the array: the elements
    are assigned to the target under the index keys. *)
Lemma assign_keys_run fuel observable A n (v : nat -> value) keys : forall s,
  observable <> A ->
  extensible_at s observable = true ->
  (forall j, j < n -> get_own s A (KStr (index_key j)) = Some (field (v j))) ->
  (forall k, (forall j, j < n -> k <> KStr (index_key j)) ->
             get_own s A k = None
             \/ exists p, get_own s A k = Some p /\ prop_enumerable p = false) ->
  (forall j, j < n ->
             get_own s observable (KStr (index_key j)) = None
             \/ get_own s observable (KStr (index_key j)) = Some (field (v j))) ->
  exists s',
    for_each keys (assign_key fuel observable A) s = (Normal tt, s')
    /\ (forall j, j < n -> In (KStr (index_key j)) keys ->
                  get_own s' observable (KStr (index_key j)) = Some (field (v j)))
    /\ (forall j, j < n ->
                  get_own s observable (KStr (index_key j)) = Some (field (v j)) ->
                  get_own s' observable (KStr (index_key j)) = Some (field (v j)))
    /\ (forall o k, o <> observable \/ (forall j, j < n -> k <> KStr (index_key j)) ->
                    get_own s' o k = get_own s o k).
Proof.
  induction keys as [| k rest IH]; intros s Hne Hext HA1 HA2 HO.
  - exists s. split; [reflexivity |]. split; [intros j _ [] |]. auto.
  - simpl.
    destruct (index_key_below n k) as [(j & Hj & ->) | Hno].
    + set (k := KStr (index_key j)).
      set (s1 := with_prop observable k (field (v j)) s).
      assert (Hstep : assign_key fuel observable A k s = (Normal tt, s1)).
      { assert (Hk : get_own s A k = Some (field (v j))) by exact (HA1 j Hj).
        unfold assign_key. rewrite Hk. simpl prop_enumerable. cbv iota.
        rewrite (bind_Normal _ _ _ (@Get_data fuel s A k (v j) true true true Hk)).
        destruct (HO j Hj) as [Hnone | Hsome].
        - apply Set_new; assumption.
        - exact (@Set_data fuel s observable k (v j) true true (v j) Hsome). }
      assert (Hlt : observable < List.length (heap s)).
      { unfold extensible_at in Hext.
        destruct (nth_error (heap s) observable) eqn:E; [| discriminate].
        apply nth_error_Some. congruence. }
      destruct (IH s1) as (s' & Hrun & Ha & Hb & Hc).
      * exact Hne.
      * unfold s1. rewrite extensible_at_with_prop. exact Hext.
      * intros j' Hj'. unfold s1. rewrite get_own_with_prop_neq by congruence.
        apply HA1. exact Hj'.
      * intros k' Hk'. unfold s1. rewrite get_own_with_prop_neq by congruence.
        apply HA2. exact Hk'.
      * intros j' Hj'. destruct (Nat.eq_dec j' j) as [-> | Hjj].
        -- right. unfold s1. apply get_own_with_prop_eq. exact Hlt.
        -- unfold s1. rewrite get_own_with_prop_neq.
           ++ apply HO. exact Hj'.
           ++ intros Heq. inversion Heq as [Hk]. apply index_key_inj in Hk. contradiction.
      * assert (Hs1 : get_own s1 observable k = Some (field (v j)))
          by (unfold s1; apply get_own_with_prop_eq; exact Hlt).
        exists s'. split; [rewrite (bind_Normal _ _ _ Hstep); exact Hrun |].
        split; [| split].
        -- intros j' Hj' [Heq | Hin].
           ++ inversion Heq as [Hk]. apply index_key_inj in Hk. subst j'.
              apply Hb; [exact Hj | exact Hs1].
           ++ apply Ha; assumption.
        -- intros j' Hj' Hsome. apply Hb; [exact Hj' |].
           destruct (Nat.eq_dec j' j) as [-> | Hjj]; [exact Hs1 |].
           unfold s1. rewrite get_own_with_prop_neq; [exact Hsome |].
           intros Heq. inversion Heq as [Hk]. apply index_key_inj in Hk. contradiction.
        -- intros o k' Hok. rewrite Hc by exact Hok. unfold s1.
           apply get_own_with_prop_neq. intros Heq. inversion Heq; subst o k'.
           destruct Hok as [Ho | Hk]; [congruence |]. exact (Hk j Hj eq_refl).
    + assert (Hstep : assign_key fuel observable A k s = (Normal tt, s)).
      { unfold assign_key. destruct (HA2 k Hno) as [-> | (p & -> & ->)]; reflexivity. }
      destruct (IH s Hne Hext HA1 HA2 HO) as (s' & Hrun & Ha & Hb & Hc).
      exists s'. split; [rewrite (bind_Normal _ _ _ Hstep); exact Hrun |].
      split; [| split; [exact Hb | exact Hc]].
      intros j Hj [Heq | Hin]; [| apply Ha; assumption].
      exfalso. exact (Hno j Hj Heq).
Qed.

(** X16: what [bindable] does to an extensible object that has no property
    under the indices below the number of its own names: it returns the
    object, having built for the name of index [j] a one-entry object whose
    property [$name] holds the [Binding] with the two closures over the
    object and the name, and having assigned that one-entry object to the
    property [j] of the object; the other properties of the object and the
    other objects that existed are as they were. *)
Theorem bindable_assigns_the_entries_by_index fuel observable st names :
  names_at st observable = Some names ->
  extensible_at st observable = true ->
  (forall j, j < List.length names ->
             get_own st observable (KStr (index_key j)) = None) ->
  exists st',
    bindable fuel observable st = (Normal observable, st')
    /\ (forall j key, nth_error names j = Some key ->
          get_own st' observable (KStr (index_key j))
          = Some (field (VObject (entry_of (List.length (heap st)) j)))
          /\ binding_at st' (entry_of (List.length (heap st)) j) observable key)
    /\ (forall k, (forall j, j < List.length names -> k <> KStr (index_key j)) ->
                  get_own st' observable k = get_own st observable k)
    /\ (forall o k, o < List.length (heap st) -> o <> observable ->
                    get_own st' o k = get_own st o k).
Proof.
  intros Hn Hext Hfree.
  assert (Hlt : observable < List.length (heap st)).
  { unfold extensible_at in Hext.
    destruct (nth_error (heap st) observable) eqn:E; [| discriminate].
    apply nth_error_Some. congruence. }
  set (A := List.length (heap st)) in *.
  set (n := List.length names) in *.
  set (arr := plain [(KStr "length", Data (VNumber (Z.of_nat n)) true false false)]).
  set (s_A := set_heap (heap st ++ [arr]) st).
  assert (LA : List.length (heap s_A) = S A) by apply length_alloc.
  assert (Harr : forall k, get_own s_A A k = lookup_prop (props arr) k)
    by (intros k; apply get_own_alloc_new).
  destruct (@map_from_run fuel observable A names 0 s_A)
    as (s_m & Hmap & Lm & Hent & Hfr & HAk & Hx).
  { lia. }
  { unfold s_A, A. apply extensible_at_alloc_new. }
  { intros j _. rewrite Harr. unfold arr, plain. cbn [props lookup_prop key_eqb].
    destruct (String.eqb "length" (index_key j)) eqn:E; [| reflexivity].
    apply String.eqb_eq in E. symmetry in E. destruct (@index_key_not_length j E). }
  assert (HobA : exists obA, nth_error (heap s_m) A = Some obA).
  { destruct (nth_error (heap s_m) A) as [obA |] eqn:E; [eauto |].
    apply nth_error_None in E. lia. }
  destruct HobA as (obA & HobA).
  assert (HA1 : forall j, j < n ->
             get_own s_m A (KStr (index_key j)) = Some (field (VObject (entry_of A j)))).
  { intros j Hj. destruct (nth_error names j) as [key |] eqn:E.
    - destruct (Hent j key E) as (_ & Hi). rewrite LA in Hi. exact Hi.
    - apply nth_error_None in E. fold n in E. lia. }
  destruct (@assign_keys_run fuel observable A n (fun j => VObject (entry_of A j))
              (own_keys obA) s_m) as (st' & Hloop & Ha & _ & Hc).
  { lia. }
  { rewrite Hx by lia. unfold s_A. rewrite extensible_at_alloc by exact Hlt. exact Hext. }
  { exact HA1. }
  { intros k Hk. rewrite HAk by exact Hk. rewrite Harr.
    unfold arr, plain. cbn [props lookup_prop].
    destruct (key_eqb (KStr "length") k); [right; eauto | left; reflexivity]. }
  { intros j Hj. left. rewrite Hfr by lia.
    unfold s_A. rewrite get_own_alloc by exact Hlt. apply Hfree. exact Hj. }
  exists st'. split; [| split; [| split]].
  - unfold bindable.
    assert (Hg : getOwnPropertyNames observable st = (Normal names, st)).
    { unfold getOwnPropertyNames. unfold names_at in Hn.
      destruct (nth_error (heap st) observable); [| discriminate].
      inversion Hn. reflexivity. }
    rewrite (bind_Normal _ _ _ Hg).
    assert (Hm : Array_map names (binding_entry fuel observable) st = (Normal A, s_m)).
    { unfold Array_map.
      assert (Hal : alloc arr st = (Normal A, s_A)) by reflexivity.
      rewrite (bind_Normal _ _ _ Hal), (bind_Normal _ _ _ Hmap). reflexivity. }
    rewrite (bind_Normal _ _ _ Hm).
    unfold Object_assign. simpl for_each.
    assert (Hk : own_keys_of A s_m = (Normal (own_keys obA), s_m))
      by (unfold own_keys_of; rewrite HobA; reflexivity).
    unfold bind at 1 2 3. rewrite Hk. rewrite Hloop. reflexivity.
  - intros j key Hkey.
    assert (Hj : j < n) by (apply nth_error_Some; congruence).
    destruct (Hent j key Hkey) as ((Hb1 & Hb2 & Hb3) & _). rewrite LA in Hb1, Hb2, Hb3.
    split.
    + apply Ha; [exact Hj |].
      unfold own_keys. apply in_or_app. left. apply in_map.
      assert (Hhas : get_own s_m A (KStr (index_key j)) <> None)
        by (rewrite (HA1 j Hj); discriminate).
      apply has_name_iff in Hhas. destruct Hhas as (l & Hl & Hin).
      unfold names_at in Hl. rewrite HobA in Hl. inversion Hl; subst l. exact Hin.
    + unfold binding_at, entry_of in *.
      rewrite !Hc by (left; lia). auto.
  - intros k Hk. rewrite Hc by (right; exact Hk). rewrite Hfr by lia.
    unfold s_A. apply get_own_alloc. exact Hlt.
  - intros o k Ho Hne. rewrite Hc by (left; exact Hne). rewrite Hfr by lia.
    unfold s_A. apply get_own_alloc. exact Ho.
Qed.

Lemma bindable_assigns_the_entries_by_index_witness :
  exists st',
    bindable 1 0 named = (Normal 0, st')
    /\ (forall j key, nth_error ["name"%string] j = Some key ->
          get_own st' 0 (KStr (index_key j))
          = Some (field (VObject (entry_of (List.length (heap named)) j)))
          /\ binding_at st' (entry_of (List.length (heap named)) j) 0 key)
    /\ (forall k, (forall j, j < List.length ["name"%string] -> k <> KStr (index_key j)) ->
                  get_own st' 0 k = get_own named 0 k)
    /\ (forall o k, o < List.length (heap named) -> o <> 0 ->
                    get_own st' o k = get_own named o k).
Proof.
  apply (@bindable_assigns_the_entries_by_index 1 0 named ["name"%string]).
  - reflexivity.
  - reflexivity.
  - intros j Hj. simpl in Hj. assert (j = 0) by lia. subst j. reflexivity.
Defined.
